(** * appium-ios-tuntap: the tunnel data plane

    A shallow embedding of the TypeScript tunnel manager
    ([src/tunnel.ts]), of the JavaScript device wrapper ([src/TunTap.ts])
    and of the native driver ([src/tuntap.cc]), with the properties their
    specification states about them.

    Conventions.  A Node.js [Buffer] is a list of bytes.  JavaScript
    numbers that hold lengths and offsets are [nat]; numbers that hold
    field values read from a packet, system call results and [errno] are
    [Z].  Code that talks to the outside (the kernel, the event emitter,
    the consumers) appends to a trace of effects, so that what was
    written to the interface and what was published can be read off. *)

From Stdlib Require Import String Ascii.
From Stdlib Require Import List ZArith Lia Bool Arith.
From Stdlib Require Import Strings.Byte.
From Stdlib Require Import DecimalString.
Import ListNotations.

Local Open Scope string_scope.
Local Open Scope nat_scope.
Local Open Scope list_scope.

(** ** Byte buffers *)

Definition Buffer : Type := list byte.

Definition u8 (b : byte) : Z := Z.of_N (Byte.to_N b).

Definition byte_of_Z (z : Z) : byte :=
  match Byte.of_N (Z.to_N (z mod 256)) with
  | Some b => b
  | None => x00
  end.

(** [buf[i]] and [buf.readUInt8(i)].  Every use in the sources is behind
    a length test that puts [i] in range. *)
Definition byteAt (b : Buffer) (i : nat) : Z := u8 (nth i b x00).

(** [buf.readUInt16BE(off)]: first byte times 2^8 plus the second one.
    Node raises a range error unless [off + 2 <= buf.length]; each call
    site is behind a length test that excludes it (see
    [readUInt16BE_range] for the value). *)
Definition readUInt16BE (b : Buffer) (off : nat) : Z :=
  byteAt b off * 256 + byteAt b (off + 1).

(** [buf.slice(s, e)] for non-negative arguments: both ends are clamped
    to the buffer, and an end before the start gives the empty buffer. *)
Definition slice (b : Buffer) (s e : nat) : Buffer := firstn (e - s) (skipn s b).

(** [buf.slice(s)]. *)
Definition sliceFrom (b : Buffer) (s : nat) : Buffer := skipn s b.

(** [Buffer.alloc(2)] followed by [writeUInt16BE(v)]; out of the 16-bit
    range Node raises a range error. *)
Definition writeUInt16BE (v : Z) : option Buffer :=
  if (0 <=? v)%Z && (v <=? 65535)%Z
  then Some [byte_of_Z (v / 256); byte_of_Z (v mod 256)]
  else None.

(** [Buffer.from(s)] for a string of ASCII characters. *)
Definition bytes_of_string (s : string) : Buffer := list_byte_of_string s.

(** ** Number formatting *)

Definition hexDigits : list ascii := list_ascii_of_string "0123456789abcdef".

Definition hexDigit (d : Z) : ascii := nth (Z.to_nat d) hexDigits "0"%char.

Fixpoint toHex (fuel : nat) (n : Z) (acc : string) : string :=
  match fuel with
  | O => acc
  | S fuel' =>
      let acc' := String (hexDigit (n mod 16)) acc in
      if (n / 16 =? 0)%Z then acc' else toHex fuel' (n / 16) acc'
  end.

(** [n.toString(16)] for a non-negative integer [n]: lowercase digits,
    most significant first, no padding. *)
Definition toString16 (n : Z) : string := toHex (S (Z.to_nat (Z.log2 n))) n "".

(** Template-literal rendering of an integer, [`${n}`]. *)
Definition toString10 (n : Z) : string := NilZero.string_of_int (Z.to_int n).

(** ** formatIPv6Address (tunnel.ts) *)

(** The values that [i] takes in [for (let i = 0; i < 16; i += 2)]. *)
Fixpoint forRange (fuel : nat) (i bound step : nat) : list nat :=
  match fuel with
  | O => []
  | S fuel' => if i <? bound then i :: forRange fuel' (i + step) bound step else []
  end.

Definition invalid_address : string := "invalid-address".

Definition formatIPv6Address (buffer : Buffer) : string :=
  if negb (length buffer =? 16) then invalid_address
  else
    let parts := map (fun i => toString16 (readUInt16BE buffer i)) (forRange 16 0 16 2) in
    String.concat ":" parts.

(** ** The native driver (tuntap.cc) *)

Inductive Platform := Darwin | Linux | OtherPlatform (name : string).

(** What a native method hands back to JavaScript: a thrown exception,
    or a value (a buffer, a number, a boolean, or an [Error] object
    returned as a value). *)
Inductive NapiValue :=
| VBuffer (b : Buffer)
| VNumber (n : Z)
| VBoolean (b : bool)
| VError (errno : Z).

Inductive NapiResult :=
| Returns (v : NapiValue)
| Throws (message : string).

(** The outcome of the system calls of [TunDevice::Open] that acquire
    the kernel device: the descriptor and the interface name, or a
    failure with the message of the step that failed. *)
Inductive AcquireOutcome :=
| Acquired (fd : Z) (name : string)
| AcquireFailed (message : string).

(** What [read(2)] left behind: its return value, the bytes it stored
    and the value of [errno] afterwards (stale when the call succeeds). *)
Record KernelRead := mkKernelRead {
  bytes_read : Z;
  tmp_buffer : Buffer;
  read_errno : Z
}.

(** What [write(2)] left behind. *)
Record KernelWrite := mkKernelWrite {
  bytes_written : Z;
  write_errno : Z
}.

Module TunDevice.

Record t := mk {
  fd : Z;
  name : string;
  is_open : bool
}.

(** The constructor: [fd(-1), is_open(false)], the name if one is
    given. *)
Definition create (name : string) : t := mk (-1) name false.

(** [TunDevice::Open]. *)
Definition Open (k : AcquireOutcome) (d : t) : t * NapiResult :=
  if is_open d then (d, Returns (VBoolean true))
  else
    match k with
    | AcquireFailed msg => (mk (-1) (name d) false, Throws msg)
    | Acquired fd' name' => (mk fd' name' true, Returns (VBoolean true))
    end.

(** [TunDevice::Close]. *)
Definition Close (d : t) : t * NapiResult :=
  if is_open d then (mk (-1) (name d) false, Returns (VBoolean true))
  else (d, Returns (VBoolean true)).

(** [AF_INET6] on macOS, as the comment in [Write] records. *)
Definition AF_INET6 : Z := 30.

(** The four bytes that [htonl(v)] leaves in memory. *)
Definition htonl (v : Z) : Buffer :=
  [byte_of_Z (Z.shiftr v 24); byte_of_Z (Z.shiftr v 16);
   byte_of_Z (Z.shiftr v 8); byte_of_Z v].

(** [TunDevice::Read].  [EAGAIN] and [EWOULDBLOCK] come from the
    system headers and are parameters. *)
Definition Read (p : Platform) (EAGAIN EWOULDBLOCK : Z)
    (k : KernelRead) (d : t) : NapiResult :=
  if negb (is_open d) then Throws "Device not open"
  else
    match p with
    | Darwin =>
        if (bytes_read k <=? 0)%Z then
          if (read_errno k =? EAGAIN)%Z || (read_errno k =? EWOULDBLOCK)%Z
          then Returns (VBuffer [])
          else Returns (VError (read_errno k))
        else if (4 <? bytes_read k)%Z then
          Returns (VBuffer (firstn (Z.to_nat (bytes_read k - 4)) (skipn 4 (tmp_buffer k))))
        else Returns (VBuffer [])
    | _ =>
        if (bytes_read k <? 0)%Z then
          if (read_errno k =? EAGAIN)%Z || (read_errno k =? EWOULDBLOCK)%Z
          then Returns (VBuffer [])
          else Returns (VError (read_errno k))
        else Returns (VBuffer (firstn (Z.to_nat (bytes_read k)) (tmp_buffer k)))
    end.

(** The bytes that [TunDevice::Write] passes to [write(2)]. *)
Definition write_frame (p : Platform) (data : Buffer) : Buffer :=
  match p with
  | Darwin => htonl AF_INET6 ++ data
  | _ => data
  end.

(** [TunDevice::Write], given what the system call returned. *)
Definition Write (p : Platform) (k : KernelWrite) (data : Buffer) (d : t) : NapiResult :=
  if negb (is_open d) then Throws "Device not open"
  else
    match p with
    | Darwin =>
        if (bytes_written k <? 0)%Z then Returns (VError (write_errno k))
        else Returns (VNumber (if (4 <? bytes_written k)%Z then bytes_written k - 4 else 0))
    | _ =>
        if (bytes_written k <? 0)%Z then Returns (VError (write_errno k))
        else Returns (VNumber (bytes_written k))
    end.

End TunDevice.

(** ** The device wrapper (TunTap.ts) *)

Module TunTap.

Record t := mk {
  device : TunDevice.t;
  isOpen : bool
}.

Definition create (name : string) : t := mk (TunDevice.create name) false.

Definition name (h : t) : string := TunDevice.name (device h).

(** [open()]: the native call runs only when the wrapper is not open;
    an exception of the native call leaves [isOpen] as it was. *)
Definition open (k : AcquireOutcome) (h : t) : t * NapiResult :=
  if negb (isOpen h) then
    match TunDevice.Open k (device h) with
    | (d', Returns (VBoolean b)) => (mk d' b, Returns (VBoolean b))
    | (d', r) => (mk d' (isOpen h), r)
    end
  else (h, Returns (VBoolean (isOpen h))).

(** [close()]. *)
Definition close (h : t) : t * NapiResult :=
  if isOpen h then (mk (fst (TunDevice.Close (device h))) false, Returns (VBoolean true))
  else (h, Returns (VBoolean true)).

(** [read(maxSize)]. *)
Definition read (p : Platform) (EAGAIN EWOULDBLOCK : Z) (k : KernelRead) (h : t) : NapiResult :=
  if negb (isOpen h) then Throws "Device not open"
  else TunDevice.Read p EAGAIN EWOULDBLOCK k (device h).

(** [write(data)]. *)
Definition write (p : Platform) (k : KernelWrite) (data : Buffer) (h : t) : NapiResult :=
  if negb (isOpen h) then Throws "Device not open"
  else TunDevice.Write p k data (device h).

(** The result of an [async] method: the administrative commands it
    ran through [execPromise], in order, and how its promise settled. *)
Inductive Settled := Fulfilled | RejectedWith (message : string).

(** Runs the commands in order; the first one that fails rejects and
    the later ones are not run. *)
Fixpoint execAll (execOk : string -> bool) (cmds : list string) : list string * Settled :=
  match cmds with
  | [] => ([], Fulfilled)
  | c :: rest =>
      if execOk c then
        let (ran, r) := execAll execOk rest in (c :: ran, r)
      else ([c], RejectedWith ("Command failed: " ++ c)%string)
  end.

(** [configure(address, mtu)]. *)
Definition configure (p : Platform) (execOk : string -> bool)
    (address : string) (mtu : Z) (h : t) : list string * Settled :=
  if negb (isOpen h) then ([], RejectedWith "Device not open")
  else
    match p with
    | Darwin =>
        execAll execOk
          [("sudo ifconfig " ++ name h ++ " inet6 " ++ address ++ " prefixlen 64 up")%string;
           ("sudo ifconfig " ++ name h ++ " mtu " ++ toString10 mtu)%string]
    | Linux =>
        execAll execOk
          [("sudo ip -6 addr add " ++ address ++ "/64 dev " ++ name h)%string;
           ("sudo ip link set dev " ++ name h ++ " up mtu " ++ toString10 mtu)%string]
    | OtherPlatform pn => ([], RejectedWith ("Unsupported platform: " ++ pn)%string)
    end.

(** [addRoute(destination)]. *)
Definition addRoute (p : Platform) (execOk : string -> bool)
    (destination : string) (h : t) : list string * Settled :=
  if negb (isOpen h) then ([], RejectedWith "Device not open")
  else
    match p with
    | Darwin =>
        execAll execOk
          [("sudo route -n add -inet6 " ++ destination ++ " -interface " ++ name h)%string]
    | Linux =>
        execAll execOk
          [("sudo ip -6 route add " ++ destination ++ " dev " ++ name h)%string]
    | OtherPlatform pn => ([], RejectedWith ("Unsupported platform: " ++ pn)%string)
    end.

(** Whether [write(data)] raises an exception; what the system call
    does plays no part in that (see [write_throws_iff]). *)
Definition writeThrows (h : t) : bool :=
  negb (isOpen h) || negb (TunDevice.is_open (device h)).

End TunTap.

(** ** The later revision of the device wrapper

    The revision of the class that is kept after the logger source
    (src/logger.ts): the handle has a [isClosed] flag next to [isOpen],
    and [configure] tests its arguments.  The tunnel manager imports
    the class of TunTap.ts above; this one is here to be compared with
    it. *)

Module TunTapRevised.

Record t := mk {
  device : TunDevice.t;
  isOpen : bool;
  isClosed : bool
}.

Definition create (name : string) : t := mk (TunDevice.create name) false false.

(** [open()]. *)
Definition open (k : AcquireOutcome) (h : t) : t * NapiResult :=
  if isClosed h then (h, Throws "Device has been closed and cannot be reopened")
  else if negb (isOpen h) then
    match TunDevice.Open k (device h) with
    | (d', Returns (VBoolean true)) => (mk d' true false, Returns (VBoolean true))
    | (d', Returns _) => (mk d' false false, Throws "Failed to open TUN device")
    | (d', Throws msg) => (mk d' (isOpen h) false, Throws msg)
    end
  else (h, Returns (VBoolean (isOpen h))).

(** [close()]. *)
Definition close (h : t) : t * NapiResult :=
  if negb (isClosed h) then
    (mk (if isOpen h then fst (TunDevice.Close (device h)) else device h) false true,
     Returns (VBoolean true))
  else (h, Returns (VBoolean true)).

(** [read(maxSize)]. *)
Definition read (p : Platform) (EAGAIN EWOULDBLOCK : Z) (k : KernelRead)
    (maxSize : Z) (h : t) : NapiResult :=
  if negb (isOpen h) then Throws "Device not open"
  else if isClosed h then Throws "Device has been closed"
  else if (maxSize <=? 0)%Z || (65536 <? maxSize)%Z
  then Throws "Read size must be between 1 and 65536 bytes"
  else
    match TunDevice.Read p EAGAIN EWOULDBLOCK k (device h) with
    | Throws msg => Throws ("Read failed: " ++ msg)%string
    | r => r
    end.

(** [write(data)]. *)
Definition write (p : Platform) (k : KernelWrite) (data : Buffer) (h : t) : NapiResult :=
  if negb (isOpen h) then Throws "Device not open"
  else if isClosed h then Throws "Device has been closed"
  else if length data =? 0 then Returns (VNumber 0)
  else if (65536 <? Z.of_nat (length data))%Z
  then Throws "Write data too large (max 65536 bytes)"
  else
    match TunDevice.Write p k data (device h) with
    | Throws msg => Throws ("Write failed: " ++ msg)%string
    | Returns (VNumber n) =>
        if (n <? 0)%Z then Throws "Write failed: Write operation failed"
        else Returns (VNumber n)
    | r => r
    end.

(** The tests of [configure(address, mtu)] that come before its first
    command: the error it throws there, if any.  [ipv6RegexTest] is
    [ipv6Regex.test] for the regular expression of the source. *)
Definition configureGuards (ipv6RegexTest : string -> bool)
    (address : string) (mtu : Z) (h : t) : option string :=
  if negb (isOpen h) then Some "Device not open"
  else if isClosed h then Some "Device has been closed"
  else if negb (ipv6RegexTest address) then Some "Invalid IPv6 address format"
  else if (mtu <? 1280)%Z || (65535 <? mtu)%Z then Some "MTU must be between 1280 and 65535"
  else None.

End TunTapRevised.

(** ** The tunnel manager (tunnel.ts) *)

Inductive Protocol := TCP | UDP.

Record PacketData := mkPacketData {
  protocol : Protocol;
  src : string;
  dst : string;
  sourcePort : Z;
  destPort : Z;
  payload : Buffer
}.

(** A [PacketConsumer] object.  A JavaScript [Set] holds objects by
    identity, so a consumer is a tag and a number: [PushConsumer n] is
    an object that a caller registers, [StreamConsumer n] is the private
    consumer that the [n]-th packet stream builds for itself. *)
Inductive Consumer := PushConsumer (id : nat) | StreamConsumer (id : nat).

Definition Consumer_eqb (a b : Consumer) : bool :=
  match a, b with
  | PushConsumer x, PushConsumer y => x =? y
  | StreamConsumer x, StreamConsumer y => x =? y
  | _, _ => false
  end.

(** [Set.prototype.add], [delete] and [clear]; [forEach] visits the
    elements in insertion order, which the list keeps. *)
Definition set_add (c : Consumer) (s : list Consumer) : list Consumer :=
  if existsb (Consumer_eqb c) s then s else s ++ [c].

Definition set_delete (c : Consumer) (s : list Consumer) : list Consumer :=
  filter (fun x => negb (Consumer_eqb c x)) s.

Record Socket := mkSocket { destroyed : bool }.

(** The promise that one run of [_performStop] returns, named by the
    number of that run. *)
Inductive Promise := CleanupCompletion (run : nat).

Inductive Effect :=
| TunWrite (packet : Buffer)
| TunRead
| TunClose
| EmitData (p : PacketData)
| OnPacket (c : Consumer) (p : PacketData)
| SocketWrite (data : Buffer)
| SocketDestroy
| ClearInterval
| LogError (message : string).

(** The fields of the class, the ['data'] listeners it inherits from
    [EventEmitter] (a listener is the test of whether it throws on a
    record), its membership of [activeTunnelManagers], and a count of
    the runs of [_performStop]. *)
Record TunnelManager := mkTunnelManager {
  tun : option TunTap.t;
  cancelled : bool;
  readInterval : bool;
  buffer : Buffer;
  packetConsumers : list Consumer;
  packetQueue : list PacketData;
  deviceConn : option Socket;
  cleanupPromise : option Promise;
  dataListeners : list (PacketData -> bool);
  registered : bool;
  performStopRuns : nat
}.

(** The constructor. *)
Definition newTunnelManager : TunnelManager :=
  {| tun := None; cancelled := false; readInterval := false; buffer := [];
     packetConsumers := []; packetQueue := []; deviceConn := None;
     cleanupPromise := None; dataListeners := []; registered := true;
     performStopRuns := 0 |}.

Definition with_buffer (m : TunnelManager) (b : Buffer) : TunnelManager :=
  {| tun := tun m; cancelled := cancelled m; readInterval := readInterval m;
     buffer := b; packetConsumers := packetConsumers m;
     packetQueue := packetQueue m; deviceConn := deviceConn m;
     cleanupPromise := cleanupPromise m; dataListeners := dataListeners m;
     registered := registered m; performStopRuns := performStopRuns m |}.

Definition with_packetConsumers (m : TunnelManager) (s : list Consumer) : TunnelManager :=
  {| tun := tun m; cancelled := cancelled m; readInterval := readInterval m;
     buffer := buffer m; packetConsumers := s;
     packetQueue := packetQueue m; deviceConn := deviceConn m;
     cleanupPromise := cleanupPromise m; dataListeners := dataListeners m;
     registered := registered m; performStopRuns := performStopRuns m |}.

Definition with_tun (m : TunnelManager) (t : option TunTap.t) : TunnelManager :=
  {| tun := t; cancelled := cancelled m; readInterval := readInterval m;
     buffer := buffer m; packetConsumers := packetConsumers m;
     packetQueue := packetQueue m; deviceConn := deviceConn m;
     cleanupPromise := cleanupPromise m; dataListeners := dataListeners m;
     registered := registered m; performStopRuns := performStopRuns m |}.

Definition with_cleanupPromise (m : TunnelManager) (p : option Promise) : TunnelManager :=
  {| tun := tun m; cancelled := cancelled m; readInterval := readInterval m;
     buffer := buffer m; packetConsumers := packetConsumers m;
     packetQueue := packetQueue m; deviceConn := deviceConn m;
     cleanupPromise := p; dataListeners := dataListeners m;
     registered := registered m; performStopRuns := performStopRuns m |}.

Definition addPacketConsumer (c : Consumer) (m : TunnelManager) : TunnelManager :=
  with_packetConsumers m (set_add c (packetConsumers m)).

Definition removePacketConsumer (c : Consumer) (m : TunnelManager) : TunnelManager :=
  with_packetConsumers m (set_delete c (packetConsumers m)).

(** [this.emit('data', packetData)] followed by the [forEach] over the
    consumers.  A listener that throws makes [emit] throw, which the
    [catch] around the write reports; a consumer that throws is caught
    inside the [forEach], so the others are still called. *)
Definition publish (m : TunnelManager) (pd : PacketData) : list Effect :=
  EmitData pd ::
  (if existsb (fun l => l pd) (dataListeners m)
   then [LogError "Error writing to TUN"]
   else map (fun c => OnPacket c pd) (packetConsumers m)).

(** The [try] block of [processBuffer]: the write to the interface and
    the UDP and TCP branches. *)
Definition forwardPacket (m : TunnelManager) (t : TunTap.t) (packet : Buffer)
    (nextHeader : Z) (src dst : string) : list Effect :=
  if TunTap.writeThrows t then [LogError "Error writing to TUN"]
  else
    TunWrite packet ::
    (if (nextHeader =? 17)%Z then
       let payload := sliceFrom packet 40 in
       if length payload <? 8 then []
       else
         let sourcePort := readUInt16BE payload 0 in
         let destPort := readUInt16BE payload 2 in
         let udpPayload := sliceFrom payload 8 in
         publish m (mkPacketData UDP src dst sourcePort destPort udpPayload)
     else if (nextHeader =? 6)%Z then
       let tcpHeaderStart := 40 in
       if length packet <? tcpHeaderStart + 20 then []
       else
         let sourcePort := readUInt16BE packet tcpHeaderStart in
         let destPort := readUInt16BE packet (tcpHeaderStart + 2) in
         let dataOffsetByte := byteAt packet (tcpHeaderStart + 12) in
         let tcpHeaderLength := Z.to_nat (Z.shiftr dataOffsetByte 4 * 4) in
         if length packet <? tcpHeaderStart + tcpHeaderLength then []
         else
           let tcpPayload := sliceFrom packet (tcpHeaderStart + tcpHeaderLength) in
           publish m (mkPacketData TCP src dst sourcePort destPort tcpPayload)
     else []).

(** The [while] loop of [processBuffer], from [offset]: the offset it
    stops at and the effects of its iterations.  Every iteration that
    goes on moves the offset forward and keeps it within the buffer, so
    the length of the buffer plus one is fuel enough
    ([processLoop_fuel]). *)
Fixpoint processLoop (fuel : nat) (m : TunnelManager) (offset : nat) : nat * list Effect :=
  match fuel with
  | O => (offset, [])
  | S fuel' =>
      if offset + 40 <=? length (buffer m) then
        let header := slice (buffer m) offset (offset + 40) in
        let version := Z.land (Z.shiftr (byteAt header 0) 4) 15 in
        if negb (version =? 6)%Z then processLoop fuel' m (offset + 1)
        else
          let payloadLength := Z.to_nat (readUInt16BE header 4) in
          if length (buffer m) <? offset + 40 + payloadLength then (offset, [])
          else
            let packet := slice (buffer m) offset (offset + 40 + payloadLength) in
            let src := formatIPv6Address (slice packet 8 24) in
            let dst := formatIPv6Address (slice packet 24 40) in
            let nextHeader := byteAt header 6 in
            match tun m with
            | None => (offset, [LogError "TUN device is null during packet processing"])
            | Some t =>
                let here := forwardPacket m t packet nextHeader src dst in
                let (offset', later) := processLoop fuel' m (offset + 40 + payloadLength) in
                (offset', here ++ later)
            end
      else (offset, [])
  end.

(** [processBuffer()]. *)
Definition processBuffer (m : TunnelManager) : TunnelManager * list Effect :=
  let (offset, effects) := processLoop (S (length (buffer m))) m 0 in
  (if 0 <? offset then with_buffer m (sliceFrom (buffer m) offset) else m, effects).

(** The ['data'] listener that [startForwarding] installs on the
    device connection. *)
Definition onData (m : TunnelManager) (data : Buffer) : TunnelManager * list Effect :=
  if cancelled m then (m, [])
  else processBuffer (with_buffer m (buffer m ++ data)).

(** Feeding the chunks of a stream in order, with the effects of all
    of them. *)
Fixpoint feed (m : TunnelManager) (chunks : list Buffer) : TunnelManager * list Effect :=
  match chunks with
  | [] => (m, [])
  | c :: rest =>
      let (m1, e1) := onData m c in
      let (m2, e2) := feed m1 rest in
      (m2, e1 ++ e2)
  end.

(** The packets handed to the interface in a trace. *)
Definition interfaceWrites (tr : list Effect) : list Buffer :=
  flat_map (fun e => match e with TunWrite p => [p] | _ => [] end) tr.

(** The callback of [startTunReadLoop], given what [tun.read(16384)]
    produced.  A cleared interval no longer calls it. *)
Definition onTick (r : NapiResult) (m : TunnelManager) : list Effect :=
  if negb (readInterval m) then []
  else if cancelled m then []
  else
    match tun m with
    | None => []
    | Some t =>
        if negb (TunTap.isOpen t) then [LogError "Error reading from TUN"]
        else
          TunRead ::
          match r with
          | Returns (VBuffer data) =>
              if 0 <? length data then
                match deviceConn m with
                | Some s => if destroyed s then [] else [SocketWrite data]
                | None => []
                end
              else []
          | Returns _ => []
          | Throws _ => [LogError "Error reading from TUN"]
          end
    end.

(** [_performStop()].  It has no [await], so it runs to its end within
    the call of [stop] that starts it. *)
Definition _performStop (m : TunnelManager) : TunnelManager * list Effect :=
  let e1 := if readInterval m then [ClearInterval] else [] in
  let '(conn, e2) :=
    match deviceConn m with
    | Some s => if negb (destroyed s) then (None, [SocketDestroy]) else (Some s, [])
    | None => (None, [])
    end in
  let e3 :=
    match tun m with
    | Some t => if TunTap.isOpen t then [TunClose] else []
    | None => []
    end in
  ({| tun := None; cancelled := true; readInterval := false; buffer := [];
      packetConsumers := []; packetQueue := packetQueue m; deviceConn := conn;
      cleanupPromise := cleanupPromise m; dataListeners := [];
      registered := false; performStopRuns := S (performStopRuns m) |},
   e1 ++ e2 ++ e3).

(** [stop()]: the manager afterwards, the cleanup completion that the
    returned promise follows, and the effects. *)
Definition stop (m : TunnelManager) : TunnelManager * Promise * list Effect :=
  match cleanupPromise m with
  | Some p => (m, p, [])
  | None =>
      let (m', effects) := _performStop m in
      let p := CleanupCompletion (performStopRuns m') in
      (with_cleanupPromise m' (Some p), p, effects)
  end.

Record TunnelInfo := mkTunnelInfo {
  address : string;
  mtu : Z;
  serverAddress : string;
  serverRSDPort : option Z
}.

(** [setupInterface(tunnelInfo)], taken as one step: the manager
    afterwards, the administrative commands run and how the promise
    settled. *)
Definition setupInterface (p : Platform) (k : AcquireOutcome) (execOk : string -> bool)
    (info : TunnelInfo) (m : TunnelManager) : TunnelManager * list string * TunTap.Settled :=
  let (t, r) := TunTap.open k (TunTap.create "") in
  match r with
  | Returns (VBoolean true) =>
      match TunTap.configure p execOk (address info) (mtu info) t with
      | (cmds1, TunTap.Fulfilled) =>
          match TunTap.addRoute p execOk (serverAddress info ++ "/128")%string t with
          | (cmds2, TunTap.Fulfilled) => (with_tun m (Some t), cmds1 ++ cmds2, TunTap.Fulfilled)
          | (cmds2, e) => (with_tun m None, cmds1 ++ cmds2, e)
          end
      | (cmds1, e) => (with_tun m None, cmds1, e)
      end
  | Returns _ => (with_tun m None, [], TunTap.RejectedWith "Failed to open TUN device")
  | Throws e => (with_tun m None, [], TunTap.RejectedWith e)
  end.

(** What [setupInterface] does to the interface besides opening it:
    the [catch] block calls [close()] on the handle that the call has
    created, which closes the device when the handle was opened. *)
Definition setupInterfaceEffects (p : Platform) (k : AcquireOutcome)
    (execOk : string -> bool) (info : TunnelInfo) : list Effect :=
  let (t, r) := TunTap.open k (TunTap.create "") in
  let closeInCatch := if TunTap.isOpen t then [TunClose] else [] in
  match r with
  | Returns (VBoolean true) =>
      match TunTap.configure p execOk (address info) (mtu info) t with
      | (_, TunTap.Fulfilled) =>
          match TunTap.addRoute p execOk (serverAddress info ++ "/128")%string t with
          | (_, TunTap.Fulfilled) => []
          | _ => closeInCatch
          end
      | _ => closeInCatch
      end
  | _ => closeInCatch
  end.

(** [startForwarding(deviceConn)]. *)
Definition startForwarding (s : Socket) (m : TunnelManager) : TunnelManager :=
  match tun m with
  | None => m
  | Some _ =>
      {| tun := tun m; cancelled := cancelled m; readInterval := true;
         buffer := buffer m; packetConsumers := packetConsumers m;
         packetQueue := packetQueue m; deviceConn := Some s;
         cleanupPromise := cleanupPromise m; dataListeners := dataListeners m;
         registered := registered m; performStopRuns := performStopRuns m |}
  end.

(** ** getPacketStream (tunnel.ts)

    The asynchronous generator as a state machine.  Its body starts at
    the first [next()], which is when the private consumer is added.  A
    [next()] that arrives while the generator waits for a packet is
    queued behind the pending one.  A record passed to the resolver
    counts as yielded from then on: the generator hands it to the
    pending [next()] in the microtask that follows, so [yielded] runs
    ahead of the consumer of the iterator by that one step. *)

Inductive GenPhase := SuspendedStart | SuspendedYield | AwaitingPacket | Completed.

Record PacketStream := mkPacketStream {
  queue : list PacketData;
  resolver : bool;
  phase : GenPhase;
  pendingNext : nat;
  yielded : list PacketData
}.

Definition newPacketStream : PacketStream := mkPacketStream [] false SuspendedStart 0 [].

(** One pass of [while (!this.cancelled)] up to the next [yield], the
    [await] of a promise that only the resolver settles, or the
    [finally] block. *)
Definition runLoop (sid : nat) (m : TunnelManager) (s : PacketStream)
    : TunnelManager * PacketStream :=
  if cancelled m then
    (removePacketConsumer (StreamConsumer sid) m,
     mkPacketStream (queue s) (resolver s) Completed (pendingNext s) (yielded s))
  else
    match queue s with
    | x :: q => (m, mkPacketStream q (resolver s) SuspendedYield (pendingNext s) (yielded s ++ [x]))
    | [] => (m, mkPacketStream [] true AwaitingPacket (pendingNext s) (yielded s))
    end.

(** A call of [next()] on the iterator. *)
Definition next (sid : nat) (m : TunnelManager) (s : PacketStream)
    : TunnelManager * PacketStream :=
  match phase s with
  | SuspendedStart => runLoop sid (addPacketConsumer (StreamConsumer sid) m) s
  | SuspendedYield => runLoop sid m s
  | AwaitingPacket =>
      (m, mkPacketStream (queue s) (resolver s) AwaitingPacket (S (pendingNext s)) (yielded s))
  | Completed => (m, s)
  end.

(** [consumer.onPacket(packet)] of the private consumer.  With a
    resolver set the packet is yielded to the pending [next()], and a
    queued [next()] puts the generator back to waiting; without one the
    packet is queued. *)
Definition stream_onPacket (s : PacketStream) (p : PacketData) : PacketStream :=
  if resolver s then
    match pendingNext s with
    | O => mkPacketStream (queue s) false SuspendedYield 0 (yielded s ++ [p])
    | S n => mkPacketStream (queue s) true AwaitingPacket n (yielded s ++ [p])
    end
  else mkPacketStream (queue s ++ [p]) false (phase s) (pendingNext s) (yielded s).

(** ** The manager with its packet streams *)

Record World := mkWorld {
  mgr : TunnelManager;
  streams : list PacketStream;
  trace : list Effect
}.

Definition newWorld : World := mkWorld newTunnelManager [] [].

Fixpoint update_nth {A} (n : nat) (f : A -> A) (l : list A) : list A :=
  match l, n with
  | [], _ => []
  | x :: r, O => f x :: r
  | x :: r, S n' => x :: update_nth n' f r
  end.

(** The calls of [onPacket] in a trace, applied to the streams whose
    private consumers received them. *)
Fixpoint deliver (tr : list Effect) (ss : list PacketStream) : list PacketStream :=
  match tr with
  | [] => ss
  | OnPacket (StreamConsumer sid) p :: rest =>
      deliver rest (update_nth sid (fun s => stream_onPacket s p) ss)
  | _ :: rest => deliver rest ss
  end.

(** What can happen to a manager: the calls of its methods and of the
    iterators of its packet streams, and the runs of the callbacks that
    [startForwarding] installs (['data'] and ['close'] on the device
    connection, the interval of the read loop). *)
Inductive Event :=
| EvAddPacketConsumer (id : nat)
| EvRemovePacketConsumer (id : nat)
| EvGetPacketStream
| EvNext (sid : nat)
| EvSetupInterface (p : Platform) (k : AcquireOutcome) (execOk : string -> bool) (info : TunnelInfo)
| EvStartForwarding (s : Socket)
| EvData (chunk : Buffer)
| EvTick (r : NapiResult)
| EvSocketClose
| EvStop.

Definition step (w : World) (e : Event) : World :=
  match e with
  | EvAddPacketConsumer id =>
      mkWorld (addPacketConsumer (PushConsumer id) (mgr w)) (streams w) (trace w)
  | EvRemovePacketConsumer id =>
      mkWorld (removePacketConsumer (PushConsumer id) (mgr w)) (streams w) (trace w)
  | EvGetPacketStream =>
      mkWorld (mgr w) (streams w ++ [newPacketStream]) (trace w)
  | EvNext sid =>
      match nth_error (streams w) sid with
      | Some s =>
          let (m', s') := next sid (mgr w) s in
          mkWorld m' (update_nth sid (fun _ => s') (streams w)) (trace w)
      | None => w
      end
  | EvSetupInterface p k execOk info =>
      mkWorld (fst (fst (setupInterface p k execOk info (mgr w)))) (streams w)
        (trace w ++ setupInterfaceEffects p k execOk info)
  | EvStartForwarding s =>
      mkWorld (startForwarding s (mgr w)) (streams w) (trace w)
  | EvData chunk =>
      let (m', effects) := onData (mgr w) chunk in
      mkWorld m' (deliver effects (streams w)) (trace w ++ effects)
  | EvTick r =>
      mkWorld (mgr w) (streams w) (trace w ++ onTick r (mgr w))
  | EvSocketClose | EvStop =>
      let '(m', _, effects) := stop (mgr w) in
      mkWorld m' (streams w) (trace w ++ effects)
  end.

Definition run (w : World) (es : list Event) : World := fold_left step es w.

(** The promises that the calls of [stop] in a run return, in order. *)
Fixpoint stopResults (w : World) (es : list Event) : list Promise :=
  match es with
  | [] => []
  | e :: rest =>
      match e with
      | EvStop | EvSocketClose => snd (fst (stop (mgr w))) :: stopResults (step w e) rest
      | _ => stopResults (step w e) rest
      end
  end.

(** ** The handshake (exchangeCoreTunnelParameters, tunnel.ts) *)

Module Handshake.

(** The JSON library, over the bytes of the text: [parse b] is
    [JSON.parse(b.toString())], with [None] when it throws, and
    [stringify j] is [Buffer.from(JSON.stringify(j))]. *)
Class JSON (J : Type) := {
  parse : Buffer -> option J;
  stringify : J -> Buffer
}.

Definition magic : Buffer := bytes_of_string "CDTunnel".

Definition quote : string := String (ascii_of_nat 34) EmptyString.

(** [JSON.stringify({ type: 'clientHandshakeRequest', mtu: 16000 })]. *)
Definition requestJSON : string :=
  ("{" ++ quote ++ "type" ++ quote ++ ":" ++ quote ++ "clientHandshakeRequest" ++ quote
    ++ "," ++ quote ++ "mtu" ++ quote ++ ":16000}")%string.

(** The frame built from the bytes of a JSON text:
    [Buffer.concat([magic, length, jsonBuffer])].  [None] is the range
    error of [writeUInt16BE]. *)
Definition encode (jsonBuffer : Buffer) : option Buffer :=
  match writeUInt16BE (Z.of_nat (length jsonBuffer)) with
  | Some len => Some (magic ++ len ++ jsonBuffer)
  | None => None
  end.

(** The [Error] objects that reject the promise; [SocketError] is the
    error of the socket passed on unchanged. *)
Inductive Failure :=
| InvalidPacketFormat
| InvalidJSONResponse
| ConnectionClosed
| HandshakeTimedOut
| SocketError (e : string).

Definition message_of (f : Failure) : string :=
  match f with
  | InvalidPacketFormat => "Invalid packet format"
  | InvalidJSONResponse => "Invalid JSON response"
  | ConnectionClosed => "Connection closed before receiving complete response"
  | HandshakeTimedOut => "Tunnel handshake timeout"
  | SocketError e => e
  end.

Inductive ErrorKind := ProtocolError | HandshakeTimeout | IoError.

(** Modelled from the spec: the error kinds of its error taxonomy.
    The source raises plain [Error] objects that differ by their
    message only; this reads each message as the kind the
    specification gives to its cause. *)
Definition kindOf (f : Failure) : ErrorKind :=
  match f with
  | InvalidPacketFormat | InvalidJSONResponse | ConnectionClosed => ProtocolError
  | HandshakeTimedOut => HandshakeTimeout
  | SocketError _ => IoError
  end.

Inductive Completion (J : Type) :=
| Pending
| Resolved (response : J)
| Rejected (f : Failure).
Arguments Pending {J}.
Arguments Resolved {J} response.
Arguments Rejected {J} f.

(** The variables of the closure: the accumulator, the three listeners
    on the socket, the timer, and the state of the promise; [sent] is
    what was written to the socket. *)
Record State (J : Type) := mkState {
  buffer : Buffer;
  dataListener : bool;
  errorListener : bool;
  endListener : bool;
  timeoutHandle : bool;
  completion : Completion J;
  sent : list Buffer
}.
Arguments mkState {J}.
Arguments buffer {J}.
Arguments dataListener {J}.
Arguments errorListener {J}.
Arguments endListener {J}.
Arguments timeoutHandle {J}.
Arguments completion {J}.
Arguments sent {J}.

Section Handlers.
Context {J : Type} {lib : JSON J}.

(** [cleanup()]. *)
Definition cleanup (st : State J) : State J :=
  mkState (buffer st) false false false false (completion st) (sent st).

(** [resolve] and [reject]: a settled promise stays as it is. *)
Definition settle (c : Completion J) (st : State J) : State J :=
  match completion st with
  | Pending =>
      mkState (buffer st) (dataListener st) (errorListener st) (endListener st)
              (timeoutHandle st) c (sent st)
  | _ => st
  end.

Definition with_buffer (st : State J) (b : Buffer) : State J :=
  mkState b (dataListener st) (errorListener st) (endListener st)
          (timeoutHandle st) (completion st) (sent st).

(** Whether [buffer.slice(0, 8).toString() !== 'CDTunnel'].  Eight
    bytes decode to that string exactly when they are its eight
    ASCII codes, so the test is on the bytes. *)
Definition magicDiffers (b : Buffer) : bool :=
  negb (if list_eq_dec Byte.byte_eq_dec (slice b 0 8) magic then true else false).

(** [handleData(data)]. *)
Definition handleData (data : Buffer) (st : State J) : State J :=
  let st1 := with_buffer st (buffer st ++ data) in
  if length (buffer st1) <? 10 then st1
  else if magicDiffers (buffer st1) then
    settle (Rejected InvalidPacketFormat) (cleanup st1)
  else
    let payloadLength := Z.to_nat (readUInt16BE (buffer st1) 8) in
    let totalLength := 8 + 2 + payloadLength in
    if totalLength <=? length (buffer st1) then
      let payload := slice (buffer st1) 10 totalLength in
      match parse payload with
      | Some response => settle (Resolved response) (cleanup st1)
      | None => settle (Rejected InvalidJSONResponse) (cleanup st1)
      end
    else st1.

(** [handleError(err)]. *)
Definition handleError (e : string) (st : State J) : State J :=
  settle (Rejected (SocketError e)) (cleanup st).

(** [handleEnd()]. *)
Definition handleEnd (st : State J) : State J :=
  settle (Rejected ConnectionClosed) (cleanup st).

(** The callback of [setTimeout]. *)
Definition onTimeout (st : State J) : State J :=
  settle (Rejected HandshakeTimedOut) (cleanup st).

Inductive SocketEvent :=
| Data (chunk : Buffer)
| Error (e : string)
| End.

(** The socket calls the listeners that are still registered. *)
Definition handle (st : State J) (ev : SocketEvent) : State J :=
  match ev with
  | Data chunk => if dataListener st then handleData chunk st else st
  | Error e => if errorListener st then handleError e st else st
  | End => if endListener st then handleEnd st else st
  end.

(** A cleared timer does not fire. *)
Definition fireTimer (st : State J) : State J :=
  if timeoutHandle st then onTimeout st else st.

(** The delay passed to [setTimeout], in milliseconds. *)
Definition timeoutDelay : Z := 30000.

(** The state once the request is written, the timer set and the
    listeners registered.  The request has 45 bytes, so its length
    fits the field and the frame exists. *)
Definition start : State J :=
  mkState [] true true true true Pending
    match encode (bytes_of_string requestJSON) with
    | Some message => [message]
    | None => []
    end.

(** The socket events of a run, each with the time in milliseconds
    since the timer was set, in the order they happen.  The timer
    fires before the first event at or after its delay, and at the
    latest when the events are over. *)
Fixpoint play (st : State J) (history : list (Z * SocketEvent)) : State J :=
  match history with
  | [] => fireTimer st
  | (time, ev) :: rest =>
      if (time <? timeoutDelay)%Z then play (handle st ev) rest
      else play (handle (fireTimer st) ev) rest
  end.

(** The chunks of a response delivered in order, before the timer. *)
Definition receive (st : State J) (chunks : list Buffer) : State J :=
  fold_left (fun s c => handle s (Data c)) chunks st.

End Handlers.

End Handshake.

(** ** The choice of the utun unit (TunDevice::Open, tuntap.cc)

    The Darwin branch of [Open] between the control socket and the
    query of the interface name: the unit read off the requested name,
    and otherwise the scan for the first unit that is free. *)

(** What [connect(2)] on a unit gives: success, or a failure with its
    [errno]. *)
Inductive ConnectResult :=
| ConnectOk
| ConnectErrno (errno : Z).

Inductive UnitChoice :=
| UnitFound (unit : Z)
| UnitError (message : string).

(** The value of a C++ [int]: 32 bits in two's complement.  The sum
    of two [int]s that leaves the range wraps around on the compilers
    the addon is built with. *)
Definition INT_MAX : Z := 2147483647.

Definition int32 (z : Z) : Z := ((z + 2147483648) mod 4294967296 - 2147483648)%Z.

(** [utun_unit], an [int]: for a name that starts with [utun], one
    more than the number [std::stoi] reads after it, and zero when
    [stoi] throws or the name is of another form.  [stoi] is the
    library function, with [None] for its exceptions (no number to
    read, or a number that is no [int]). *)
Definition utunUnit (stoi : string -> option Z) (name : string) : Z :=
  if negb (String.eqb name "") && String.prefix "utun" name then
    match stoi (String.substring 4 (String.length name - 4) name) with
    | Some n => int32 (n + 1)
    | None => 0%Z
    end
  else 0%Z.

(** [for (sc.sc_unit = 1; sc.sc_unit < 255; sc.sc_unit++)] with the
    test of [sc.sc_unit >= 255] after it.  [EBUSY] comes from the
    system headers. *)
Fixpoint scanUnits (fuel : nat) (EBUSY : Z) (connect : Z -> ConnectResult) (unit : Z)
    : UnitChoice :=
  match fuel with
  | O => UnitError "Could not find an available utun device"
  | S fuel' =>
      if (unit <? 255)%Z then
        match connect unit with
        | ConnectOk => UnitFound unit
        | ConnectErrno e =>
            if negb (e =? EBUSY)%Z
            then UnitError "Failed to connect to utun control socket"
            else scanUnits fuel' EBUSY connect (unit + 1)
        end
      else UnitError "Could not find an available utun device"
  end.

Definition chooseUnit (stoi : string -> option Z) (EBUSY : Z)
    (connect : Z -> ConnectResult) (name : string) : UnitChoice :=
  let utun_unit := utunUnit stoi name in
  if (0 <? utun_unit)%Z then
    match connect utun_unit with
    | ConnectOk => UnitFound utun_unit
    | ConnectErrno _ =>
        UnitError "Failed to connect to utun control socket with specified unit"
    end
  else scanUnits 255 EBUSY connect 1.

(** ** The handle that setupInterface creates (tunnel.ts)

    The [TunTap] object that [setupInterface] builds, as the call
    leaves it: open when the set-up went through, and closed by the
    [catch] block otherwise. *)
Definition setupInterfaceHandle (p : Platform) (k : AcquireOutcome)
    (execOk : string -> bool) (info : TunnelInfo) : TunTap.t :=
  let (t, r) := TunTap.open k (TunTap.create "") in
  match r with
  | Returns (VBoolean true) =>
      match TunTap.configure p execOk (address info) (mtu info) t with
      | (_, TunTap.Fulfilled) =>
          match TunTap.addRoute p execOk (serverAddress info ++ "/128")%string t with
          | (_, TunTap.Fulfilled) => t
          | _ => fst (TunTap.close t)
          end
      | _ => fst (TunTap.close t)
      end
  | _ => fst (TunTap.close t)
  end.

(** ** connectToTunnelLockdown (tunnel.ts) *)

Inductive ConnectOutcome :=
| TunnelConnected (Address : string) (RsdPort : option Z) (manager : TunnelManager)
| ConnectRejected (message : string) (manager : TunnelManager) (socketEnded : bool).

(** [connectToTunnelLockdown(secureServiceSocket)], given how the
    handshake settled and what the system answers to the set-up: the
    outcome and the effects of the manager.  A handshake that never
    settles leaves the call waiting ([None]).  The response is taken
    to have the fields of [TunnelInfo]. *)
Definition connectToTunnelLockdown (p : Platform) (k : AcquireOutcome)
    (execOk : string -> bool) (handshake : Handshake.Completion TunnelInfo)
    (secureServiceSocket : Socket) : option (ConnectOutcome * list Effect) :=
  let tunnelManager := newTunnelManager in
  match handshake with
  | Handshake.Pending => None
  | Handshake.Rejected f =>
      let '(m', _, effects) := stop tunnelManager in
      Some (ConnectRejected (Handshake.message_of f) m'
              (negb (destroyed secureServiceSocket)), effects)
  | Handshake.Resolved tunnelInfo =>
      match setupInterface p k execOk tunnelInfo tunnelManager with
      | (m1, _, TunTap.Fulfilled) =>
          Some (TunnelConnected (serverAddress tunnelInfo) (serverRSDPort tunnelInfo)
                  (startForwarding secureServiceSocket m1), [])
      | (m1, _, TunTap.RejectedWith e) =>
          let '(m', _, effects) := stop m1 in
          Some (ConnectRejected e m' (negb (destroyed secureServiceSocket)), effects)
      end
  end.

Definition isSocketDestroy (e : Effect) : bool :=
  match e with
  | SocketDestroy => true
  | _ => false
  end.

(** The [closer] of a connection: [stop()], then [end()] on the socket
    unless it is destroyed.  The socket is the object that the manager
    holds as [deviceConn], so a [destroy()] inside [stop] shows in its
    [destroyed] flag.  The result is the manager, the socket, whether
    [end()] was called, and the effects. *)
Definition closer (m : TunnelManager) (secureServiceSocket : Socket)
    : TunnelManager * Socket * bool * list Effect :=
  let '(m', _, effects) := stop m in
  let socket' :=
    if existsb isSocketDestroy effects then mkSocket true else secureServiceSocket in
  (m', socket', negb (destroyed socket'), effects).

(** ** Sequences of operations *)

(** The calls that open and close a handle. *)
Inductive HandleOp :=
| OpOpen (k : AcquireOutcome)
| OpClose.

Definition applyHandleOp (h : TunTap.t) (op : HandleOp) : TunTap.t :=
  match op with
  | OpOpen k => fst (TunTap.open k h)
  | OpClose => fst (TunTap.close h)
  end.

Definition applyRevisedOp (h : TunTapRevised.t) (op : HandleOp) : TunTapRevised.t :=
  match op with
  | OpOpen k => fst (TunTapRevised.open k h)
  | OpClose => fst (TunTapRevised.close h)
  end.

(** What happens to one packet stream: its iterator is asked for the
    next record, or its private consumer is handed a packet. *)
Inductive StreamOp :=
| CallNext
| HandPacket (p : PacketData).

Definition streamStep (sid : nat) (st : TunnelManager * PacketStream) (op : StreamOp)
    : TunnelManager * PacketStream :=
  match op with
  | CallNext => next sid (fst st) (snd st)
  | HandPacket p => (fst st, stream_onPacket (snd st) p)
  end.

(** ** Notions used by the statements *)

(** The version nibble of a header, [(header[0] >> 4) & 0x0F]. *)
Definition versionOf (b : Buffer) : Z := Z.land (Z.shiftr (byteAt b 0) 4) 15.

(** An IPv6 datagram with a valid header: the fixed header is there,
    the version is 6 and the payload length field is the size of what
    follows the header. *)
Definition validDatagram (d : Buffer) : Prop :=
  40 <= length d /\
  versionOf d = 6%Z /\
  readUInt16BE d 4 = Z.of_nat (length d - 40).

Definition validDatagramb (d : Buffer) : bool :=
  (40 <=? length d) && (versionOf d =? 6)%Z &&
  (readUInt16BE d 4 =? Z.of_nat (length d - 40))%Z.

(** What one iteration of the loop does with the packet [d] it has cut
    out of the buffer. *)
Definition datagramEffects (m : TunnelManager) (t : TunTap.t) (d : Buffer) : list Effect :=
  forwardPacket m t d (byteAt d 6)
    (formatIPv6Address (slice d 8 24)) (formatIPv6Address (slice d 24 40)).


(** The eight 16-bit groups of a 16-byte address, big-endian. *)
Definition groupsOf (a : Buffer) : list Z :=
  map (readUInt16BE a) [0; 2; 4; 6; 8; 10; 12; 14].

Definition isLowerHex (c : ascii) : bool :=
  existsb (Ascii.eqb c) hexDigits.

Fixpoint allChars (f : ascii -> bool) (s : string) : bool :=
  match s with
  | EmptyString => true
  | String c r => f c && allChars f r
  end.

(** A group as it is printed: one to four lowercase hexadecimal
    digits, with a leading zero only when the group is zero itself. *)
Definition plainGroup (s : string) : bool :=
  match s with
  | EmptyString => false
  | String c r =>
      allChars isLowerHex s && (String.length s <=? 4) &&
      (negb (Ascii.eqb c "0"%char) || String.eqb s "0")
  end.




(** The text of an address in the words of the specification: the
    eight groups in hexadecimal, joined by colons. *)
Definition ipv6Text (a : Buffer) : string :=
  String.concat ":" (map toString16 (groupsOf a)).

(** The records of a trace, whether sent as a ['data'] event or handed
    to a consumer. *)
Definition recordsOf (tr : list Effect) : list PacketData :=
  flat_map (fun e => match e with
                     | EmitData p => [p]
                     | OnPacket _ p => [p]
                     | _ => []
                     end) tr.

(** The events that call [stop()]: the call itself and the ['close']
    listener of the device connection. *)
Definition isStop (e : Event) : bool :=
  match e with
  | EvStop | EvSocketClose => true
  | _ => false
  end.

Definition countStops (es : list Event) : nat := length (filter isStop es).

(** The part of a manager that [stop] is about. *)
Definition lifecycle (m : TunnelManager) : option Promise * nat * bool :=
  (cleanupPromise m, performStopRuns m, cancelled m).

(** Before the first [stop] nothing has run; from it on the one
    cleanup has run, its completion is cached and the flag is set. *)
Definition singleShot (m : TunnelManager) : Prop :=
  lifecycle m = (None, 0, false) \/
  lifecycle m = (Some (CleanupCompletion 1), 1, true).

(** The frame in the words of the specification: the eight bytes of
    the magic, the length of the payload as a big-endian 16-bit
    integer, the payload. *)
Definition frameOf (body : Buffer) : Buffer :=
  Handshake.magic ++
  [byte_of_Z (Z.of_nat (length body) / 256); byte_of_Z (Z.of_nat (length body) mod 256)] ++
  body.

(** A handshake that has failed with [f] and has taken its listeners
    and its timer away. *)
Definition failedWith {J : Type} (f : Handshake.Failure) (st : Handshake.State J) : Prop :=
  Handshake.completion st = Handshake.Rejected f /\
  Handshake.dataListener st = false /\
  Handshake.errorListener st = false /\
  Handshake.endListener st = false /\
  Handshake.timeoutHandle st = false.

(** The socket events of a history, without their times. *)
Definition eventsOf (history : list (Z * Handshake.SocketEvent)) : list Handshake.SocketEvent :=
  map snd history.

(** A handshake is pending, or it has taken its listeners and its
    timer away. *)
Definition detachedOnceSettled {J : Type} (st : Handshake.State J) : Prop :=
  Handshake.completion st = Handshake.Pending \/
  (Handshake.dataListener st = false /\ Handshake.errorListener st = false /\
   Handshake.endListener st = false /\ Handshake.timeoutHandle st = false).

(** The version nibble of a byte, as the loop reads it off the first
    byte of a header. *)
Definition nibble (b : byte) : Z := Z.land (Z.shiftr (u8 b) 4) 15.

(** The number of bytes handed to the interface in a trace. *)
Definition writtenBytes (tr : list Effect) : nat :=
  list_sum (map (@length byte) (interfaceWrites tr)).

(** No interface to write to: the manager has none, or the one it has
    is not open. *)
Definition interfaceUnavailable (m : TunnelManager) : Prop :=
  tun m = None \/ exists t, tun m = Some t /\ TunTap.writeThrows t = true.

(** The packets handed to a stream in a sequence of operations, and
    the number of calls of [next()] in it. *)
Definition handedPackets (ops : list StreamOp) : list PacketData :=
  flat_map (fun op => match op with HandPacket p => [p] | CallNext => [] end) ops.

Definition nextCalls (ops : list StreamOp) : nat :=
  length (filter (fun op => match op with CallNext => true | HandPacket _ => false end) ops).

(** What holds of a packet stream of a manager that is not cancelled,
    after [calls] calls of [next()] and the packets [handed] to it:
    the packets are yielded or queued, in their order; a generator
    that is suspended has answered every call, and one that waits has
    nothing queued and owes an answer to the calls it has not
    answered. *)
Definition streamInvariant (st : TunnelManager * PacketStream)
    (calls : nat) (handed : list PacketData) : Prop :=
  cancelled (fst st) = false /\
  yielded (snd st) ++ queue (snd st) = handed /\
  match phase (snd st) with
  | SuspendedStart | SuspendedYield =>
      resolver (snd st) = false /\ pendingNext (snd st) = 0 /\
      length (yielded (snd st)) = calls
  | AwaitingPacket =>
      resolver (snd st) = true /\ queue (snd st) = [] /\
      calls = length (yielded (snd st)) + S (pendingNext (snd st))
  | Completed => False
  end.

Definition isTunClose (e : Effect) : bool :=
  match e with
  | TunClose => true
  | _ => false
  end.

(** The effects of forwarding, as opposed to those of the cleanup. *)
Definition isTraffic (e : Effect) : bool :=
  match e with
  | TunClose | SocketDestroy | ClearInterval => false
  | _ => true
  end.

Definition occurrences (f : Effect -> bool) (tr : list Effect) : nat :=
  length (filter f tr).

(** A manager that [stop] has been called on. *)
Definition stopped (m : TunnelManager) : Prop :=
  cancelled m = true /\ cleanupPromise m <> None.

(** The number of calls of [onPacket] on a consumer in a trace. *)
Definition callsOf (c : Consumer) (tr : list Effect) : nat :=
  length (filter (fun e => match e with
                           | OnPacket c' _ => Consumer_eqb c c'
                           | _ => false
                           end) tr).

(** The flag of a handle and the flag of its native device say the
    same, and a handle that is not open holds no descriptor. *)
Definition handleConsistent (h : TunTap.t) : Prop :=
  TunTap.isOpen h = TunDevice.is_open (TunTap.device h) /\
  (TunTap.isOpen h = false -> TunDevice.fd (TunTap.device h) = (-1)%Z).

Definition revisedConsistent (h : TunTapRevised.t) : Prop :=
  TunTapRevised.isOpen h = TunDevice.is_open (TunTapRevised.device h) /\
  (TunTapRevised.isClosed h = true -> TunTapRevised.isOpen h = false).

(** The records that a packet stream holds: those it has yielded and
    those in its queue. *)
Definition held (s : PacketStream) : list PacketData := yielded s ++ queue s.

(** The cleanup in the words of the specification: stop the egress
    poller, destroy the stream socket if it is not destroyed already,
    close the interface. *)
Definition cleanupSequence (m : TunnelManager) : list Effect :=
  (if readInterval m then [ClearInterval] else []) ++
  match deviceConn m with
  | Some s => if destroyed s then [] else [SocketDestroy]
  | None => []
  end ++
  match tun m with
  | Some t => if TunTap.isOpen t then [TunClose] else []
  | None => []
  end.

(** A manager after the cleanup: cancelled, without poller, buffer,
    consumers, listeners and interface, out of the registry, and with
    no device connection or a destroyed one. *)
Definition cleanedUp (m : TunnelManager) : Prop :=
  cancelled m = true /\ readInterval m = false /\ buffer m = [] /\
  packetConsumers m = [] /\ dataListeners m = [] /\ tun m = None /\
  registered m = false /\
  (deviceConn m = None \/ deviceConn m = Some (mkSocket true)).

(** The closes of an interface that an event makes outside the
    cleanup: those of a set-up that fails. *)
Definition setUpCloses (e : Event) : list Effect :=
  match e with
  | EvSetupInterface p k execOk info => setupInterfaceEffects p k execOk info
  | _ => []
  end.

Definition isClearInterval (e : Effect) : bool :=
  match e with
  | ClearInterval => true
  | _ => false
  end.

(** ** Sample values *)

Definition openTun : TunTap.t := TunTap.mk (TunDevice.mk 5 "utun4" true) true.

Definition forwardingManager : TunnelManager :=
  addPacketConsumer (PushConsumer 0)
    (startForwarding (mkSocket false) (with_tun newTunnelManager (Some openTun))).

Definition address_fd00_1 : Buffer := [xfd; x00] ++ repeat x00 13 ++ [x01].
Definition address_fd00_2 : Buffer := [xfd; x00] ++ repeat x00 13 ++ [x02].

Definition ipv6Header (payloadLength nextHeader : Z) : Buffer :=
  [x60; x00; x00; x00; byte_of_Z (payloadLength / 256); byte_of_Z payloadLength;
   byte_of_Z nextHeader; x40] ++ address_fd00_2 ++ address_fd00_1.

(** The 48-byte UDP packet of the second scenario of the specification
    and the short TCP packet of the third. *)
Definition udpDatagram : Buffer :=
  ipv6Header 8 17 ++ [x04; xd2; x16; x2e; x00; x08; x00; x00].

Definition tcpShortDatagram : Buffer := ipv6Header 15 6 ++ repeat x00 15.

Definition sampleDatagrams : list Buffer := [udpDatagram; tcpShortDatagram].

Fixpoint chunksOf (fuel n : nat) (b : Buffer) : list Buffer :=
  match fuel, b with
  | O, _ | _, [] => []
  | S fuel', _ => firstn n b :: chunksOf fuel' n (skipn n b)
  end.

Definition sampleChunks : list Buffer :=
  chunksOf 200 12 (concat sampleDatagrams).

Definition sampleInfo : TunnelInfo := mkTunnelInfo "fd00::2" 1500 "fd00::1" None.

(** A tunnel that is set up and forwarding. *)
Definition sampleSetup : list Event :=
  [EvSetupInterface Linux (Acquired 5 "tun0") (fun _ => true) sampleInfo;
   EvStartForwarding (mkSocket false)].

(** A history with three calls of [stop], two of them after the
    cleanup. *)
Definition sampleHistory : list Event :=
  sampleSetup ++ [EvAddPacketConsumer 0; EvData udpDatagram; EvStop;
                  EvData udpDatagram; EvSocketClose; EvStop].

(** A consumer opens a packet stream and asks for the first record
    while none is queued; then the tunnel is stopped. *)
Definition blockedWorld : World :=
  run newWorld (sampleSetup ++ [EvGetPacketStream; EvNext 0; EvStop]).

(** A handle that was opened, then closed, and one that is open. *)
Definition openedHandle : TunTap.t :=
  fst (TunTap.open (Acquired 5 "tun0") (TunTap.create "")).

Definition closedHandle : TunTap.t := fst (TunTap.close openedHandle).

Definition darwinDevice : TunDevice.t := TunDevice.mk 5 "utun4" true.

(** A JSON library for the values that are natural numbers, written
    in decimal. *)
Definition numberJSON : Handshake.JSON nat :=
  {| Handshake.parse :=
       fun b => option_map Nat.of_uint (NilZero.uint_of_string (string_of_list_byte b));
     Handshake.stringify :=
       fun n => list_byte_of_string (NilZero.string_of_uint (Nat.to_uint n)) |}.

(** The frame of the number 1500, cut into chunks of three bytes. *)
Definition sampleFrameChunks : list Buffer :=
  chunksOf 50 3 (frameOf (Handshake.stringify (JSON := numberJSON) 1500)).

(** A response with a wrong magic, and one whose payload is no JSON
    number. *)
Definition badMagicChunk : Buffer := bytes_of_string "XDTunnel" ++ [x00; x01; x31].
Definition badJSONChunk : Buffer := bytes_of_string "CDTunnel" ++ [x00; x01; x7b].

(** A handle that is not open, in a manager. *)
Definition closedTun : TunTap.t := TunTap.mk (TunDevice.mk (-1) "utun4" false) false.

(** Three bytes that are no start of an IPv6 header. *)
Definition sampleJunk : Buffer := [x45; x00; x12].

(** A packet stream is opened and the tunnel is stopped before the
    consumer asks for a record. *)
Definition stoppedWorld : World :=
  run newWorld (sampleSetup ++ [EvGetPacketStream; EvStop]).

Definition samplePacket : PacketData := mkPacketData UDP "fd00::2" "fd00::1" 1234 5678 [].

(** A stream is opened and asked for a record, and then a datagram
    arrives. *)
Definition streamingHistory : list Event :=
  sampleSetup ++ [EvGetPacketStream; EvNext 0; EvData udpDatagram].


(** A set-up that fails at its first command, one that goes through,
    and a stop. *)
Definition failedSetupHistory : list Event :=
  [EvSetupInterface Linux (Acquired 5 "tun0") (fun _ => false) sampleInfo;
   EvSetupInterface Linux (Acquired 6 "tun1") (fun _ => true) sampleInfo;
   EvStartForwarding (mkSocket false);
   EvStop].

(** * Properties *)

(** ** Buffers *)

Lemma u8_range (b : byte) : (0 <= u8 b < 256)%Z.
Proof.
  unfold u8. pose proof (Byte.to_N_bounded b). lia.
Qed.

Lemma byteAt_range (b : Buffer) (i : nat) : (0 <= byteAt b i < 256)%Z.
Proof. apply u8_range. Qed.

Lemma readUInt16BE_range (b : Buffer) (off : nat) : (0 <= readUInt16BE b off < 65536)%Z.
Proof.
  unfold readUInt16BE.
  pose proof (byteAt_range b off). pose proof (byteAt_range b (off + 1)). lia.
Qed.

Lemma byteAt_firstn (n i : nat) (b : Buffer) :
  i < n -> byteAt (firstn n b) i = byteAt b i.
Proof.
  intros Hi. unfold byteAt. rewrite nth_firstn.
  destruct (Nat.ltb_spec i n); [reflexivity | lia].
Qed.

Lemma byteAt_app_l (b c : Buffer) (i : nat) :
  i < length b -> byteAt (b ++ c) i = byteAt b i.
Proof.
  intros Hi. unfold byteAt. now rewrite app_nth1.
Qed.

Lemma readUInt16BE_firstn (n off : nat) (b : Buffer) :
  off + 1 < n -> readUInt16BE (firstn n b) off = readUInt16BE b off.
Proof.
  intros H. unfold readUInt16BE. rewrite !byteAt_firstn by lia. reflexivity.
Qed.

Lemma readUInt16BE_app_l (b c : Buffer) (off : nat) :
  off + 1 < length b -> readUInt16BE (b ++ c) off = readUInt16BE b off.
Proof.
  intros H. unfold readUInt16BE. rewrite !byteAt_app_l by lia. reflexivity.
Qed.

Lemma skipn_app_exact (pre x : Buffer) : skipn (length pre) (pre ++ x) = x.
Proof.
  rewrite skipn_app, Nat.sub_diag, skipn_all. reflexivity.
Qed.

Lemma slice_at (pre x : Buffer) (n : nat) :
  slice (pre ++ x) (length pre) (length pre + n) = firstn n x.
Proof.
  unfold slice. rewrite skipn_app_exact. f_equal. lia.
Qed.

Lemma firstn_app_exact (d rest : Buffer) : firstn (length d) (d ++ rest) = d.
Proof.
  rewrite firstn_app, Nat.sub_diag, firstn_all. simpl. apply app_nil_r.
Qed.

Lemma slice_length (b : Buffer) (s e : nat) :
  e <= length b -> length (slice b s e) = e - s.
Proof.
  intros H. unfold slice. rewrite length_firstn, length_skipn. lia.
Qed.

Lemma validDatagramb_spec (d : Buffer) : validDatagramb d = true <-> validDatagram d.
Proof.
  unfold validDatagramb, validDatagram.
  rewrite !andb_true_iff, Nat.leb_le, !Z.eqb_eq. tauto.
Qed.

(** ** The demultiplexer loop *)

Lemma processLoop_S (fuel : nat) (m : TunnelManager) (offset : nat) :
  processLoop (S fuel) m offset =
  if offset + 40 <=? length (buffer m) then
    let header := slice (buffer m) offset (offset + 40) in
    let version := Z.land (Z.shiftr (byteAt header 0) 4) 15 in
    if negb (version =? 6)%Z then processLoop fuel m (offset + 1)
    else
      let payloadLength := Z.to_nat (readUInt16BE header 4) in
      if length (buffer m) <? offset + 40 + payloadLength then (offset, [])
      else
        let packet := slice (buffer m) offset (offset + 40 + payloadLength) in
        let src := formatIPv6Address (slice packet 8 24) in
        let dst := formatIPv6Address (slice packet 24 40) in
        let nextHeader := byteAt header 6 in
        match tun m with
        | None => (offset, [LogError "TUN device is null during packet processing"])
        | Some t =>
            let here := forwardPacket m t packet nextHeader src dst in
            let (offset', later) := processLoop fuel m (offset + 40 + payloadLength) in
            (offset', here ++ later)
        end
  else (offset, []).
Proof. reflexivity. Qed.

Section Demux.

Variable m : TunnelManager.
Variable t : TunTap.t.
Hypothesis tun_set : tun m = Some t.

(** The header of a datagram that starts at the offset. *)
Lemma header_at (pre d rest : Buffer) :
  40 <= length d ->
  slice (pre ++ d ++ rest) (length pre) (length pre + 40) = firstn 40 d.
Proof.
  intros Hd. rewrite slice_at, firstn_app.
  replace (40 - length d) with 0 by lia.
  rewrite firstn_O. apply app_nil_r.
Qed.

(** A complete datagram at the offset is cut out whole and the loop
    goes on right after it. *)
Lemma processLoop_datagram (fuel : nat) (pre d rest : Buffer) :
  buffer m = pre ++ d ++ rest ->
  validDatagram d ->
  processLoop (S fuel) m (length pre) =
  (fst (processLoop fuel m (length pre + length d)),
   datagramEffects m t d ++ snd (processLoop fuel m (length pre + length d))).
Proof.
  intros Hb (Hlen & Hver & Hpl).
  rewrite processLoop_S. cbv zeta.
  assert (Hc1 : (length pre + 40 <=? length (buffer m)) = true).
  { apply Nat.leb_le. rewrite Hb, !length_app. lia. }
  rewrite Hc1.
  assert (Hh : slice (buffer m) (length pre) (length pre + 40) = firstn 40 d).
  { rewrite Hb. apply header_at. assumption. }
  rewrite Hh. rewrite byteAt_firstn by lia.
  fold (versionOf d). rewrite Hver. simpl negb. cbv iota.
  rewrite readUInt16BE_firstn by lia. rewrite Hpl, Nat2Z.id.
  replace (length pre + 40 + (length d - 40)) with (length pre + length d) by lia.
  assert (Hc2 : (length (buffer m) <? length pre + length d) = false).
  { apply Nat.ltb_ge. rewrite Hb, !length_app. lia. }
  rewrite Hc2.
  assert (Hp : slice (buffer m) (length pre) (length pre + length d) = d).
  { rewrite Hb, slice_at. apply firstn_app_exact. }
  rewrite Hp. rewrite byteAt_firstn by lia. rewrite tun_set.
  destruct (processLoop fuel m (length pre + length d)) as [o l].
  reflexivity.
Qed.

(** A partial datagram at the offset stops the loop. *)
Lemma processLoop_partial (fuel : nat) (pre p s : Buffer) :
  buffer m = pre ++ p ->
  validDatagram (p ++ s) ->
  s <> [] ->
  processLoop fuel m (length pre) = (length pre, []).
Proof.
  intros Hb (Hlen & Hver & Hpl) Hs.
  destruct fuel as [|fuel]; [reflexivity|].
  rewrite processLoop_S. cbv zeta.
  destruct (Nat.leb_spec (length pre + 40) (length (buffer m))) as [Hge|Hlt];
    [|reflexivity].
  rewrite Hb, length_app in Hge.
  assert (Hh : slice (buffer m) (length pre) (length pre + 40) = firstn 40 (p ++ s)).
  { rewrite Hb, slice_at, firstn_app.
    replace (40 - length p) with 0 by lia.
    rewrite firstn_O, app_nil_r. reflexivity. }
  rewrite Hh. rewrite byteAt_firstn by lia.
  fold (versionOf (p ++ s)). rewrite Hver. simpl negb. cbv iota.
  rewrite readUInt16BE_firstn by lia. rewrite Hpl, Nat2Z.id.
  assert (Hc2 : (length (buffer m) <? length pre + 40 + (length (p ++ s) - 40)) = true).
  { apply Nat.ltb_lt. rewrite Hb, !length_app.
    destruct s; [congruence | simpl; lia]. }
  rewrite Hc2. reflexivity.
Qed.

(** Nothing left at the offset stops the loop as well. *)
Lemma processLoop_end (fuel : nat) (pre : Buffer) :
  buffer m = pre ->
  processLoop fuel m (length pre) = (length pre, []).
Proof.
  intros Hb. destruct fuel as [|fuel]; [reflexivity|].
  rewrite processLoop_S.
  destruct (Nat.leb_spec (length pre + 40) (length (buffer m))) as [Hge|Hlt];
    [|reflexivity].
  rewrite Hb in Hge. lia.
Qed.

End Demux.

Lemma with_buffer_eta (m : TunnelManager) : with_buffer m (buffer m) = m.
Proof. destruct m. reflexivity. Qed.

Lemma datagramEffects_with_buffer (m : TunnelManager) (b : Buffer) (t : TunTap.t) (d : Buffer) :
  datagramEffects (with_buffer m b) t d = datagramEffects m t d.
Proof. reflexivity. Qed.

Lemma validDatagram_nonempty (d : Buffer) : validDatagram d -> d <> [].
Proof.
  intros (Hlen & _) ->. simpl in Hlen. lia.
Qed.

Lemma concat_length_ge (ds : list Buffer) :
  Forall validDatagram ds -> length ds <= length (concat ds).
Proof.
  induction 1 as [|d ds Hd _ IH]; simpl; [lia|].
  rewrite length_app. destruct Hd as (Hlen & _). lia.
Qed.

(** A buffer that holds whole datagrams and then the beginning of one:
    the loop cuts out the whole ones and stops in front of the rest. *)
Lemma processLoop_datagrams (m : TunnelManager) (t : TunTap.t) (ds : list Buffer) :
  tun m = Some t ->
  Forall validDatagram ds ->
  forall (fuel : nat) (pre p : Buffer),
    length ds < fuel ->
    buffer m = pre ++ concat ds ++ p ->
    (p = [] \/ exists s, s <> [] /\ validDatagram (p ++ s)) ->
    processLoop fuel m (length pre) =
    (length pre + length (concat ds), flat_map (datagramEffects m t) ds).
Proof.
  intros Ht Hds. induction Hds as [|d ds Hd Hds IH]; intros fuel pre p Hfuel Hb Hp.
  - simpl in *. rewrite Nat.add_0_r.
    destruct Hp as [-> | (s & Hs & Hv)].
    + apply processLoop_end. now rewrite app_nil_r in Hb.
    + eapply processLoop_partial; eauto.
  - destruct fuel as [|fuel]; [simpl in Hfuel; lia|].
    simpl in Hb. rewrite <- app_assoc in Hb.
    rewrite (processLoop_datagram m t Ht fuel pre d (concat ds ++ p) Hb Hd).
    assert (Hb' : buffer m = (pre ++ d) ++ concat ds ++ p) by now rewrite <- app_assoc.
    specialize (IH fuel (pre ++ d) p ltac:(simpl in Hfuel; lia) Hb' Hp).
    rewrite length_app in IH. rewrite IH. simpl.
    rewrite length_app. f_equal. lia.
Qed.

(** The same for [processBuffer]: the whole datagrams are handled and
    the beginning of the next one is kept. *)
Lemma processBuffer_datagrams (m : TunnelManager) (t : TunTap.t) (ds : list Buffer) (p : Buffer) :
  tun m = Some t ->
  Forall validDatagram ds ->
  buffer m = concat ds ++ p ->
  (p = [] \/ exists s, s <> [] /\ validDatagram (p ++ s)) ->
  processBuffer m = (with_buffer m p, flat_map (datagramEffects m t) ds).
Proof.
  intros Ht Hds Hb Hp. unfold processBuffer.
  assert (Hfuel : length ds < S (length (buffer m))).
  { pose proof (concat_length_ge ds Hds). rewrite Hb, length_app. lia. }
  pose proof (processLoop_datagrams m t ds Ht Hds _ [] p Hfuel Hb Hp) as Hloop.
  change (length (@nil byte)) with 0 in Hloop. rewrite Hloop, Nat.add_0_l.
  destruct (Nat.ltb_spec 0 (length (concat ds))) as [Hpos|Hzero].
  - f_equal. f_equal. unfold sliceFrom. rewrite Hb.
    apply skipn_app_exact.
  - f_equal. assert (Hnil : concat ds = []) by (apply length_zero_iff_nil; lia).
    rewrite Hnil in Hb. simpl in Hb. rewrite <- Hb. symmetry. apply with_buffer_eta.
Qed.

(** A prefix of a stream of datagrams is some whole datagrams followed
    by the beginning of the next one. *)
Lemma split_stream (ds : list Buffer) :
  forall x y : Buffer,
    x ++ y = concat ds ->
    exists (ds1 ds2 : list Buffer) (p : Buffer),
      ds = ds1 ++ ds2 /\ x = concat ds1 ++ p /\ p ++ y = concat ds2 /\
      (p = [] \/ exists d s rest, ds2 = d :: rest /\ d = p ++ s /\ s <> []).
Proof.
  induction ds as [|d ds IH]; intros x y Hxy.
  - simpl in Hxy. apply app_eq_nil in Hxy. destruct Hxy as [-> ->].
    exists [], [], []. simpl. repeat split; auto.
  - simpl in Hxy. apply app_eq_app in Hxy. destruct Hxy as (l & [[Hx Hc] | [Hd Hy]]).
    + destruct (IH l y (eq_sym Hc)) as (ds1 & ds2 & p & -> & -> & Hp & Hcase).
      exists (d :: ds1), ds2, p. simpl. rewrite <- app_assoc. repeat split; auto.
    + destruct l as [|b l].
      * rewrite app_nil_r in Hd. subst x. simpl in Hy. subst y.
        exists [d], ds, []. simpl. rewrite !app_nil_r. repeat split; auto.
      * exists [], (d :: ds), x. simpl. subst d y. rewrite <- app_assoc.
        repeat split; auto. right. exists (x ++ b :: l), (b :: l), ds.
        repeat split; auto. discriminate.
Qed.

Lemma interfaceWrites_app (a b : list Effect) :
  interfaceWrites (a ++ b) = interfaceWrites a ++ interfaceWrites b.
Proof. apply flat_map_app. Qed.

Lemma interfaceWrites_publish (m : TunnelManager) (pd : PacketData) :
  interfaceWrites (publish m pd) = [].
Proof.
  unfold publish. simpl. destruct (existsb _ _); [reflexivity|].
  induction (packetConsumers m); simpl; auto.
Qed.

(** An open interface gets each datagram exactly once. *)
Lemma interfaceWrites_datagram (m : TunnelManager) (t : TunTap.t) (d : Buffer) :
  TunTap.writeThrows t = false ->
  interfaceWrites (datagramEffects m t d) = [d].
Proof.
  intros Ht. unfold datagramEffects, forwardPacket. rewrite Ht.
  cbn [interfaceWrites flat_map app]. f_equal.
  repeat match goal with
         | |- context [if ?c then _ else _] => destruct c
         end; try reflexivity; apply interfaceWrites_publish.
Qed.

Lemma interfaceWrites_datagrams (m : TunnelManager) (t : TunTap.t) (ds : list Buffer) :
  TunTap.writeThrows t = false ->
  interfaceWrites (flat_map (datagramEffects m t) ds) = ds.
Proof.
  intros Ht. induction ds as [|d ds IH]; [reflexivity|].
  simpl. rewrite interfaceWrites_app, interfaceWrites_datagram, IH by assumption.
  reflexivity.
Qed.

(** Feeding the rest of a stream, from a buffer that holds the
    beginning of its next datagram. *)
Lemma feed_datagrams (t : TunTap.t) (chunks : list Buffer) :
  forall (m : TunnelManager) (ds : list Buffer),
    tun m = Some t ->
    cancelled m = false ->
    Forall validDatagram ds ->
    buffer m ++ concat chunks = concat ds ->
    (buffer m = [] \/ exists d s rest, ds = d :: rest /\ d = buffer m ++ s /\ s <> []) ->
    feed m chunks = (with_buffer m [], flat_map (datagramEffects m t) ds).
Proof.
  induction chunks as [|c chunks IH]; intros m ds Ht Hc Hds Hcat Hp.
  - simpl in Hcat. rewrite app_nil_r in Hcat. simpl.
    assert (Hnil : ds = []).
    { destruct Hp as [Hp | (d & s & rest & -> & Hd & Hs)].
      - rewrite Hp in Hcat. destruct Hds as [|d ds Hd _]; [reflexivity|].
        apply validDatagram_nonempty in Hd. simpl in Hcat.
        symmetry in Hcat. apply app_eq_nil in Hcat. tauto.
      - exfalso. simpl in Hcat. rewrite Hd, <- app_assoc in Hcat.
        rewrite <- (app_nil_r (buffer m)) in Hcat at 1.
        apply app_inv_head in Hcat. symmetry in Hcat.
        apply app_eq_nil in Hcat. tauto. }
    subst ds. simpl in *. rewrite <- Hcat. now rewrite with_buffer_eta.
  - simpl in Hcat. rewrite app_assoc in Hcat.
    destruct (split_stream ds _ _ Hcat) as (ds1 & ds2 & p & -> & Hx & Hrest & Hcase).
    apply Forall_app in Hds. destruct Hds as [Hds1 Hds2].
    assert (Hp' : p = [] \/ exists s, s <> [] /\ validDatagram (p ++ s)).
    { destruct Hcase as [-> | (d & s & rest & -> & -> & Hs)]; [now left|].
      right. exists s. split; [assumption|]. now inversion Hds2. }
    simpl. unfold onData. rewrite Hc.
    rewrite (processBuffer_datagrams (with_buffer m (buffer m ++ c)) t ds1 p Ht Hds1 Hx Hp').
    specialize (IH (with_buffer m p) ds2 Ht Hc Hds2 Hrest Hcase).
    change (with_buffer (with_buffer m (buffer m ++ c)) p) with (with_buffer m p).
    rewrite IH. rewrite flat_map_app. reflexivity.
Qed.

(** The fuel that [processBuffer] gives its loop is never used up: any
    amount above the distance to the end of the buffer gives the same
    result. *)
Lemma processLoop_fuel (m : TunnelManager) (fuel1 : nat) :
  forall (fuel2 offset : nat),
    length (buffer m) < offset + fuel1 ->
    length (buffer m) < offset + fuel2 ->
    processLoop fuel1 m offset = processLoop fuel2 m offset.
Proof.
  induction fuel1 as [|fuel1 IH]; intros fuel2 offset H1 H2.
  - destruct fuel2 as [|fuel2]; [reflexivity|].
    rewrite processLoop_S. simpl.
    destruct (Nat.leb_spec (offset + 40) (length (buffer m))); [lia | reflexivity].
  - destruct fuel2 as [|fuel2].
    + rewrite processLoop_S. simpl.
      destruct (Nat.leb_spec (offset + 40) (length (buffer m))); [lia | reflexivity].
    + rewrite !processLoop_S. cbv zeta.
      destruct (Nat.leb_spec (offset + 40) (length (buffer m))); [|reflexivity].
      destruct (negb _).
      * apply IH; lia.
      * destruct (Nat.ltb_spec (length (buffer m))
                   (offset + 40 + Z.to_nat (readUInt16BE (slice (buffer m) offset (offset + 40)) 4)));
          [reflexivity|].
        destruct (tun m); [|reflexivity].
        rewrite (IH fuel2); [reflexivity | lia | lia].
Qed.

(** ** C1: framing round-trip of the demultiplexer *)

(** C1.  Take any finite sequence of IPv6 datagrams with version 6 and
    a payload-length field equal to the size of the payload, and any
    way of cutting their concatenation into chunks.  On a manager that
    is not cancelled, whose buffer is empty and whose interface is
    open, appending the chunks in order and running [processBuffer]
    after each one writes exactly those datagrams to the interface, in
    that order, and leaves the buffer empty. *)
Theorem demux_framing_roundtrip
    (m : TunnelManager) (t : TunTap.t) (datagrams chunks : list Buffer) :
  tun m = Some t ->
  TunTap.writeThrows t = false ->
  cancelled m = false ->
  buffer m = [] ->
  Forall validDatagram datagrams ->
  concat chunks = concat datagrams ->
  interfaceWrites (snd (feed m chunks)) = datagrams /\
  buffer (fst (feed m chunks)) = [].
Proof.
  intros Ht Hw Hc Hb Hds Hcat.
  rewrite (feed_datagrams t chunks m datagrams Ht Hc Hds).
  - simpl. split; [now apply interfaceWrites_datagrams | reflexivity].
  - rewrite Hb. exact Hcat.
  - now left.
Qed.

Lemma demux_framing_roundtrip_witness :
  Forall validDatagram sampleDatagrams /\
  concat sampleChunks = concat sampleDatagrams /\
  interfaceWrites (snd (feed forwardingManager sampleChunks)) = sampleDatagrams /\
  buffer (fst (feed forwardingManager sampleChunks)) = [].
Proof.
  assert (Hv : Forall validDatagram sampleDatagrams).
  { repeat constructor; apply validDatagramb_spec; reflexivity. }
  split; [exact Hv|]. split; [reflexivity|].
  apply (demux_framing_roundtrip forwardingManager openTun sampleDatagrams sampleChunks);
    try reflexivity. exact Hv.
Defined.

(** ** C8: the records published for TCP and UDP *)


Lemma byteAt_skipn (b : Buffer) (n i : nat) : byteAt (skipn n b) i = byteAt b (n + i).
Proof. unfold byteAt. now rewrite nth_skipn. Qed.

Lemma readUInt16BE_skipn (b : Buffer) (n i : nat) :
  readUInt16BE (skipn n b) i = readUInt16BE b (n + i).
Proof.
  unfold readUInt16BE. rewrite !byteAt_skipn. now rewrite Nat.add_assoc.
Qed.





(** ** C10: the text of the addresses *)

Lemma recordsOf_app (a b : list Effect) : recordsOf (a ++ b) = recordsOf a ++ recordsOf b.
Proof. apply flat_map_app. Qed.

Lemma recordsOf_publish (m : TunnelManager) (pd r : PacketData) :
  In r (recordsOf (publish m pd)) -> r = pd.
Proof.
  unfold publish. simpl. intros [H | H]; [now symmetry|].
  destruct (existsb _ _); [destruct H|].
  induction (packetConsumers m) as [|c cs IH]; simpl in H; [destruct H|].
  destruct H as [H | H]; [now symmetry | now apply IH].
Qed.

(** A record that the [try] block publishes carries the two strings
    computed before it, and follows the write of the packet. *)
Lemma forwardPacket_records (m : TunnelManager) (t : TunTap.t) (packet : Buffer)
    (nextHeader : Z) (s d : string) (r : PacketData) :
  In r (recordsOf (forwardPacket m t packet nextHeader s d)) ->
  In (TunWrite packet) (forwardPacket m t packet nextHeader s d) /\ src r = s /\ dst r = d.
Proof.
  unfold forwardPacket. destruct (TunTap.writeThrows t); [intros []|].
  intros H. split; [now left|]. cbn [recordsOf flat_map app] in H.
  fold (recordsOf) in H. cbv zeta in H.
  repeat match type of H with
         | context [if ?c then _ else _] => destruct c
         end; try (now destruct H);
    apply recordsOf_publish in H; subst r; split; reflexivity.
Qed.

(** Every record of the loop belongs to a packet of at least 40 bytes
    that was written, and carries the texts of bytes 8 to 24 and 24 to
    40 of it. *)
Lemma processLoop_records (m : TunnelManager) (fuel : nat) :
  forall (offset : nat) (r : PacketData),
    In r (recordsOf (snd (processLoop fuel m offset))) ->
    exists packet,
      In (TunWrite packet) (snd (processLoop fuel m offset)) /\
      40 <= length packet /\
      src r = formatIPv6Address (slice packet 8 24) /\
      dst r = formatIPv6Address (slice packet 24 40).
Proof.
  induction fuel as [|fuel IH]; intros offset r; [intros []|].
  rewrite processLoop_S. cbv zeta.
  destruct (Nat.leb_spec (offset + 40) (length (buffer m))); [|intros []].
  destruct (negb _); [apply IH|].
  set (pl := Z.to_nat (readUInt16BE (slice (buffer m) offset (offset + 40)) 4)).
  destruct (Nat.ltb_spec (length (buffer m)) (offset + 40 + pl)); [intros []|].
  destruct (tun m) as [t|]; [|intros []].
  destruct (processLoop fuel m (offset + 40 + pl)) as [o later] eqn:Hlater.
  cbn [snd]. rewrite recordsOf_app. intros Hin. apply in_app_or in Hin.
  destruct Hin as [Hin | Hin].
  - apply forwardPacket_records in Hin. destruct Hin as (Hw & Hs & Hd).
    exists (slice (buffer m) offset (offset + 40 + pl)).
    split; [apply in_or_app; now left|].
    split; [rewrite slice_length by lia; lia|]. now split.
  - specialize (IH (offset + 40 + pl) r). rewrite Hlater in IH. cbn [snd] in IH.
    destruct (IH Hin) as (packet & Hw & Hrest).
    exists packet. split; [apply in_or_app; now right | exact Hrest].
Qed.

Lemma formatIPv6Address_16 (a : Buffer) :
  length a = 16 -> formatIPv6Address a = ipv6Text a.
Proof.
  intros Ha. unfold formatIPv6Address, ipv6Text, groupsOf.
  rewrite Ha. cbn [Nat.eqb negb]. rewrite map_map. reflexivity.
Qed.

Lemma toHex_last (fuel : nat) (n : Z) (acc : string) :
  (0 <= n < 16)%Z -> toHex (S fuel) n acc = String (hexDigit (n mod 16)) acc.
Proof.
  intros Hn. cbn [toHex]. rewrite Z.div_small by lia. reflexivity.
Qed.

Lemma toHex_more (fuel : nat) (n : Z) (acc : string) :
  (16 <= n)%Z ->
  toHex (S fuel) n acc = toHex fuel (n / 16) (String (hexDigit (n mod 16)) acc).
Proof.
  intros Hn. cbn [toHex].
  destruct (Z.eqb_spec (n / 16) 0) as [Hz|]; [|reflexivity].
  exfalso. revert Hz. Z.div_mod_to_equations. lia.
Qed.

Ltac each_digit d :=
  destruct d as [|d|d]; try lia;
  do 4 (try (destruct d as [d|d|]; try lia)); reflexivity.

Lemma hexDigit_lower (d : Z) : (0 <= d < 16)%Z -> isLowerHex (hexDigit d) = true.
Proof. intros Hd. each_digit d. Qed.

Lemma hexDigit_nonzero (d : Z) :
  (1 <= d < 16)%Z -> Ascii.eqb (hexDigit d) "0"%char = false.
Proof. intros Hd. each_digit d. Qed.

Lemma log2_fuel (g : Z) : (16 <= g)%Z -> 4 <= Z.to_nat (Z.log2 g).
Proof.
  intros Hg. pose proof (Z.log2_le_mono 16 g Hg) as Hl.
  change (Z.log2 16) with 4%Z in Hl. lia.
Qed.

Ltac plain_digits :=
  unfold plainGroup; cbn [allChars String.length];
  rewrite !hexDigit_lower by (apply Z.mod_pos_bound; lia);
  rewrite hexDigit_nonzero by (rewrite Z.mod_small; lia);
  reflexivity.

(** Every 16-bit value prints as a plain group: by the number of its
    digits. *)
Lemma toString16_plain (g : Z) :
  (0 <= g < 65536)%Z -> plainGroup (toString16 g) = true.
Proof.
  intros Hg. unfold toString16.
  destruct (Z.lt_ge_cases g 16) as [Hone | Hmore].
  - rewrite toHex_last by lia. rewrite Z.mod_small by lia.
    destruct (Z.eq_dec g 0) as [-> | Hnz]; [reflexivity|].
    unfold plainGroup. cbn [allChars String.length].
    rewrite hexDigit_lower, hexDigit_nonzero by lia. reflexivity.
  - pose proof (log2_fuel g Hmore) as Hfuel.
    destruct (Z.to_nat (Z.log2 g)) as [|[|[|fuel]]]; try lia.
    rewrite toHex_more by lia.
    assert (H1 : (1 <= g / 16 < 4096)%Z) by (Z.div_mod_to_equations; lia).
    destruct (Z.lt_ge_cases (g / 16) 16) as [Htwo | Hmore2].
    { rewrite toHex_last by lia. plain_digits. }
    rewrite toHex_more by lia.
    assert (H2 : (1 <= g / 16 / 16 < 256)%Z) by (Z.div_mod_to_equations; lia).
    destruct (Z.lt_ge_cases (g / 16 / 16) 16) as [Hthree | Hmore3].
    { rewrite toHex_last by lia. plain_digits. }
    rewrite toHex_more by lia.
    assert (H3 : (1 <= g / 16 / 16 / 16 < 16)%Z) by (Z.div_mod_to_equations; lia).
    rewrite toHex_last by lia. plain_digits.
Qed.

Lemma groupsOf_plain (a : Buffer) :
  Forall (fun g => plainGroup (toString16 g) = true) (groupsOf a).
Proof.
  unfold groupsOf. apply Forall_map, Forall_forall. intros i _.
  apply toString16_plain, readUInt16BE_range.
Qed.

(** The text of an address starts with a hexadecimal digit, which the
    sentinel does not. *)
Lemma ipv6Text_not_invalid (a : Buffer) : ipv6Text a <> invalid_address.
Proof.
  unfold ipv6Text, groupsOf. cbn [map String.concat].
  pose proof (toString16_plain (readUInt16BE a 0) (readUInt16BE_range a 0)) as Hp.
  destruct (toString16 (readUInt16BE a 0)) as [|c s]; [discriminate Hp|].
  cbn [plainGroup allChars] in Hp.
  apply andb_prop in Hp. destruct Hp as [Hp _].
  apply andb_prop in Hp. destruct Hp as [Hp _].
  apply andb_prop in Hp. destruct Hp as [Hc _].
  cbn [String.append]. unfold invalid_address. intros Heq.
  injection Heq as Hc' _. subst c. discriminate Hc.
Qed.

(** C10.  Every record that [processBuffer] publishes, whatever the
    manager and its buffer hold, belongs to a packet that was written
    to the interface; its [src] and [dst] are the texts of two 16-byte
    slices of that packet, bytes 8 to 24 and 24 to 40: the eight
    big-endian 16-bit groups in lowercase hexadecimal joined by colons,
    each group non-empty, without padding zeros, so with no group left
    out; and neither string is the sentinel ["invalid-address"]. *)
Theorem published_addresses_formatted (m : TunnelManager) (r : PacketData) :
  In r (recordsOf (snd (processBuffer m))) ->
  exists packet : Buffer,
    In (TunWrite packet) (snd (processBuffer m)) /\
    length (slice packet 8 24) = 16 /\
    length (slice packet 24 40) = 16 /\
    src r = ipv6Text (slice packet 8 24) /\
    dst r = ipv6Text (slice packet 24 40) /\
    length (groupsOf (slice packet 8 24)) = 8 /\
    length (groupsOf (slice packet 24 40)) = 8 /\
    Forall (fun g => plainGroup (toString16 g) = true) (groupsOf (slice packet 8 24)) /\
    Forall (fun g => plainGroup (toString16 g) = true) (groupsOf (slice packet 24 40)) /\
    src r <> invalid_address /\
    dst r <> invalid_address.
Proof.
  unfold processBuffer.
  destruct (processLoop (S (length (buffer m))) m 0) as [offset effects] eqn:Hloop.
  cbn [snd]. intros Hin.
  pose proof (processLoop_records m (S (length (buffer m))) 0 r) as Hrec.
  rewrite Hloop in Hrec. cbn [snd] in Hrec.
  destruct (Hrec Hin) as (packet & Hw & Hlen & Hs & Hd).
  assert (Ha : length (slice packet 8 24) = 16) by (rewrite slice_length; lia).
  assert (Hb : length (slice packet 24 40) = 16) by (rewrite slice_length; lia).
  rewrite formatIPv6Address_16 in Hs, Hd by assumption.
  exists packet. repeat split; try assumption; try apply groupsOf_plain.
  - rewrite Hs. apply ipv6Text_not_invalid.
  - rewrite Hd. apply ipv6Text_not_invalid.
Qed.

Lemma published_addresses_formatted_witness :
  exists packet : Buffer,
    In (TunWrite packet) (snd (processBuffer (with_buffer forwardingManager udpDatagram))) /\
    length (slice packet 8 24) = 16 /\
    length (slice packet 24 40) = 16 /\
    "fd00:0:0:0:0:0:0:2" = ipv6Text (slice packet 8 24) /\
    "fd00:0:0:0:0:0:0:1" = ipv6Text (slice packet 24 40) /\
    length (groupsOf (slice packet 8 24)) = 8 /\
    length (groupsOf (slice packet 24 40)) = 8 /\
    Forall (fun g => plainGroup (toString16 g) = true) (groupsOf (slice packet 8 24)) /\
    Forall (fun g => plainGroup (toString16 g) = true) (groupsOf (slice packet 24 40)) /\
    "fd00:0:0:0:0:0:0:2" <> invalid_address /\
    "fd00:0:0:0:0:0:0:1" <> invalid_address.
Proof.
  apply (published_addresses_formatted (with_buffer forwardingManager udpDatagram)
           (mkPacketData UDP "fd00:0:0:0:0:0:0:2" "fd00:0:0:0:0:0:0:1" 1234 5678 [])).
  vm_compute. left. reflexivity.
Defined.

(** ** C9: stop runs the cleanup once *)

Lemma processBuffer_lifecycle (m : TunnelManager) :
  lifecycle (fst (processBuffer m)) = lifecycle m.
Proof.
  unfold processBuffer. destruct (processLoop _ m 0) as [offset effects].
  cbn [fst]. destruct (0 <? offset); reflexivity.
Qed.

Lemma onData_lifecycle (m : TunnelManager) (data : Buffer) :
  lifecycle (fst (onData m data)) = lifecycle m.
Proof.
  unfold onData. destruct (cancelled m) eqn:Hc; [reflexivity|].
  rewrite processBuffer_lifecycle. reflexivity.
Qed.

Lemma next_lifecycle (sid : nat) (m : TunnelManager) (s : PacketStream) :
  lifecycle (fst (next sid m s)) = lifecycle m.
Proof.
  unfold next, runLoop.
  destruct (phase s); cbn [addPacketConsumer with_packetConsumers cancelled];
    try reflexivity;
    destruct (cancelled m); try reflexivity; destruct (queue s); reflexivity.
Qed.

Lemma setupInterface_lifecycle (p : Platform) (k : AcquireOutcome)
    (execOk : string -> bool) (info : TunnelInfo) (m : TunnelManager) :
  lifecycle (fst (fst (setupInterface p k execOk info m))) = lifecycle m.
Proof.
  unfold setupInterface.
  destruct (TunTap.open k (TunTap.create "")) as [t r].
  destruct r as [[b|n|[|]|e]|msg]; try reflexivity.
  destruct (TunTap.configure _ _ _ _ t) as [cmds1 [|e1]]; [|reflexivity].
  destruct (TunTap.addRoute _ _ _ t) as [cmds2 [|e2]]; reflexivity.
Qed.

(** Every step that is not a call of [stop] leaves the cached
    completion, the count of cleanups and the flag as they are. *)
Lemma step_lifecycle (w : World) (e : Event) :
  isStop e = false -> lifecycle (mgr (step w e)) = lifecycle (mgr w).
Proof.
  destruct e; cbn [isStop step]; intros He; try discriminate; try reflexivity.
  - destruct (nth_error (streams w) sid) as [s|]; [|reflexivity].
    pose proof (next_lifecycle sid (mgr w) s) as Hn.
    destruct (next sid (mgr w) s) as [m' s']. exact Hn.
  - apply setupInterface_lifecycle.
  - cbn [mgr]. unfold startForwarding. destruct (tun (mgr w)); reflexivity.
  - pose proof (onData_lifecycle (mgr w) chunk) as Hd.
    destruct (onData (mgr w) chunk) as [m' effects]. exact Hd.
Qed.

(** A call of [stop] keeps the invariant and returns the one
    completion. *)
Lemma stop_singleShot (m : TunnelManager) :
  singleShot m ->
  snd (fst (stop m)) = CleanupCompletion 1 /\
  lifecycle (fst (fst (stop m))) = (Some (CleanupCompletion 1), 1, true).
Proof.
  unfold singleShot, lifecycle, stop. intros [H | H]; injection H as Hp Hn Hc.
  - rewrite Hp. unfold _performStop.
    destruct (deviceConn m) as [[[|]]|]; cbn; rewrite Hn; split; reflexivity.
  - rewrite Hp. cbn. rewrite Hp, Hn, Hc. split; reflexivity.
Qed.

Lemma step_stop_lifecycle (w : World) (e : Event) :
  isStop e = true -> mgr (step w e) = fst (fst (stop (mgr w))).
Proof.
  destruct e; cbn [isStop]; intros He; try discriminate;
    cbn [step]; destruct (stop (mgr w)) as [[m' p] effects]; reflexivity.
Qed.

Lemma step_singleShot (w : World) (e : Event) :
  singleShot (mgr w) -> singleShot (mgr (step w e)).
Proof.
  intros Hinv. destruct (isStop e) eqn:He.
  - rewrite (step_stop_lifecycle w e He). right. now apply stop_singleShot.
  - unfold singleShot. rewrite (step_lifecycle w e He). exact Hinv.
Qed.

Lemma run_singleShot (es : list Event) :
  forall w : World, singleShot (mgr w) -> singleShot (mgr (run w es)).
Proof.
  induction es as [|e es IH]; intros w Hinv; [exact Hinv|].
  apply IH. now apply step_singleShot.
Qed.

(** Once the flag is set no step clears it. *)
Lemma run_cancelled (es : list Event) :
  forall w : World, cancelled (mgr w) = true -> cancelled (mgr (run w es)) = true.
Proof.
  induction es as [|e es IH]; intros w Hc; [exact Hc|].
  apply IH. destruct (isStop e) eqn:He.
  - rewrite (step_stop_lifecycle w e He). unfold stop.
    destruct (cleanupPromise (mgr w)); [exact Hc|].
    destruct (_performStop (mgr w)) as [m' effects] eqn:Hm.
    unfold _performStop in Hm.
    destruct (deviceConn (mgr w)) as [[[|]]|]; injection Hm as <- _; reflexivity.
  - pose proof (step_lifecycle w e He) as Hl. unfold lifecycle in Hl.
    injection Hl as _ _ Hl. now rewrite Hl.
Qed.

Lemma stopResults_singleShot (es : list Event) :
  forall w : World,
    singleShot (mgr w) ->
    stopResults w es = repeat (CleanupCompletion 1) (countStops es).
Proof.
  induction es as [|e es IH]; intros w Hinv; [reflexivity|].
  unfold countStops. cbn [stopResults filter].
  pose proof (IH (step w e) (step_singleShot w e Hinv)) as IHw.
  destruct e; cbn [isStop length repeat]; try exact IHw;
    (f_equal; [apply stop_singleShot; exact Hinv | exact IHw]).
Qed.

Lemma run_stopped (es : list Event) :
  forall w : World,
    singleShot (mgr w) ->
    1 <= countStops es ->
    lifecycle (mgr (run w es)) = (Some (CleanupCompletion 1), 1, true).
Proof.
  induction es as [|e es IH]; intros w Hinv Hn; [cbn in Hn; lia|].
  cbn [run fold_left]. fold (run (step w e) es).
  destruct (isStop e) eqn:He.
  - pose proof (run_singleShot es (step w e) (step_singleShot w e Hinv)) as [H | H];
      [|exact H].
    exfalso.
    assert (Hc : cancelled (mgr (run (step w e) es)) = true).
    { apply run_cancelled. rewrite (step_stop_lifecycle w e He).
      destruct (stop_singleShot (mgr w) Hinv) as [_ Hl].
      unfold lifecycle in Hl. now injection Hl. }
    unfold lifecycle in H. injection H as _ _ H. congruence.
  - apply IH; [now apply step_singleShot|].
    unfold countStops in *. cbn [filter] in Hn. now rewrite He in Hn.
Qed.

Lemma run_no_stop (es : list Event) :
  forall w : World, countStops es = 0 -> lifecycle (mgr (run w es)) = lifecycle (mgr w).
Proof.
  induction es as [|e es IH]; intros w Hn; [reflexivity|].
  cbn [run fold_left]. fold (run (step w e) es).
  unfold countStops in Hn. cbn [filter] in Hn.
  destruct (isStop e) eqn:He; [discriminate Hn|].
  fold (countStops es) in Hn. rewrite (IH _ Hn). now apply step_lifecycle.
Qed.

(** The one run of [_performStop] is the cleanup of the
    specification, effect by effect, and leaves the manager cleaned
    up. *)
Lemma performStop_cleanup (m : TunnelManager) :
  snd (_performStop m) = cleanupSequence m /\ cleanedUp (fst (_performStop m)).
Proof.
  unfold _performStop, cleanupSequence, cleanedUp.
  destruct (deviceConn m) as [[[|]]|]; cbn; repeat split; auto.
Qed.

(** A call of [stop] on a manager without a cached completion does
    the cleanup. *)
Lemma first_stop_cleans (w : World) (e : Event) :
  isStop e = true ->
  cleanupPromise (mgr w) = None ->
  trace (step w e) = trace w ++ cleanupSequence (mgr w) /\
  cleanedUp (mgr (step w e)).
Proof.
  intros He Hp. destruct (performStop_cleanup (mgr w)) as [Heff Hclean].
  destruct e; try discriminate He; cbn [step]; unfold stop; rewrite Hp;
    destruct (_performStop (mgr w)) as [m' effects]; cbn [fst snd] in *;
    subst effects; (split; [reflexivity | exact Hclean]).
Qed.

(** A call of [stop] on a manager with a cached completion does
    nothing at all. *)
Lemma later_stop_idle (w : World) (e : Event) :
  isStop e = true -> cleanupPromise (mgr w) <> None -> step w e = w.
Proof.
  intros He Hp. destruct e; try discriminate He; cbn [step]; unfold stop;
    (destruct (cleanupPromise (mgr w)); [|congruence]);
    rewrite app_nil_r; destruct w; reflexivity.
Qed.

(** C9.  In every history of a manager that holds [N >= 1] calls of
    [stop], mixed in any order with the other operations, the cleanup
    has run exactly once, every call of [stop] has returned the
    completion of that one run, and in every continuation of the
    history the cancellation flag is still set and the count of
    cleanups is still one.  The cleanup is that of the first call: it
    adds to the trace the cleanup sequence of the manager as it is
    then, the poller cleared, the device connection destroyed unless
    it is already, the interface closed, and leaves the manager
    cleaned up.  Every later call leaves the manager, the streams and
    the trace exactly as they are. *)
Theorem stop_single_shot (history : list Event) (N : nat) :
  countStops history = N ->
  1 <= N ->
  performStopRuns (mgr (run newWorld history)) = 1 /\
  stopResults newWorld history = repeat (CleanupCompletion 1) N /\
  (forall more : list Event,
      cancelled (mgr (run newWorld (history ++ more))) = true /\
      performStopRuns (mgr (run newWorld (history ++ more))) = 1) /\
  forall (before : list Event) (e : Event) (after : list Event),
    history = before ++ e :: after ->
    isStop e = true ->
    (countStops before = 0 ->
     trace (run newWorld (before ++ [e])) =
       trace (run newWorld before) ++ cleanupSequence (mgr (run newWorld before)) /\
     cleanedUp (mgr (run newWorld (before ++ [e])))) /\
    (1 <= countStops before ->
     run newWorld (before ++ [e]) = run newWorld before).
Proof.
  intros HN Hpos. subst N.
  assert (Hnew : singleShot (mgr newWorld)) by (left; reflexivity).
  pose proof (run_stopped history newWorld Hnew Hpos) as Hl.
  split; [unfold lifecycle in Hl; now injection Hl|].
  split; [now apply stopResults_singleShot|].
  split.
  - intros more. unfold run. rewrite fold_left_app.
    fold (run newWorld history). fold (run (run newWorld history) more).
    assert (Hc : cancelled (mgr (run newWorld history)) = true)
      by (unfold lifecycle in Hl; now injection Hl).
    split; [now apply run_cancelled|].
    assert (Hs : singleShot (mgr (run (run newWorld history) more))).
    { apply run_singleShot. now right. }
    pose proof (run_cancelled more _ Hc) as Hc'.
    destruct Hs as [H | H]; unfold lifecycle in H; injection H as _ Hn Hf; congruence.
  - intros before e after _ He.
    assert (Hrun : run newWorld (before ++ [e]) = step (run newWorld before) e)
      by (unfold run; now rewrite fold_left_app).
    rewrite Hrun. split.
    + intros Hnone. apply first_stop_cleans; [exact He|].
      pose proof (run_no_stop before newWorld Hnone) as Hb.
      unfold lifecycle in Hb. now injection Hb.
    + intros Hsome. apply later_stop_idle; [exact He|].
      pose proof (run_stopped before newWorld Hnew Hsome) as Hb.
      unfold lifecycle in Hb. injection Hb as Hb _ _. congruence.
Qed.

Lemma stop_single_shot_witness :
  countStops sampleHistory = 3 /\
  performStopRuns (mgr (run newWorld sampleHistory)) = 1 /\
  stopResults newWorld sampleHistory = repeat (CleanupCompletion 1) 3 /\
  (forall more : list Event,
      cancelled (mgr (run newWorld (sampleHistory ++ more))) = true /\
      performStopRuns (mgr (run newWorld (sampleHistory ++ more))) = 1) /\
  forall (before : list Event) (e : Event) (after : list Event),
    sampleHistory = before ++ e :: after ->
    isStop e = true ->
    (countStops before = 0 ->
     trace (run newWorld (before ++ [e])) =
       trace (run newWorld before) ++ cleanupSequence (mgr (run newWorld before)) /\
     cleanedUp (mgr (run newWorld (before ++ [e])))) /\
    (1 <= countStops before ->
     run newWorld (before ++ [e]) = run newWorld before).
Proof.
  split; [reflexivity|].
  apply (stop_single_shot sampleHistory 3); [reflexivity | lia].
Defined.

(** ** C4: a packet stream that waits when the tunnel stops *)

Lemma update_nth_other {A} (f : A -> A) (l : list A) :
  forall i j : nat, i <> j -> nth_error (update_nth i f l) j = nth_error l j.
Proof.
  induction l as [|x l IH]; intros i j Hij; [destruct i; reflexivity|].
  destruct i, j; try reflexivity; try congruence.
  simpl. apply IH. congruence.
Qed.

Lemma update_nth_same {A} (f : A -> A) (l : list A) :
  forall (i : nat) (x : A),
    nth_error l i = Some x -> nth_error (update_nth i f l) i = Some (f x).
Proof.
  induction l as [|y l IH]; intros i x Hx; [destruct i; discriminate|].
  destruct i; simpl in *; [now injection Hx as -> | now apply IH].
Qed.

(** Once the flag is set, a stream that waits for a packet stays as it
    is at every step: no step hands it a packet, and a further
    [next()] queues behind the pending one. *)
Lemma step_blocked (w : World) (e : Event) (s : PacketStream) :
  cancelled (mgr w) = true ->
  nth_error (streams w) 0 = Some s ->
  phase s = AwaitingPacket ->
  exists s',
    nth_error (streams (step w e)) 0 = Some s' /\
    phase s' = AwaitingPacket /\ yielded s' = yielded s.
Proof.
  intros Hc Hs Hp.
  destruct e; cbn [step streams]; try (exists s; now repeat split).
  - exists s. split; [|now split].
    rewrite nth_error_app1; [assumption|].
    apply nth_error_Some. congruence.
  - destruct sid as [|sid].
    + rewrite Hs. unfold next. rewrite Hp. cbn [streams].
      eexists. split; [apply (update_nth_same _ _ 0 s Hs)|]. now split.
    + destruct (nth_error (streams w) (S sid)) as [s1|]; [|exists s; now repeat split].
      destruct (next (S sid) (mgr w) s1) as [m' s'']. cbn [streams].
      exists s. split; [|now split].
      rewrite update_nth_other by discriminate. assumption.
  - unfold onData. rewrite Hc. cbn [streams deliver].
    exists s. now repeat split.
  - destruct (stop (mgr w)) as [[m' p] effects]. exists s. now repeat split.
  - destruct (stop (mgr w)) as [[m' p] effects]. exists s. now repeat split.
Qed.

(** C4, on the code.  A consumer has asked a packet stream for its
    next record while none was queued, and the tunnel is stopped.
    Whatever happens afterwards, the stream is still waiting: it has
    yielded nothing and it has not completed, so the pending [next()]
    is never settled, although [stop] has emptied the set of
    consumers. *)
Theorem packet_stream_blocked_after_stop (more : list Event) :
  cancelled (mgr blockedWorld) = true /\
  packetConsumers (mgr blockedWorld) = [] /\
  exists s,
    nth_error (streams (run blockedWorld more)) 0 = Some s /\
    phase s = AwaitingPacket /\ yielded s = [].
Proof.
  split; [reflexivity|]. split; [reflexivity|].
  assert (Hgen : forall (es : list Event) (w : World) (s : PacketStream),
             cancelled (mgr w) = true ->
             nth_error (streams w) 0 = Some s ->
             phase s = AwaitingPacket ->
             exists s', nth_error (streams (run w es)) 0 = Some s' /\
                        phase s' = AwaitingPacket /\ yielded s' = yielded s).
  { induction es as [|e es IH]; intros w s Hc Hs Hp.
    - exists s. now repeat split.
    - destruct (step_blocked w e s Hc Hs Hp) as (s1 & Hs1 & Hp1 & Hy1).
      assert (Hc1 : cancelled (mgr (step w e)) = true)
        by (apply (run_cancelled [e] w Hc)).
      destruct (IH (step w e) s1 Hc1 Hs1 Hp1) as (s2 & Hs2 & Hp2 & Hy2).
      exists s2. repeat split; try assumption. congruence. }
  apply (Hgen more blockedWorld (mkPacketStream [] true AwaitingPacket 0 []));
    reflexivity.
Qed.

(** ** C3: the life cycle of a handle *)

Lemma write_throws_iff (p : Platform) (k : KernelWrite) (data : Buffer) (h : TunTap.t) :
  TunTap.writeThrows h = true <-> exists msg, TunTap.write p k data h = Throws msg.
Proof.
  unfold TunTap.writeThrows, TunTap.write, TunDevice.Write.
  destruct (TunTap.isOpen h), (TunDevice.is_open (TunTap.device h)), p; cbn;
    repeat match goal with
           | |- context [if ?c then _ else _] => destruct c
           end;
    split; intros H; try discriminate; try (now eexists);
    destruct H as [msg H]; discriminate.
Qed.

(** Reading and writing fail on a handle that is not open. *)
Lemma io_fails_unless_open (p : Platform) (EAGAIN EWOULDBLOCK : Z)
    (kr : KernelRead) (kw : KernelWrite) (data : Buffer) (h : TunTap.t) :
  TunTap.isOpen h = false ->
  TunTap.read p EAGAIN EWOULDBLOCK kr h = Throws "Device not open" /\
  TunTap.write p kw data h = Throws "Device not open".
Proof.
  intros Hc. unfold TunTap.read, TunTap.write. rewrite Hc. split; reflexivity.
Qed.

(** The later revision keeps the invariant of the specification:
    closed implies not open, through [open] and [close]; a closed
    handle is not opened again; reading and writing fail unless the
    handle is open and not closed. *)
Lemma revised_lifecycle (k : AcquireOutcome) (h : TunTapRevised.t) :
  (TunTapRevised.isClosed h = true -> TunTapRevised.isOpen h = false) ->
  (TunTapRevised.isClosed (fst (TunTapRevised.open k h)) = true ->
   TunTapRevised.isOpen (fst (TunTapRevised.open k h)) = false) /\
  (TunTapRevised.isClosed (fst (TunTapRevised.close h)) = true /\
   TunTapRevised.isOpen (fst (TunTapRevised.close h)) = false) /\
  (TunTapRevised.isClosed h = true ->
   TunTapRevised.open k h = (h, Throws "Device has been closed and cannot be reopened")) /\
  (forall p EAGAIN EWOULDBLOCK kr kw maxSize data,
      TunTapRevised.isOpen h && negb (TunTapRevised.isClosed h) = false ->
      (exists msg, TunTapRevised.read p EAGAIN EWOULDBLOCK kr maxSize h = Throws msg) /\
      (exists msg, TunTapRevised.write p kw data h = Throws msg)).
Proof.
  intros Hinv.
  unfold TunTapRevised.open, TunTapRevised.close, TunTapRevised.read, TunTapRevised.write.
  destruct h as [d o c]; cbn in *.
  destruct c, o; cbn; try (specialize (Hinv eq_refl); discriminate);
    repeat split; try discriminate; try (intros; discriminate); eauto;
    try (destruct (TunDevice.Open k d) as [d' [[b|n|[|]|e]|msg]]; cbn; congruence).
Qed.

(** C3, on the code.  A handle that was opened and closed is opened
    again by the next [open()]: the native device is acquired a second
    time, the handle is open, and reads go through to the device. *)
Theorem tuntap_reopens_after_close :
  TunTap.isOpen openedHandle = true /\
  TunTap.isOpen closedHandle = false /\
  snd (TunTap.open (Acquired 6 "tun1") closedHandle) = Returns (VBoolean true) /\
  TunTap.isOpen (fst (TunTap.open (Acquired 6 "tun1") closedHandle)) = true /\
  TunDevice.fd (TunTap.device (fst (TunTap.open (Acquired 6 "tun1") closedHandle))) = 6%Z /\
  TunTap.read Linux 11 11 (mkKernelRead 1 [x60] 0)
    (fst (TunTap.open (Acquired 6 "tun1") closedHandle)) = Returns (VBuffer [x60]).
Proof. repeat split. Qed.

(** ** C2: configure *)

(** The later revision rejects an address that fails the test and an
    MTU out of range before it runs a command. *)
Lemma revised_configure_guards (ipv6RegexTest : string -> bool)
    (address : string) (mtu : Z) (h : TunTapRevised.t) :
  TunTapRevised.isOpen h = true ->
  TunTapRevised.isClosed h = false ->
  ipv6RegexTest address = false \/ (mtu < 1280)%Z \/ (65535 < mtu)%Z ->
  TunTapRevised.configureGuards ipv6RegexTest address mtu h
    = Some "Invalid IPv6 address format" \/
  TunTapRevised.configureGuards ipv6RegexTest address mtu h
    = Some "MTU must be between 1280 and 65535".
Proof.
  intros Ho Hc Hbad. unfold TunTapRevised.configureGuards. rewrite Ho, Hc. cbn.
  destruct (ipv6RegexTest address); cbn; [|now left].
  destruct Hbad as [Hr | [Hm | Hm]]; [discriminate | |]; right.
  - destruct (Z.ltb_spec mtu 1280); [reflexivity | lia].
  - destruct (Z.ltb_spec mtu 1280); [reflexivity|].
    destruct (Z.ltb_spec 65535 mtu); [reflexivity | lia].
Qed.

(** C2, on the code.  On an open device [configure] hands its
    arguments to the administrative commands as they are: with an
    address that is no IPv6 literal, and with an MTU of 100, the first
    command runs whatever the commands answer, and when they succeed
    the promise is fulfilled. *)
Theorem configure_runs_commands_unvalidated (execOk : string -> bool) :
  hd_error (fst (TunTap.configure Linux execOk "not-an-ip" 1500 openedHandle)) =
    Some "sudo ip -6 addr add not-an-ip/64 dev tun0" /\
  hd_error (fst (TunTap.configure Linux execOk "fd00::3" 100 openedHandle)) =
    Some "sudo ip -6 addr add fd00::3/64 dev tun0" /\
  TunTap.configure Linux (fun _ => true) "not-an-ip" 1500 openedHandle =
    (["sudo ip -6 addr add not-an-ip/64 dev tun0";
      "sudo ip link set dev tun0 up mtu 1500"], TunTap.Fulfilled) /\
  TunTap.configure Linux (fun _ => true) "fd00::3" 100 openedHandle =
    (["sudo ip -6 addr add fd00::3/64 dev tun0";
      "sudo ip link set dev tun0 up mtu 100"], TunTap.Fulfilled).
Proof.
  repeat split.
  - cbn. destruct (execOk _); [destruct (execOk _)|]; reflexivity.
  - cbn. destruct (execOk _); [destruct (execOk _)|]; reflexivity.
Qed.

(** ** C7: the framing of the Darwin driver *)

Lemma u8_byte_of_Z (z : Z) : u8 (byte_of_Z z) = (z mod 256)%Z.
Proof.
  unfold u8, byte_of_Z.
  pose proof (Z.mod_pos_bound z 256 ltac:(lia)) as Hm.
  destruct (Byte.of_N (Z.to_N (z mod 256))) as [b|] eqn:Hb.
  - apply Byte.to_of_N in Hb. rewrite Hb. lia.
  - apply Byte.of_N_None_iff in Hb. lia.
Qed.

(** C7 as it is stated has a write return the count of the system
    call minus four, and a kernel return of four bytes or fewer give
    an empty buffer.  On a count of two the code returns zero, and on
    a read that returns no byte with [errno] left at zero it returns
    an [Error] value. *)
Lemma darwin_framing_counterexample :
  TunDevice.Write Darwin (mkKernelWrite 2 0) [x60] darwinDevice = Returns (VNumber 0) /\
  (0 <> 2 - 4)%Z /\
  TunDevice.Read Darwin 35 35 (mkKernelRead 0 [] 0) darwinDevice = Returns (VError 0) /\
  Returns (VError 0) <> Returns (VBuffer []).
Proof.
  repeat split; discriminate.
Qed.

(** C7, amended.  On Darwin, with the device open: a read of more
    than four bytes returns what follows the first four; a read of one
    to four bytes, and a read that fails with would-block, return the
    empty buffer; a write passes the four bytes 00 00 00 1e and then
    the payload to the system call, and returns the count of the
    system call minus four when that count is above four and zero when
    it is between zero and four, so that a payload written in full
    gives its own length. *)
Theorem darwin_framing (EAGAIN EWOULDBLOCK : Z) (d : TunDevice.t) :
  TunDevice.is_open d = true ->
  (forall k : KernelRead,
      (4 < bytes_read k)%Z ->
      Z.of_nat (length (tmp_buffer k)) = bytes_read k ->
      TunDevice.Read Darwin EAGAIN EWOULDBLOCK k d = Returns (VBuffer (skipn 4 (tmp_buffer k))) /\
      length (skipn 4 (tmp_buffer k)) = length (tmp_buffer k) - 4) /\
  (forall k : KernelRead,
      (1 <= bytes_read k <= 4)%Z ->
      TunDevice.Read Darwin EAGAIN EWOULDBLOCK k d = Returns (VBuffer [])) /\
  (forall k : KernelRead,
      (bytes_read k <= 0)%Z ->
      read_errno k = EAGAIN \/ read_errno k = EWOULDBLOCK ->
      TunDevice.Read Darwin EAGAIN EWOULDBLOCK k d = Returns (VBuffer [])) /\
  (forall data : Buffer,
      TunDevice.write_frame Darwin data = [x00; x00; x00; x1e] ++ data) /\
  (forall (k : KernelWrite) (data : Buffer),
      (0 <= bytes_written k)%Z ->
      TunDevice.Write Darwin k data d =
      Returns (VNumber (Z.max (bytes_written k - 4) 0))) /\
  (forall (k : KernelWrite) (data : Buffer),
      bytes_written k = Z.of_nat (length (TunDevice.write_frame Darwin data)) ->
      TunDevice.Write Darwin k data d = Returns (VNumber (Z.of_nat (length data)))).
Proof.
  intros Hopen. unfold TunDevice.Read, TunDevice.Write. rewrite Hopen. cbn [negb].
  repeat split.
  - destruct (Z.leb_spec (bytes_read k) 0); [lia|].
    destruct (Z.ltb_spec 4 (bytes_read k)); [|lia].
    do 2 f_equal. rewrite firstn_all2; [reflexivity|].
    rewrite length_skipn. lia.
  - apply length_skipn.
  - intros k Hk.
    destruct (Z.leb_spec (bytes_read k) 0); [lia|].
    destruct (Z.ltb_spec 4 (bytes_read k)); [lia | reflexivity].
  - intros k Hk Herr.
    destruct (Z.leb_spec (bytes_read k) 0); [|lia].
    destruct Herr as [-> | ->]; rewrite Z.eqb_refl; [reflexivity|].
    now rewrite orb_true_r.
  - intros k data Hk.
    destruct (Z.ltb_spec (bytes_written k) 0); [lia|].
    destruct (Z.ltb_spec 4 (bytes_written k)); do 2 f_equal; lia.
  - intros k data Hk.
    assert (Hlen : bytes_written k = (Z.of_nat (length data) + 4)%Z).
    { rewrite Hk. cbn [TunDevice.write_frame]. rewrite length_app.
      change (length (TunDevice.htonl TunDevice.AF_INET6)) with 4. lia. }
    destruct (Z.ltb_spec (bytes_written k) 0); [lia|].
    destruct (Z.ltb_spec 4 (bytes_written k)); do 2 f_equal; lia.
Qed.

Lemma darwin_framing_witness :
  TunDevice.Read Darwin 35 35 (mkKernelRead 6 [x00; x00; x00; x1e; x60; x01] 0) darwinDevice
    = Returns (VBuffer [x60; x01]) /\
  TunDevice.Read Darwin 35 35 (mkKernelRead 4 [x00; x00; x00; x1e] 0) darwinDevice
    = Returns (VBuffer []) /\
  TunDevice.Read Darwin 35 35 (mkKernelRead (-1) [] 35) darwinDevice
    = Returns (VBuffer []) /\
  TunDevice.write_frame Darwin [x60; x01] = [x00; x00; x00; x1e; x60; x01] /\
  TunDevice.Write Darwin (mkKernelWrite 6 0) [x60; x01] darwinDevice = Returns (VNumber 2).
Proof.
  destruct (darwin_framing 35 35 darwinDevice eq_refl) as (H1 & H2 & H3 & H4 & H5 & H6).
  split; [apply (H1 (mkKernelRead 6 [x00; x00; x00; x1e; x60; x01] 0)); cbn; [lia | reflexivity]|].
  split; [apply (H2 (mkKernelRead 4 [x00; x00; x00; x1e] 0)); cbn; lia|].
  split; [apply (H3 (mkKernelRead (-1) [] 35)); cbn; [lia | now left]|].
  split; [apply (H4 [x60; x01])|].
  apply (H6 (mkKernelWrite 6 0) [x60; x01]). reflexivity.
Defined.

(** ** C5: the frames of the handshake *)

Section HandshakeFrames.

Context {J : Type} {lib : Handshake.JSON J}.

Lemma magic_length : length Handshake.magic = 8.
Proof. reflexivity. Qed.

Lemma frameOf_length (body : Buffer) : length (frameOf body) = 10 + length body.
Proof.
  unfold frameOf. rewrite !length_app, magic_length. cbn [length]. lia.
Qed.

Lemma encode_frameOf (body : Buffer) :
  (Z.of_nat (length body) <= 65535)%Z -> Handshake.encode body = Some (frameOf body).
Proof.
  intros Hlen. unfold Handshake.encode, writeUInt16BE, frameOf.
  destruct (Z.leb_spec 0 (Z.of_nat (length body))); [|lia].
  destruct (Z.leb_spec (Z.of_nat (length body)) 65535); [reflexivity | lia].
Qed.

Lemma frameOf_length_field (body : Buffer) :
  (Z.of_nat (length body) <= 65535)%Z -> readUInt16BE (frameOf body) 8 = Z.of_nat (length body).
Proof.
  intros Hlen. unfold frameOf, readUInt16BE, byteAt.
  change Handshake.magic with [x43; x44; x54; x75; x6e; x6e; x65; x6c].
  cbn [Nat.add nth app].
  rewrite !u8_byte_of_Z.
  assert (H : (0 <= Z.of_nat (length body) <= 65535)%Z) by lia.
  revert H. generalize (Z.of_nat (length body)). intros n Hn.
  Z.div_mod_to_equations. lia.
Qed.

(** What has arrived of a frame, once it is ten bytes or more, shows
    the magic and the length. *)
Lemma frame_prefix (body acc rest : Buffer) :
  (Z.of_nat (length body) <= 65535)%Z ->
  acc ++ rest = frameOf body ->
  10 <= length acc ->
  slice acc 0 8 = Handshake.magic /\
  readUInt16BE acc 8 = Z.of_nat (length body).
Proof.
  intros Hlen Hframe Hacc.
  assert (Hpre : acc = firstn (length acc) (frameOf body)).
  { rewrite <- Hframe. symmetry. apply firstn_app_exact. }
  split.
  - unfold slice. cbn [skipn Nat.sub]. rewrite Hpre, firstn_firstn.
    replace (Nat.min 8 (length acc)) with 8 by lia.
    unfold frameOf. rewrite <- magic_length. apply firstn_app_exact.
  - rewrite Hpre, readUInt16BE_firstn by lia. now apply frameOf_length_field.
Qed.

Lemma magicDiffers_false (b : Buffer) :
  slice b 0 8 = Handshake.magic -> Handshake.magicDiffers b = false.
Proof.
  intros H. unfold Handshake.magicDiffers. rewrite H.
  destruct (list_eq_dec Byte.byte_eq_dec Handshake.magic Handshake.magic);
    [reflexivity | congruence].
Qed.

Lemma magicDiffers_true (b : Buffer) :
  slice b 0 8 <> Handshake.magic -> Handshake.magicDiffers b = true.
Proof.
  intros H. unfold Handshake.magicDiffers.
  destruct (list_eq_dec Byte.byte_eq_dec (slice b 0 8) Handshake.magic);
    [contradiction | reflexivity].
Qed.

(** A chunk that leaves the frame incomplete is added to the
    accumulator and nothing else happens. *)
Lemma handleData_incomplete (body data rest : Buffer) (st : Handshake.State J) :
  (Z.of_nat (length body) <= 65535)%Z ->
  (Handshake.buffer st ++ data) ++ rest = frameOf body ->
  rest <> [] ->
  Handshake.handleData data st = Handshake.with_buffer st (Handshake.buffer st ++ data).
Proof.
  intros Hlen Hframe Hrest. unfold Handshake.handleData. cbv zeta.
  cbn [Handshake.with_buffer Handshake.buffer].
  destruct (Nat.ltb_spec (length (Handshake.buffer st ++ data)) 10) as [|Hten];
    [reflexivity|].
  destruct (frame_prefix body _ rest Hlen Hframe Hten) as [Hmagic Hfield].
  rewrite (magicDiffers_false _ Hmagic), Hfield, Nat2Z.id.
  assert (Hshort : length (Handshake.buffer st ++ data) < 10 + length body).
  { rewrite <- frameOf_length, <- Hframe, !length_app.
    destruct rest; [congruence | cbn [length]; lia]. }
  destruct (Nat.leb_spec (8 + 2 + length body) (length (Handshake.buffer st ++ data)));
    [lia | reflexivity].
Qed.

(** The chunk that completes the frame resolves the promise with
    what the payload parses to, and takes the listeners away. *)
Lemma handleData_complete (body data : Buffer) (st : Handshake.State J) (j : J) :
  (Z.of_nat (length body) <= 65535)%Z ->
  Handshake.buffer st ++ data = frameOf body ->
  Handshake.parse body = Some j ->
  Handshake.completion st = Handshake.Pending ->
  Handshake.completion (Handshake.handleData data st) = Handshake.Resolved j /\
  Handshake.dataListener (Handshake.handleData data st) = false.
Proof.
  intros Hlen Hframe Hparse Hpending. unfold Handshake.handleData. cbv zeta.
  cbn [Handshake.with_buffer Handshake.buffer].
  assert (Hl : length (Handshake.buffer st ++ data) = 10 + length body)
    by (rewrite Hframe; apply frameOf_length).
  destruct (Nat.ltb_spec (length (Handshake.buffer st ++ data)) 10) as [|Hten]; [lia|].
  assert (Hframe' : (Handshake.buffer st ++ data) ++ [] = frameOf body)
    by now rewrite app_nil_r.
  destruct (frame_prefix body _ [] Hlen Hframe' Hten) as [Hmagic Hfield].
  rewrite (magicDiffers_false _ Hmagic), Hfield, Nat2Z.id.
  destruct (Nat.leb_spec (8 + 2 + length body) (length (Handshake.buffer st ++ data)));
    [|lia].
  assert (Hpayload : slice (Handshake.buffer st ++ data) 10 (8 + 2 + length body) = body).
  { rewrite Hframe. unfold frameOf, slice.
    replace (8 + 2 + length body - 10) with (length body) by lia.
    change 10 with (length (Handshake.magic ++
      [byte_of_Z (Z.of_nat (length body) / 256);
       byte_of_Z (Z.of_nat (length body) mod 256)])).
    rewrite app_assoc, skipn_app_exact. apply firstn_all. }
  rewrite Hpayload, Hparse.
  unfold Handshake.settle, Handshake.cleanup. cbn. rewrite Hpending.
  split; reflexivity.
Qed.

Lemma receive_cons (st : Handshake.State J) (c : Buffer) (chunks : list Buffer) :
  Handshake.receive st (c :: chunks) =
  Handshake.receive (Handshake.handle st (Handshake.Data c)) chunks.
Proof. reflexivity. Qed.

Lemma receive_detached (chunks : list Buffer) :
  forall st : Handshake.State J,
    Handshake.dataListener st = false -> Handshake.receive st chunks = st.
Proof.
  induction chunks as [|c chunks IH]; intros st Hd; [reflexivity|].
  rewrite receive_cons. cbn [Handshake.handle]. rewrite Hd.
  apply IH. exact Hd.
Qed.

Lemma receive_frame (body : Buffer) (j : J) (chunks : list Buffer) :
  (Z.of_nat (length body) <= 65535)%Z ->
  Handshake.parse body = Some j ->
  forall st : Handshake.State J,
    Handshake.dataListener st = true ->
    Handshake.completion st = Handshake.Pending ->
    Handshake.buffer st ++ concat chunks = frameOf body ->
    length (Handshake.buffer st) < length (frameOf body) ->
    Handshake.completion (Handshake.receive st chunks) = Handshake.Resolved j.
Proof.
  intros Hlen Hparse.
  induction chunks as [|c chunks IH]; intros st Hd Hp Hframe Hshort.
  - cbn [concat] in Hframe. rewrite app_nil_r in Hframe. rewrite Hframe in Hshort. lia.
  - cbn [concat] in Hframe. rewrite app_assoc in Hframe.
    rewrite receive_cons. cbn [Handshake.handle]. rewrite Hd.
    destruct (concat chunks) as [|b rest] eqn:Hrest.
    + rewrite app_nil_r in Hframe.
      destruct (handleData_complete body c st j Hlen Hframe Hparse Hp) as [Hres Hoff].
      now rewrite receive_detached.
    + rewrite (handleData_incomplete body c (b :: rest) st Hlen Hframe) by discriminate.
      apply IH; try assumption.
      cbn [Handshake.with_buffer Handshake.buffer].
      rewrite <- Hframe, !length_app. cbn [length]. lia.
Qed.

(** The request goes out as one frame of 55 bytes, and the listeners
    and the timer are in place afterwards. *)
Lemma start_sends_request :
  Handshake.sent (J := J) Handshake.start =
    [frameOf (bytes_of_string Handshake.requestJSON)] /\
  length (frameOf (bytes_of_string Handshake.requestJSON)) = 55 /\
  Handshake.dataListener (J := J) Handshake.start = true /\
  Handshake.errorListener (J := J) Handshake.start = true /\
  Handshake.endListener (J := J) Handshake.start = true /\
  Handshake.timeoutHandle (J := J) Handshake.start = true.
Proof. repeat split. Qed.

(** C5.  For a JSON value whose text has at most 65535 bytes and
    parses back to the value, the frame that [encode] builds is the
    eight bytes of ["CDTunnel"], then the length of the text as a
    big-endian 16-bit integer, then the text, ten bytes more than the
    text in all; and when that frame arrives in chunks, however it is
    cut, the handshake resolves to the value. *)
Theorem handshake_framing_roundtrip (j : J) (chunks : list Buffer) :
  Handshake.parse (Handshake.stringify j) = Some j ->
  (Z.of_nat (length (Handshake.stringify j)) <= 65535)%Z ->
  concat chunks = frameOf (Handshake.stringify j) ->
  Handshake.encode (Handshake.stringify j) =
    Some (bytes_of_string "CDTunnel" ++
          [byte_of_Z (Z.of_nat (length (Handshake.stringify j)) / 256);
           byte_of_Z (Z.of_nat (length (Handshake.stringify j)) mod 256)] ++
          Handshake.stringify j) /\
  readUInt16BE (frameOf (Handshake.stringify j)) 8 =
    Z.of_nat (length (Handshake.stringify j)) /\
  length (frameOf (Handshake.stringify j)) = 10 + length (Handshake.stringify j) /\
  Handshake.completion (Handshake.receive Handshake.start chunks) = Handshake.Resolved j.
Proof.
  intros Hparse Hlen Hchunks.
  split; [now apply encode_frameOf|].
  split; [now apply frameOf_length_field|].
  split; [apply frameOf_length|].
  apply (receive_frame (Handshake.stringify j) j chunks Hlen Hparse);
    try reflexivity.
  - exact Hchunks.
  - rewrite frameOf_length. cbn. lia.
Qed.

End HandshakeFrames.

Lemma handshake_framing_roundtrip_witness :
  Handshake.encode (Handshake.stringify (JSON := numberJSON) 1500) =
    Some (bytes_of_string "CDTunnel" ++ [x00; x04] ++ bytes_of_string "1500") /\
  Handshake.completion
    (Handshake.receive (lib := numberJSON) Handshake.start sampleFrameChunks)
  = Handshake.Resolved 1500.
Proof.
  destruct (handshake_framing_roundtrip (lib := numberJSON) 1500 sampleFrameChunks)
    as (Henc & _ & _ & Hres).
  - reflexivity.
  - vm_compute. discriminate.
  - reflexivity.
  - split; [exact Henc | exact Hres].
Defined.

(** ** C6: how the handshake fails *)

Section HandshakeFailures.

Context {J : Type} {lib : Handshake.JSON J}.

Lemma handshake_with_buffer_eta (st : Handshake.State J) :
  Handshake.with_buffer st (Handshake.buffer st) = st.
Proof. destruct st. reflexivity. Qed.

Lemma reject_after_cleanup (f : Handshake.Failure) (st : Handshake.State J) :
  Handshake.completion st = Handshake.Pending ->
  failedWith f (Handshake.settle (Handshake.Rejected f) (Handshake.cleanup st)).
Proof.
  intros Hp. unfold failedWith, Handshake.settle, Handshake.cleanup. cbn.
  rewrite Hp. cbn. repeat split.
Qed.

Lemma settle_after_cleanup_detached (c : Handshake.Completion J) (st : Handshake.State J) :
  detachedOnceSettled (Handshake.settle c (Handshake.cleanup st)).
Proof.
  right. unfold Handshake.settle, Handshake.cleanup. cbn.
  destruct (Handshake.completion st); cbn; repeat split.
Qed.

(** An event leaves the state alone, or adds to the accumulator and
    changes nothing else, or settles the promise after [cleanup]. *)
Lemma handle_cases (st : Handshake.State J) (ev : Handshake.SocketEvent) :
  (exists b, Handshake.handle st ev = Handshake.with_buffer st b) \/
  exists c b,
    c <> Handshake.Pending /\
    Handshake.handle st ev =
    Handshake.settle c (Handshake.cleanup (Handshake.with_buffer st b)).
Proof.
  destruct ev as [data|e|]; cbn [Handshake.handle].
  - destruct (Handshake.dataListener st);
      [|left; exists (Handshake.buffer st); now rewrite handshake_with_buffer_eta].
    unfold Handshake.handleData. cbv zeta.
    destruct (_ <? 10); [left; eauto|].
    destruct (Handshake.magicDiffers _).
    { right. do 2 eexists. split; [|reflexivity]. discriminate. }
    destruct (_ <=? _); [|left; eauto].
    destruct (Handshake.parse _);
      right; do 2 eexists; (split; [|reflexivity]); discriminate.
  - destruct (Handshake.errorListener st);
      [|left; exists (Handshake.buffer st); now rewrite handshake_with_buffer_eta].
    right. exists (Handshake.Rejected (Handshake.SocketError e)), (Handshake.buffer st).
    split; [discriminate|]. now rewrite handshake_with_buffer_eta.
  - destruct (Handshake.endListener st);
      [|left; exists (Handshake.buffer st); now rewrite handshake_with_buffer_eta].
    right. exists (Handshake.Rejected Handshake.ConnectionClosed), (Handshake.buffer st).
    split; [discriminate|]. now rewrite handshake_with_buffer_eta.
Qed.

Lemma handle_detached (st : Handshake.State J) (ev : Handshake.SocketEvent) :
  detachedOnceSettled st -> detachedOnceSettled (Handshake.handle st ev).
Proof.
  intros Hst. destruct (handle_cases st ev) as [(b & H) | (c & b & _ & H)]; rewrite H.
  - exact Hst.
  - apply settle_after_cleanup_detached.
Qed.

Lemma fireTimer_detached (st : Handshake.State J) :
  detachedOnceSettled st -> detachedOnceSettled (Handshake.fireTimer st).
Proof.
  intros Hst. unfold Handshake.fireTimer, Handshake.onTimeout.
  destruct (Handshake.timeoutHandle st); [apply settle_after_cleanup_detached | exact Hst].
Qed.

Lemma play_detached (history : list (Z * Handshake.SocketEvent)) :
  forall st : Handshake.State J,
    detachedOnceSettled st -> detachedOnceSettled (Handshake.play st history).
Proof.
  induction history as [|[time ev] history IH]; intros st Hst; cbn [Handshake.play].
  - now apply fireTimer_detached.
  - destruct (time <? Handshake.timeoutDelay)%Z; apply IH.
    + now apply handle_detached.
    + now apply handle_detached, fireTimer_detached.
Qed.

(** A settled promise stays settled. *)
Lemma handle_settled (st : Handshake.State J) (ev : Handshake.SocketEvent) :
  Handshake.completion st <> Handshake.Pending ->
  Handshake.completion (Handshake.handle st ev) <> Handshake.Pending.
Proof.
  intros Hs. destruct (handle_cases st ev) as [(b & H) | (c & b & _ & H)]; rewrite H.
  - exact Hs.
  - unfold Handshake.settle, Handshake.cleanup. cbn.
    destruct (Handshake.completion st); cbn; congruence.
Qed.

(** A handshake that is still pending after an event was pending
    before it and has the timer it had. *)
Lemma handle_pending (st : Handshake.State J) (ev : Handshake.SocketEvent) :
  Handshake.completion (Handshake.handle st ev) = Handshake.Pending ->
  Handshake.completion st = Handshake.Pending /\
  Handshake.timeoutHandle (Handshake.handle st ev) = Handshake.timeoutHandle st.
Proof.
  intros Hq.
  assert (Hp : Handshake.completion st = Handshake.Pending).
  { destruct (Handshake.completion st) eqn:Hc; [reflexivity| |];
      exfalso; apply (handle_settled st ev); congruence. }
  split; [exact Hp|].
  destruct (handle_cases st ev) as [(b & H) | (c & b & Hc & H)]; rewrite H in *.
  - reflexivity.
  - exfalso. revert Hq. unfold Handshake.settle, Handshake.cleanup. cbn.
    rewrite Hp. cbn. exact Hc.
Qed.

Lemma handles_pending (evs : list Handshake.SocketEvent) :
  forall st : Handshake.State J,
    Handshake.completion (fold_left Handshake.handle evs st) = Handshake.Pending ->
    Handshake.completion st = Handshake.Pending /\
    Handshake.timeoutHandle (fold_left Handshake.handle evs st) = Handshake.timeoutHandle st.
Proof.
  induction evs as [|ev evs IH]; intros st Hq; [now split|].
  cbn [fold_left] in *. destruct (IH _ Hq) as [Hp1 Ht1].
  destruct (handle_pending st ev Hp1) as [Hp Ht]. split; congruence.
Qed.

Lemma play_early (early : list (Z * Handshake.SocketEvent)) :
  forall (st : Handshake.State J) (late : list (Z * Handshake.SocketEvent)),
    Forall (fun te => (fst te < Handshake.timeoutDelay)%Z) early ->
    Handshake.play st (early ++ late) =
    Handshake.play (fold_left Handshake.handle (eventsOf early) st) late.
Proof.
  induction early as [|[time ev] early IH]; intros st late Hearly; [reflexivity|].
  inversion Hearly as [|x l Ht Hrest]; subst. cbn [fst] in Ht.
  cbn [app Handshake.play eventsOf map snd fold_left].
  destruct (Z.ltb_spec time Handshake.timeoutDelay); [|lia].
  now apply IH.
Qed.

(** After a failure nothing is left that could run. *)
Lemma play_failed (history : list (Z * Handshake.SocketEvent)) :
  forall (st : Handshake.State J) (f : Handshake.Failure),
    failedWith f st -> Handshake.play st history = st.
Proof.
  induction history as [|[time ev] history IH];
    intros st f (Hc & Hd & He & Hn & Ht).
  - cbn [Handshake.play]. unfold Handshake.fireTimer. now rewrite Ht.
  - cbn [Handshake.play]. unfold Handshake.fireTimer. rewrite Ht.
    assert (Hsame : Handshake.handle st ev = st).
    { destruct ev; cbn [Handshake.handle]; rewrite ?Hd, ?He, ?Hn; reflexivity. }
    rewrite Hsame. destruct (time <? Handshake.timeoutDelay)%Z;
      apply (IH st f); repeat split; assumption.
Qed.

(** C6.  Take a handshake that is pending with its listeners and
    its timer in place.  A chunk that brings the accumulator to ten
    bytes or more with first eight bytes other than ["CDTunnel"]
    fails it with "Invalid packet format"; a chunk that completes a
    payload which does not parse fails it with "Invalid JSON
    response"; the end of the stream fails it with "Connection closed
    before receiving complete response"; these three are protocol
    errors.  When the events of the first 30000 milliseconds leave it
    pending, it fails with "Tunnel handshake timeout", whatever comes
    later.  And whenever it fails, the three listeners and the timer
    are gone. *)
Theorem handshake_failure_modes (st : Handshake.State J) :
  Handshake.completion st = Handshake.Pending ->
  Handshake.dataListener st = true ->
  Handshake.endListener st = true ->
  Handshake.timeoutHandle st = true ->
  (forall data : Buffer,
      10 <= length (Handshake.buffer st ++ data) ->
      slice (Handshake.buffer st ++ data) 0 8 <> bytes_of_string "CDTunnel" ->
      failedWith Handshake.InvalidPacketFormat (Handshake.handle st (Handshake.Data data))) /\
  (forall data : Buffer,
      let received := Handshake.buffer st ++ data in
      let total := 10 + Z.to_nat (readUInt16BE received 8) in
      10 <= length received ->
      slice received 0 8 = bytes_of_string "CDTunnel" ->
      total <= length received ->
      Handshake.parse (slice received 10 total) = None ->
      failedWith Handshake.InvalidJSONResponse (Handshake.handle st (Handshake.Data data))) /\
  failedWith Handshake.ConnectionClosed (Handshake.handle st Handshake.End) /\
  (forall early late : list (Z * Handshake.SocketEvent),
      Forall (fun te => (fst te < 30000)%Z) early ->
      Forall (fun te => (30000 <= fst te)%Z) late ->
      Handshake.completion (fold_left Handshake.handle (eventsOf early) st)
        = Handshake.Pending ->
      failedWith Handshake.HandshakeTimedOut (Handshake.play st (early ++ late))) /\
  (forall (history : list (Z * Handshake.SocketEvent)) (f : Handshake.Failure),
      Handshake.completion (Handshake.play st history) = Handshake.Rejected f ->
      failedWith f (Handshake.play st history)) /\
  Handshake.kindOf Handshake.InvalidPacketFormat = Handshake.ProtocolError /\
  Handshake.kindOf Handshake.InvalidJSONResponse = Handshake.ProtocolError /\
  Handshake.kindOf Handshake.ConnectionClosed = Handshake.ProtocolError /\
  Handshake.kindOf Handshake.HandshakeTimedOut = Handshake.HandshakeTimeout.
Proof.
  intros Hp Hd He Ht.
  split; [|split; [|split; [|split; [|split; [|repeat split]]]]].
  - intros data Hlen Hmagic. cbn [Handshake.handle]. rewrite Hd.
    unfold Handshake.handleData. cbv zeta.
    cbn [Handshake.with_buffer Handshake.buffer].
    destruct (Nat.ltb_spec (length (Handshake.buffer st ++ data)) 10); [lia|].
    rewrite (magicDiffers_true _ Hmagic).
    apply reject_after_cleanup. exact Hp.
  - intros data received total Hlen Hmagic Htotal Hparse. subst received total.
    cbn [Handshake.handle]. rewrite Hd.
    unfold Handshake.handleData. cbv zeta.
    cbn [Handshake.with_buffer Handshake.buffer].
    destruct (Nat.ltb_spec (length (Handshake.buffer st ++ data)) 10); [lia|].
    rewrite (magicDiffers_false _ Hmagic).
    change (8 + 2 + ?n) with (10 + n).
    destruct (Nat.leb_spec (10 + Z.to_nat (readUInt16BE (Handshake.buffer st ++ data) 8))
                (length (Handshake.buffer st ++ data))); [|lia].
    rewrite Hparse. apply reject_after_cleanup. exact Hp.
  - cbn [Handshake.handle]. rewrite He. apply reject_after_cleanup. exact Hp.
  - intros early late Hearly Hlate Hpending.
    rewrite (play_early early st late Hearly).
    destruct (handles_pending _ _ Hpending) as [_ Htimer].
    rewrite Ht in Htimer.
    assert (Hfire : failedWith Handshake.HandshakeTimedOut
                      (Handshake.fireTimer
                         (fold_left Handshake.handle (eventsOf early) st))).
    { unfold Handshake.fireTimer, Handshake.onTimeout. rewrite Htimer.
      now apply reject_after_cleanup. }
    destruct late as [|[time ev] late]; [exact Hfire|].
    inversion Hlate as [|x l Htime _]; subst. cbn [fst] in Htime.
    cbn [Handshake.play]. unfold Handshake.timeoutDelay.
    destruct (Z.ltb_spec time 30000); [lia|].
    assert (Hsame : Handshake.handle
                      (Handshake.fireTimer
                         (fold_left Handshake.handle (eventsOf early) st)) ev
                    = Handshake.fireTimer
                        (fold_left Handshake.handle (eventsOf early) st)).
    { destruct Hfire as (_ & Hd' & He' & Hn' & _).
      destruct ev; cbn [Handshake.handle]; rewrite ?Hd', ?He', ?Hn'; reflexivity. }
    rewrite Hsame. rewrite (play_failed late _ _ Hfire). exact Hfire.
  - intros history f Hrej.
    destruct (play_detached history st (or_introl Hp)) as [Hpend | Hoff].
    + congruence.
    + unfold failedWith. tauto.
Qed.

End HandshakeFailures.

Lemma handshake_failure_modes_witness :
  failedWith Handshake.InvalidPacketFormat
    (Handshake.handle (lib := numberJSON) Handshake.start (Handshake.Data badMagicChunk)) /\
  failedWith Handshake.InvalidJSONResponse
    (Handshake.handle (lib := numberJSON) Handshake.start (Handshake.Data badJSONChunk)) /\
  failedWith Handshake.ConnectionClosed
    (Handshake.handle (lib := numberJSON) Handshake.start Handshake.End) /\
  failedWith Handshake.HandshakeTimedOut
    (Handshake.play (lib := numberJSON) Handshake.start
       ([(100%Z, Handshake.Data (bytes_of_string "CDT"))] ++ [(30001%Z, Handshake.End)])) /\
  failedWith (Handshake.SocketError "ECONNRESET")
    (Handshake.play (lib := numberJSON) Handshake.start
       [(5%Z, Handshake.Error "ECONNRESET")]).
Proof.
  destruct (handshake_failure_modes (lib := numberJSON) Handshake.start
              eq_refl eq_refl eq_refl eq_refl)
    as (Hmagic & Hjson & Hend & Htimeout & Hall & _).
  split; [apply Hmagic; [cbn; lia | discriminate]|].
  split; [apply Hjson; [cbn; lia | reflexivity | cbn; lia | reflexivity]|].
  split; [exact Hend|].
  split.
  - apply Htimeout.
    + repeat constructor.
    + repeat constructor. cbn. lia.
    + reflexivity.
  - apply Hall. reflexivity.
Defined.


(** * Further properties of the code *)

(** ** What processBuffer writes *)

Lemma In_interfaceWrites (tr : list Effect) (packet : Buffer) :
  In packet (interfaceWrites tr) <-> In (TunWrite packet) tr.
Proof.
  unfold interfaceWrites. rewrite in_flat_map. split.
  - intros (e & He & Hin). destruct e; try (now destruct Hin).
    destruct Hin as [-> | []]. exact He.
  - intros H. exists (TunWrite packet). split; [exact H | now left].
Qed.

Lemma forwardPacket_writes (m : TunnelManager) (t : TunTap.t) (packet x : Buffer)
    (nextHeader : Z) (s d : string) :
  In (TunWrite x) (forwardPacket m t packet nextHeader s d) -> x = packet.
Proof.
  intros H. apply In_interfaceWrites in H. revert H.
  unfold forwardPacket. destruct (TunTap.writeThrows t); [intros []|].
  cbn [interfaceWrites flat_map app]. fold (interfaceWrites).
  intros [H | H]; [now symmetry|]. exfalso. revert H. cbv zeta.
  repeat match goal with
         | |- context [if ?c then _ else _] => destruct c
         end; try (intros []); rewrite interfaceWrites_publish; intros [].
Qed.

Lemma byteAt_slice (b : Buffer) (s e i : nat) :
  i < e - s -> byteAt (slice b s e) i = byteAt b (s + i).
Proof.
  intros Hi. unfold slice. rewrite byteAt_firstn by assumption. apply byteAt_skipn.
Qed.

Lemma readUInt16BE_slice (b : Buffer) (s e i : nat) :
  i + 1 < e - s -> readUInt16BE (slice b s e) i = readUInt16BE b (s + i).
Proof.
  intros Hi. unfold slice. rewrite readUInt16BE_firstn by assumption.
  apply readUInt16BE_skipn.
Qed.

(** Whatever the buffer holds, a packet that the loop writes is a
    piece of the buffer with a version of 6 and a payload length field
    that is the size of its payload. *)
Lemma processLoop_writes_framed (m : TunnelManager) (fuel : nat) :
  forall (offset : nat) (packet : Buffer),
    In (TunWrite packet) (snd (processLoop fuel m offset)) ->
    validDatagram packet /\
    exists o, offset <= o /\ o + length packet <= length (buffer m) /\
              packet = slice (buffer m) o (o + length packet).
Proof.
  induction fuel as [|fuel IH]; intros offset packet; [intros []|].
  rewrite processLoop_S. cbv zeta.
  destruct (Nat.leb_spec (offset + 40) (length (buffer m))) as [Hfit|]; [|intros []].
  destruct (Z.eqb_spec
              (Z.land (Z.shiftr (byteAt (slice (buffer m) offset (offset + 40)) 0) 4) 15) 6)
    as [Hver | Hver]; cbn [negb].
  2:{ intros Hin. destruct (IH _ _ Hin) as (Hv & o & Ho & Hrest).
      split; [exact Hv|]. exists o. split; [lia | exact Hrest]. }
  set (pl := Z.to_nat (readUInt16BE (slice (buffer m) offset (offset + 40)) 4)).
  destruct (Nat.ltb_spec (length (buffer m)) (offset + 40 + pl)) as [|Hall]; [intros []|].
  destruct (tun m) as [t|]; [|intros [H | []]; discriminate H].
  destruct (processLoop fuel m (offset + 40 + pl)) as [o' later] eqn:Hlater.
  cbn [snd]. intros Hin. apply in_app_or in Hin. destruct Hin as [Hin | Hin].
  - apply forwardPacket_writes in Hin. subst packet.
    assert (Hlen : length (slice (buffer m) offset (offset + 40 + pl)) = 40 + pl)
      by (rewrite slice_length by lia; lia).
    split.
    + unfold validDatagram, versionOf. rewrite Hlen.
      rewrite byteAt_slice in Hver by lia.
      rewrite byteAt_slice by lia.
      split; [lia|]. split; [exact Hver|].
      rewrite readUInt16BE_slice by lia.
      subst pl. rewrite readUInt16BE_slice by lia.
      replace (40 + Z.to_nat (readUInt16BE (buffer m) (offset + 4)) - 40)
        with (Z.to_nat (readUInt16BE (buffer m) (offset + 4))) by lia.
      pose proof (readUInt16BE_range (buffer m) (offset + 4)). lia.
    + exists offset. rewrite Hlen. split; [lia|]. split; [lia|].
      f_equal. lia.
  - specialize (IH (offset + 40 + pl) packet). rewrite Hlater in IH.
    destruct (IH Hin) as (Hv & o & Ho & Hrest).
    split; [exact Hv|]. exists o. split; [lia | exact Hrest].
Qed.

(** X1.  Whatever bytes the buffer of a manager holds, every packet
    that [processBuffer] hands to the interface is a contiguous piece
    of that buffer of at least 40 bytes, whose first byte has version
    6 and whose payload length field is the number of bytes that
    follow its header. *)
Theorem written_packets_are_framed (m : TunnelManager) (packet : Buffer) :
  In packet (interfaceWrites (snd (processBuffer m))) ->
  validDatagram packet /\
  exists o, o + length packet <= length (buffer m) /\
            packet = slice (buffer m) o (o + length packet).
Proof.
  intros Hin. apply In_interfaceWrites in Hin. unfold processBuffer in Hin.
  pose proof (processLoop_writes_framed m (S (length (buffer m))) 0 packet) as Hloop.
  destruct (processLoop (S (length (buffer m))) m 0) as [offset effects].
  cbn [snd] in *. destruct (Hloop Hin) as (Hv & o & _ & Hfit & Hslice).
  split; [exact Hv|]. exists o. now split.
Qed.

Lemma written_packets_are_framed_witness :
  validDatagram udpDatagram /\
  exists o, o + length udpDatagram
            <= length (buffer (with_buffer forwardingManager (sampleJunk ++ udpDatagram))) /\
            udpDatagram =
            slice (buffer (with_buffer forwardingManager (sampleJunk ++ udpDatagram)))
              o (o + length udpDatagram).
Proof.
  apply (written_packets_are_framed
           (with_buffer forwardingManager (sampleJunk ++ udpDatagram)) udpDatagram).
  vm_compute. left. reflexivity.
Defined.

(** ** Resynchronisation *)

(** Bytes whose version is not 6 are passed over one by one, as long
    as a header's worth of bytes follows. *)
Lemma processLoop_junk (m : TunnelManager) (junk : Buffer) :
  Forall (fun b => nibble b <> 6%Z) junk ->
  forall (fuel : nat) (pre rest : Buffer),
    buffer m = pre ++ junk ++ rest ->
    40 <= length rest ->
    processLoop (length junk + fuel) m (length pre) =
    processLoop fuel m (length pre + length junk).
Proof.
  induction 1 as [|b junk Hb _ IH]; intros fuel pre rest Hbuf Hrest.
  - cbn [length]. now rewrite Nat.add_0_r.
  - cbn [length Nat.add]. rewrite processLoop_S. cbv zeta.
    assert (Hfit : (length pre + 40 <=? length (buffer m)) = true).
    { apply Nat.leb_le. rewrite Hbuf, !length_app. cbn [length]. lia. }
    rewrite Hfit.
    assert (Hbyte : byteAt (slice (buffer m) (length pre) (length pre + 40)) 0 = u8 b).
    { rewrite byteAt_slice by lia. rewrite Hbuf, Nat.add_0_r.
      unfold byteAt. rewrite app_nth2 by lia. now rewrite Nat.sub_diag. }
    rewrite Hbyte. fold (nibble b).
    destruct (Z.eqb_spec (nibble b) 6) as [|_]; [contradiction|]. cbn [negb].
    specialize (IH fuel (pre ++ [b]) rest).
    rewrite length_app in IH. cbn [length] in IH.
    rewrite IH; [f_equal; lia | | assumption].
    rewrite Hbuf, <- app_assoc. reflexivity.
Qed.

(** X2.  Bytes in front of a stream of valid datagrams, none of which
    has a version of 6 in its upper half, are skipped: on a manager
    with an open interface, [processBuffer] writes exactly the
    datagrams that follow them and keeps what is left of the stream. *)
Theorem resynchronisation_skips_junk
    (m : TunnelManager) (t : TunTap.t) (junk : Buffer) (d : Buffer)
    (datagrams : list Buffer) (p : Buffer) :
  tun m = Some t ->
  TunTap.writeThrows t = false ->
  Forall (fun b => nibble b <> 6%Z) junk ->
  Forall validDatagram (d :: datagrams) ->
  (p = [] \/ exists s, s <> [] /\ validDatagram (p ++ s)) ->
  buffer m = junk ++ concat (d :: datagrams) ++ p ->
  interfaceWrites (snd (processBuffer m)) = d :: datagrams /\
  buffer (fst (processBuffer m)) = p.
Proof.
  intros Ht Hw Hjunk Hds Hp Hbuf. unfold processBuffer.
  assert (Hd40 : 40 <= length (concat (d :: datagrams) ++ p)).
  { inversion Hds as [|x l (Hlen & _) _]; subst. cbn [concat].
    rewrite !length_app. lia. }
  pose proof (concat_length_ge _ Hds) as Hcount.
  assert (Hfuel : S (length (buffer m)) =
                  length junk + (S (length (buffer m)) - length junk)).
  { rewrite Hbuf, !length_app. lia. }
  rewrite Hfuel.
  pose proof (processLoop_junk m junk Hjunk (S (length (buffer m)) - length junk)
                [] (concat (d :: datagrams) ++ p) Hbuf Hd40) as Hskip.
  change (length (@nil byte)) with 0 in Hskip. rewrite Nat.add_0_l in Hskip.
  rewrite Hskip.
  rewrite (processLoop_datagrams m t (d :: datagrams) Ht Hds _ junk p); try assumption.
  2:{ rewrite Hbuf, !length_app. lia. }
  cbn [fst snd]. split; [now apply interfaceWrites_datagrams|].
  assert (Hpos : 0 < length junk + length (concat (d :: datagrams))).
  { rewrite length_app in Hd40. cbn [concat] in *. rewrite length_app in *.
    inversion Hds as [|x l (Hlen & _) _]; subst. lia. }
  destruct (Nat.ltb_spec 0 (length junk + length (concat (d :: datagrams)))); [|lia].
  cbn [buffer with_buffer]. unfold sliceFrom. rewrite Hbuf, app_assoc.
  rewrite <- length_app. apply skipn_app_exact.
Qed.

Lemma resynchronisation_skips_junk_witness :
  interfaceWrites
    (snd (processBuffer (with_buffer forwardingManager
                           (sampleJunk ++ concat (udpDatagram :: [tcpShortDatagram]) ++ []))))
  = udpDatagram :: [tcpShortDatagram] /\
  buffer (fst (processBuffer (with_buffer forwardingManager
                                (sampleJunk ++ concat (udpDatagram :: [tcpShortDatagram]) ++ []))))
  = [].
Proof.
  apply (resynchronisation_skips_junk _ openTun sampleJunk udpDatagram [tcpShortDatagram] []).
  - reflexivity.
  - reflexivity.
  - repeat constructor; discriminate.
  - repeat constructor; apply validDatagramb_spec; reflexivity.
  - now left.
  - reflexivity.
Defined.

(** ** Without an interface *)

Lemma forwardPacket_unavailable (m : TunnelManager) (t : TunTap.t) (packet : Buffer)
    (nextHeader : Z) (s d : string) :
  TunTap.writeThrows t = true ->
  forwardPacket m t packet nextHeader s d = [LogError "Error writing to TUN"].
Proof. intros H. unfold forwardPacket. now rewrite H. Qed.

Lemma processLoop_unavailable (m : TunnelManager) (fuel : nat) :
  interfaceUnavailable m ->
  forall offset : nat,
    interfaceWrites (snd (processLoop fuel m offset)) = [] /\
    recordsOf (snd (processLoop fuel m offset)) = [].
Proof.
  intros Hun. induction fuel as [|fuel IH]; intros offset; [now split|].
  rewrite processLoop_S. cbv zeta.
  destruct (_ <=? _); [|now split].
  destruct (negb _); [apply IH|].
  destruct (_ <? _); [now split|].
  destruct Hun as [Hnone | (t & Hsome & Hthrows)].
  - rewrite Hnone. now split.
  - rewrite Hsome, (forwardPacket_unavailable _ _ _ _ _ _ Hthrows).
    specialize (IH (offset + 40 +
      Z.to_nat (readUInt16BE (slice (buffer m) offset (offset + 40)) 4))).
    destruct (processLoop fuel m _) as [o later]. cbn [snd] in *.
    rewrite interfaceWrites_app, recordsOf_app. cbn. exact IH.
Qed.

(** X3.  A manager that has no interface, or whose interface is not
    open, writes no packet and publishes no record, whatever its
    buffer holds. *)
Theorem no_interface_no_traffic (m : TunnelManager) :
  interfaceUnavailable m ->
  interfaceWrites (snd (processBuffer m)) = [] /\
  recordsOf (snd (processBuffer m)) = [].
Proof.
  intros Hun. unfold processBuffer.
  pose proof (processLoop_unavailable m (S (length (buffer m))) Hun 0) as H.
  destruct (processLoop _ m 0) as [offset effects]. exact H.
Qed.

Lemma no_interface_no_traffic_witness :
  interfaceWrites
    (snd (processBuffer (with_buffer (with_tun forwardingManager (Some closedTun))
                           udpDatagram))) = [] /\
  recordsOf
    (snd (processBuffer (with_buffer (with_tun forwardingManager (Some closedTun))
                           udpDatagram))) = [].
Proof.
  apply no_interface_no_traffic. right. exists closedTun. split; reflexivity.
Defined.

(** X4.  What becomes of the datagrams that cannot be written.  With
    an interface that is not open they are taken out of the buffer all
    the same, so they are lost; without an interface the loop stops in
    front of the first one and the buffer stays as it is. *)
Theorem unwritten_datagrams_dropped_or_kept
    (m : TunnelManager) (d : Buffer) (datagrams : list Buffer) (p : Buffer) :
  Forall validDatagram (d :: datagrams) ->
  (p = [] \/ exists s, s <> [] /\ validDatagram (p ++ s)) ->
  buffer m = concat (d :: datagrams) ++ p ->
  (forall t, tun m = Some t -> TunTap.writeThrows t = true ->
             buffer (fst (processBuffer m)) = p /\
             interfaceWrites (snd (processBuffer m)) = []) /\
  (tun m = None ->
   fst (processBuffer m) = m /\
   snd (processBuffer m) = [LogError "TUN device is null during packet processing"]).
Proof.
  intros Hds Hp Hbuf. split.
  - intros t Ht Hthrows.
    rewrite (processBuffer_datagrams m t (d :: datagrams) p Ht Hds Hbuf Hp).
    split; [reflexivity|]. cbn [snd].
    assert (Hun : interfaceUnavailable m) by (right; eauto).
    pose proof (processLoop_unavailable m (S (length (buffer m))) Hun 0) as [Hw _].
    pose proof (processBuffer_datagrams m t (d :: datagrams) p Ht Hds Hbuf Hp) as Hpb.
    unfold processBuffer in Hpb.
    destruct (processLoop (S (length (buffer m))) m 0) as [offset effects].
    inversion Hpb; subst. exact Hw.
  - intros Hnone. unfold processBuffer. rewrite processLoop_S. cbv zeta.
    inversion Hds as [|x l Hd _]; subst. destruct Hd as (Hlen & Hver & Hpl).
    cbn [concat] in Hbuf. rewrite <- app_assoc in Hbuf.
    assert (Hfit : (0 + 40 <=? length (buffer m)) = true).
    { apply Nat.leb_le. rewrite Hbuf, !length_app. lia. }
    rewrite Hfit.
    assert (Hh : slice (buffer m) 0 (0 + 40) = firstn 40 d).
    { rewrite Hbuf. apply (header_at [] d (concat datagrams ++ p) Hlen). }
    rewrite Hh, byteAt_firstn by lia. fold (versionOf d). rewrite Hver.
    cbn [Z.eqb negb Pos.eqb]. rewrite readUInt16BE_firstn by lia.
    rewrite Hpl, Nat2Z.id.
    assert (Hall : (length (buffer m) <? 0 + 40 + (length d - 40)) = false).
    { apply Nat.ltb_ge. rewrite Hbuf, !length_app. lia. }
    rewrite Hall, Hnone. cbn. split; reflexivity.
Qed.

Lemma unwritten_datagrams_dropped_or_kept_witness :
  buffer (fst (processBuffer
                 (with_buffer (with_tun forwardingManager (Some closedTun))
                    (concat (udpDatagram :: []) ++ [])))) = [] /\
  fst (processBuffer (with_buffer (with_tun forwardingManager None)
                        (concat (udpDatagram :: []) ++ [])))
  = with_buffer (with_tun forwardingManager None) (concat (udpDatagram :: []) ++ []).
Proof.
  assert (Hv : Forall validDatagram (udpDatagram :: [])).
  { repeat constructor; apply validDatagramb_spec; reflexivity. }
  split.
  - apply (unwritten_datagrams_dropped_or_kept
             (with_buffer (with_tun forwardingManager (Some closedTun))
                (concat (udpDatagram :: []) ++ []))
             udpDatagram [] [] Hv (or_introl eq_refl) eq_refl) with (t := closedTun);
      reflexivity.
  - apply (unwritten_datagrams_dropped_or_kept
             (with_buffer (with_tun forwardingManager None)
                (concat (udpDatagram :: []) ++ []))
             udpDatagram [] [] Hv (or_introl eq_refl) eq_refl).
    reflexivity.
Defined.

(** ** The buffer across calls *)

Lemma forwardPacket_interfaceWrites (m : TunnelManager) (t : TunTap.t) (packet : Buffer)
    (nextHeader : Z) (s d : string) :
  interfaceWrites (forwardPacket m t packet nextHeader s d) =
  if TunTap.writeThrows t then [] else [packet].
Proof.
  unfold forwardPacket. destruct (TunTap.writeThrows t); [reflexivity|].
  cbn [interfaceWrites flat_map app]. f_equal. cbv zeta.
  repeat match goal with
         | |- context [if ?c then _ else _] => destruct c
         end; try reflexivity; apply interfaceWrites_publish.
Qed.

Lemma writtenBytes_app (a b : list Effect) :
  writtenBytes (a ++ b) = writtenBytes a + writtenBytes b.
Proof.
  unfold writtenBytes. now rewrite interfaceWrites_app, map_app, list_sum_app.
Qed.

(** The loop moves forward only, stays within the buffer, and writes
    no more bytes than it passes. *)
Lemma processLoop_advances (m : TunnelManager) (fuel : nat) :
  forall offset : nat,
    offset <= fst (processLoop fuel m offset) /\
    (offset <= length (buffer m) -> fst (processLoop fuel m offset) <= length (buffer m)) /\
    writtenBytes (snd (processLoop fuel m offset)) <= fst (processLoop fuel m offset) - offset.
Proof.
  induction fuel as [|fuel IH]; intros offset.
  - cbn. repeat split; lia.
  - rewrite processLoop_S. cbv zeta.
    destruct (Nat.leb_spec (offset + 40) (length (buffer m))) as [Hfit|];
      [|cbn; repeat split; lia].
    destruct (negb _).
    { destruct (IH (offset + 1)) as (H1 & H2 & H3). repeat split; lia. }
    set (pl := Z.to_nat (readUInt16BE (slice (buffer m) offset (offset + 40)) 4)).
    destruct (Nat.ltb_spec (length (buffer m)) (offset + 40 + pl)) as [|Hall];
      [cbn; repeat split; lia|].
    destruct (tun m) as [t|]; [|cbn; repeat split; lia].
    destruct (IH (offset + 40 + pl)) as (H1 & H2 & H3).
    destruct (processLoop fuel m (offset + 40 + pl)) as [o later]. cbn [fst snd] in *.
    rewrite writtenBytes_app. unfold writtenBytes at 1.
    rewrite forwardPacket_interfaceWrites.
    assert (Hlen : length (slice (buffer m) offset (offset + 40 + pl)) = 40 + pl)
      by (rewrite slice_length by lia; lia).
    destruct (TunTap.writeThrows t); unfold list_sum; cbn [map fold_right];
      repeat split; lia.
Qed.

(** [processBuffer] in one form for both branches of its last test. *)
Lemma processBuffer_skipn (m : TunnelManager) :
  processBuffer m =
  (with_buffer m (skipn (fst (processLoop (S (length (buffer m))) m 0)) (buffer m)),
   snd (processLoop (S (length (buffer m))) m 0)).
Proof.
  unfold processBuffer.
  destruct (processLoop (S (length (buffer m))) m 0) as [[|o] effects]; cbn [fst snd].
  - cbn [Nat.ltb Nat.leb skipn]. now rewrite with_buffer_eta.
  - reflexivity.
Qed.

(** X5.  [processBuffer] takes a prefix off the buffer and changes no
    other field of the manager; the packets it hands to the interface
    have no more bytes together than the prefix it takes off. *)
Theorem processBuffer_drops_a_prefix (m : TunnelManager) :
  exists k : nat,
    k <= length (buffer m) /\
    fst (processBuffer m) = with_buffer m (skipn k (buffer m)) /\
    writtenBytes (snd (processBuffer m)) <= k.
Proof.
  rewrite processBuffer_skipn. cbn [fst snd].
  destruct (processLoop_advances m (S (length (buffer m))) 0) as (_ & H2 & H3).
  exists (fst (processLoop (S (length (buffer m))) m 0)).
  repeat split; [apply H2 | ]; lia.
Qed.

(** ** Chunk boundaries *)

Lemma slice_app_l (b c : Buffer) (s e : nat) :
  e <= length b -> slice (b ++ c) s e = slice b s e.
Proof.
  intros H. unfold slice. rewrite skipn_app, firstn_app, length_skipn.
  replace (e - s - (length b - s)) with 0 by lia.
  rewrite firstn_O. apply app_nil_r.
Qed.

Lemma slice_skipn (b : Buffer) (k s e : nat) :
  slice (skipn k b) s e = slice b (k + s) (k + e).
Proof.
  unfold slice. rewrite skipn_skipn. f_equal; [lia | f_equal; lia].
Qed.

Lemma pair_eta_nil (x : nat * list Effect) : x = (fst x, [] ++ snd x).
Proof. now destruct x. Qed.

(** More bytes behind the buffer leave what the loop has done as it
    is: on the longer buffer it does the same up to where it stopped,
    and goes on from there. *)
Lemma processLoop_app (m : TunnelManager) (t : TunTap.t) (c : Buffer) :
  tun m = Some t ->
  forall (fuel fuel2 fuel3 offset o : nat) (e : list Effect),
    length (buffer m) < offset + fuel ->
    length (buffer m ++ c) < offset + fuel2 ->
    length (buffer m ++ c) < o + fuel3 ->
    processLoop fuel m offset = (o, e) ->
    processLoop fuel2 (with_buffer m (buffer m ++ c)) offset =
    (fst (processLoop fuel3 (with_buffer m (buffer m ++ c)) o),
     e ++ snd (processLoop fuel3 (with_buffer m (buffer m ++ c)) o)).
Proof.
  intros Ht. set (m2 := with_buffer m (buffer m ++ c)).
  assert (Hb2 : buffer m2 = buffer m ++ c) by reflexivity.
  assert (Ht2 : tun m2 = Some t) by exact Ht.
  assert (Hstop : forall fuel2 fuel3 offset,
             length (buffer m ++ c) < offset + fuel2 ->
             length (buffer m ++ c) < offset + fuel3 ->
             processLoop fuel2 m2 offset =
             (fst (processLoop fuel3 m2 offset), [] ++ snd (processLoop fuel3 m2 offset))).
  { intros f2 f3 off H2 H3. rewrite (processLoop_fuel m2 f2 f3 off) by (rewrite Hb2; lia).
    apply pair_eta_nil. }
  induction fuel as [|fuel IH]; intros fuel2 fuel3 offset o e H1 H2 H3 Hrun.
  - cbn in Hrun. inversion Hrun; subst. now apply Hstop.
  - rewrite processLoop_S in Hrun. cbv zeta in Hrun.
    destruct (Nat.leb_spec (offset + 40) (length (buffer m))) as [Hfit|];
      [|inversion Hrun; subst; now apply Hstop].
    rewrite length_app in H2, H3.
    destruct fuel2 as [|fuel2]; [lia|].
    assert (Hfit2 : (offset + 40 <=? length (buffer m2)) = true).
    { apply Nat.leb_le. rewrite Hb2, length_app. lia. }
    assert (Hh : slice (buffer m2) offset (offset + 40)
                 = slice (buffer m) offset (offset + 40)).
    { rewrite Hb2. apply slice_app_l. lia. }
    destruct (negb (Z.land (Z.shiftr (byteAt (slice (buffer m) offset (offset + 40)) 0) 4) 15
                    =? 6)%Z) eqn:Hver.
    { rewrite processLoop_S. cbv zeta. rewrite Hfit2, Hh, Hver.
      apply (IH fuel2 fuel3 (offset + 1) o e); try assumption; try lia;
        rewrite length_app; lia. }
    set (pl := Z.to_nat (readUInt16BE (slice (buffer m) offset (offset + 40)) 4)) in *.
    destruct (Nat.ltb_spec (length (buffer m)) (offset + 40 + pl)) as [|Hall];
      [inversion Hrun; subst; apply Hstop; rewrite length_app; lia|].
    rewrite Ht in Hrun.
    destruct (processLoop fuel m (offset + 40 + pl)) as [o1 l1] eqn:Hlater.
    inversion Hrun; subst o e. clear Hrun.
    rewrite processLoop_S. cbv zeta. rewrite Hfit2, Hh, Hver. fold pl.
    assert (Hall2 : (length (buffer m2) <? offset + 40 + pl) = false).
    { apply Nat.ltb_ge. rewrite Hb2, length_app. lia. }
    assert (Hp : slice (buffer m2) offset (offset + 40 + pl)
                 = slice (buffer m) offset (offset + 40 + pl)).
    { rewrite Hb2. apply slice_app_l. lia. }
    rewrite Hall2, Hp, Ht2.
    rewrite (IH fuel2 fuel3 (offset + 40 + pl) o1 l1);
      try assumption; try lia; try (rewrite length_app; lia).
    cbn [fst snd]. now rewrite app_assoc.
Qed.

(** Taking a prefix off the buffer moves the offsets of the loop and
    nothing else. *)
Lemma processLoop_shift (m : TunnelManager) (k : nat) :
  k <= length (buffer m) ->
  forall fuel offset : nat,
    processLoop fuel m (k + offset) =
    (k + fst (processLoop fuel (with_buffer m (skipn k (buffer m))) offset),
     snd (processLoop fuel (with_buffer m (skipn k (buffer m))) offset)).
Proof.
  intros Hk. set (m' := with_buffer m (skipn k (buffer m))).
  assert (Hb' : buffer m' = skipn k (buffer m)) by reflexivity.
  assert (Ht' : tun m' = tun m) by reflexivity.
  induction fuel as [|fuel IH]; intros offset; [reflexivity|].
  rewrite !processLoop_S. cbv zeta.
  rewrite Hb', length_skipn, Ht'.
  assert (Hh : slice (skipn k (buffer m)) offset (offset + 40)
               = slice (buffer m) (k + offset) (k + offset + 40)).
  { rewrite slice_skipn. f_equal. lia. }
  rewrite Hh.
  destruct (Nat.leb_spec (k + offset + 40) (length (buffer m))) as [Hfit|Hshort];
    destruct (Nat.leb_spec (offset + 40) (length (buffer m) - k)); try lia;
    [|reflexivity].
  destruct (negb _).
  { replace (k + offset + 1) with (k + (offset + 1)) by lia. apply IH. }
  set (pl := Z.to_nat (readUInt16BE (slice (buffer m) (k + offset) (k + offset + 40)) 4)).
  assert (Hp : slice (skipn k (buffer m)) offset (offset + 40 + pl)
               = slice (buffer m) (k + offset) (k + offset + 40 + pl)).
  { rewrite slice_skipn. f_equal. lia. }
  rewrite Hp.
  destruct (Nat.ltb_spec (length (buffer m)) (k + offset + 40 + pl));
    destruct (Nat.ltb_spec (length (buffer m) - k) (offset + 40 + pl)); try lia;
    [reflexivity|].
  destruct (tun m) as [t|]; [|reflexivity].
  replace (k + offset + 40 + pl) with (k + (offset + 40 + pl)) by lia.
  rewrite IH.
  destruct (processLoop fuel m' (offset + 40 + pl)) as [o later]. reflexivity.
Qed.

(** A chunk cut in two at any place gives the same as the chunk in one
    piece. *)
Lemma onData_app (m : TunnelManager) (t : TunTap.t) (a b : Buffer) :
  tun m = Some t ->
  cancelled m = false ->
  onData m (a ++ b) =
  (fst (onData (fst (onData m a)) b), snd (onData m a) ++ snd (onData (fst (onData m a)) b)).
Proof.
  intros Ht Hc.
  set (M := with_buffer m (buffer m ++ a)).
  set (o1 := fst (processLoop (S (length (buffer M))) M 0)).
  set (e1 := snd (processLoop (S (length (buffer M))) M 0)).
  assert (H1 : onData m a = (with_buffer m (skipn o1 (buffer m ++ a)), e1)).
  { unfold onData. rewrite Hc. fold M. apply processBuffer_skipn. }
  rewrite H1. cbn [fst snd].
  assert (H2 : onData (with_buffer m (skipn o1 (buffer m ++ a))) b =
               processBuffer (with_buffer m (skipn o1 (buffer m ++ a) ++ b))).
  { unfold onData. cbn [cancelled with_buffer]. now rewrite Hc. }
  assert (H0 : onData m (a ++ b) = processBuffer (with_buffer m ((buffer m ++ a) ++ b))).
  { unfold onData. now rewrite Hc, app_assoc. }
  rewrite H2, H0. clear H0 H1 H2.
  destruct (processLoop_advances M (S (length (buffer M))) 0) as (_ & Ho1 & _).
  fold o1 in Ho1. specialize (Ho1 ltac:(lia)).
  change (buffer M) with (buffer m ++ a) in *.
  assert (Hcat : skipn o1 (buffer m ++ a) ++ b = skipn o1 ((buffer m ++ a) ++ b)).
  { rewrite (skipn_app o1 (buffer m ++ a)).
    replace (o1 - length (buffer m ++ a)) with 0 by lia. reflexivity. }
  rewrite Hcat.
  set (B := (buffer m ++ a) ++ b).
  rewrite !processBuffer_skipn. cbn [fst snd buffer with_buffer].
  set (M' := with_buffer m B).
  set (M1 := with_buffer m (skipn o1 B)).
  assert (Hrun : processLoop (S (length (buffer m ++ a))) M 0 = (o1, e1))
    by apply surjective_pairing.
  pose proof (processLoop_app M t b Ht (S (length (buffer m ++ a))) (S (length B))
                (S (length (skipn o1 B))) 0 o1 e1) as HA.
  change (with_buffer M (buffer M ++ b)) with M' in HA.
  change (buffer M ++ b) with B in HA.
  rewrite HA; [| cbn [buffer with_buffer M]; lia | lia | | exact Hrun].
  2:{ rewrite length_skipn. lia. }
  assert (Hk : o1 <= length (buffer M')).
  { cbn [buffer with_buffer M']. unfold B. rewrite length_app. lia. }
  pose proof (processLoop_shift M' o1 Hk (S (length (skipn o1 B))) 0) as HB.
  rewrite Nat.add_0_r in HB.
  change (with_buffer M' (skipn o1 (buffer M'))) with M1 in HB.
  rewrite HB. cbn [fst snd].
  rewrite skipn_skipn.
  change (with_buffer M' ?x) with (with_buffer m x).
  change (with_buffer M1 ?x) with (with_buffer m x).
  f_equal. f_equal. f_equal. lia.
Qed.

Lemma onData_interface (m : TunnelManager) (data : Buffer) :
  tun (fst (onData m data)) = tun m /\ cancelled (fst (onData m data)) = cancelled m.
Proof.
  unfold onData. destruct (cancelled m) eqn:Hc; [now split|].
  rewrite processBuffer_skipn. cbn. now split.
Qed.

(** X6.  Where the connection cuts the byte stream is immaterial: for
    a manager with an interface that is not cancelled, whatever its
    buffer holds and whatever the bytes are, feeding chunks one after
    the other gives the same effects and leaves the same manager as
    feeding their concatenation at once. *)
Theorem chunking_is_immaterial (t : TunTap.t) (chunks : list Buffer) :
  forall m : TunnelManager,
    tun m = Some t ->
    cancelled m = false ->
    chunks <> [] ->
    feed m chunks = onData m (concat chunks).
Proof.
  induction chunks as [|c chunks IH]; intros m Ht Hc Hne; [congruence|].
  destruct chunks as [|c' chunks].
  - cbn [feed concat]. rewrite app_nil_r.
    destruct (onData m c) as [m1 e1]. now rewrite app_nil_r.
  - change (feed m (c :: c' :: chunks))
      with (let (m1, e1) := onData m c in
            let (m2, e2) := feed m1 (c' :: chunks) in (m2, e1 ++ e2)).
    change (concat (c :: c' :: chunks)) with (c ++ concat (c' :: chunks)).
    rewrite (onData_app m t _ _ Ht Hc).
    destruct (onData_interface m c) as [Ht1 Hc1].
    destruct (onData m c) as [m1 e1]. cbn [fst snd] in *.
    rewrite IH; [| congruence | congruence | discriminate].
    destruct (onData m1 (concat (c' :: chunks))) as [m2 e2]. reflexivity.
Qed.

Lemma chunking_is_immaterial_witness :
  feed (with_buffer forwardingManager sampleJunk) sampleChunks
  = onData (with_buffer forwardingManager sampleJunk) (concat sampleChunks).
Proof.
  apply (chunking_is_immaterial openTun sampleChunks
           (with_buffer forwardingManager sampleJunk)).
  - reflexivity.
  - reflexivity.
  - discriminate.
Defined.

(** ** After stop *)

Lemma stop_stopped (m : TunnelManager) :
  stopped m -> stop m = (m, match cleanupPromise m with
                            | Some p => p
                            | None => CleanupCompletion 0
                            end, []).
Proof.
  intros [_ Hp]. unfold stop. destruct (cleanupPromise m); [reflexivity | congruence].
Qed.

Lemma step_stopped (w : World) (e : Event) :
  stopped (mgr w) -> stopped (mgr (step w e)).
Proof.
  intros Hs. destruct (isStop e) eqn:He.
  - rewrite (step_stop_lifecycle w e He), (stop_stopped _ Hs). exact Hs.
  - pose proof (step_lifecycle w e He) as Hl. unfold lifecycle in Hl.
    injection Hl as Hp _ Hc. destruct Hs as [Hc0 Hp0]. split; congruence.
Qed.

Lemma setupInterfaceEffects_cases (p : Platform) (k : AcquireOutcome)
    (execOk : string -> bool) (info : TunnelInfo) :
  setupInterfaceEffects p k execOk info = [] \/
  setupInterfaceEffects p k execOk info = [TunClose].
Proof.
  unfold setupInterfaceEffects.
  destruct (TunTap.open k (TunTap.create "")) as [t r]. cbv zeta.
  destruct (TunTap.isOpen t);
    repeat match goal with
           | |- context [match ?x with _ => _ end] => destruct x
           end; auto.
Qed.

Lemma setUpCloses_cases (e : Event) :
  setUpCloses e = [] \/ setUpCloses e = [TunClose].
Proof.
  destruct e; cbn [setUpCloses]; auto using setupInterfaceEffects_cases.
Qed.

Lemma setUpCloses_no_traffic (es : list Event) :
  filter isTraffic (flat_map setUpCloses es) = [].
Proof.
  induction es as [|e es IH]; [reflexivity|].
  cbn [flat_map]. rewrite filter_app, IH, app_nil_r.
  destruct (setUpCloses_cases e) as [-> | ->]; reflexivity.
Qed.

(** A step of a stopped manager adds nothing to the trace but the
    close of the handle of a set-up that fails. *)
Lemma step_silent (w : World) (e : Event) :
  stopped (mgr w) -> trace (step w e) = trace w ++ setUpCloses e.
Proof.
  intros Hs. pose proof Hs as [Hc Hp].
  destruct e; cbn [step setUpCloses]; rewrite ?app_nil_r; try reflexivity.
  - destruct (nth_error (streams w) sid) as [s0|]; [|reflexivity].
    destruct (next sid (mgr w) s0) as [m' s1]. reflexivity.
  - unfold onData. rewrite Hc. cbn [trace]. apply app_nil_r.
  - cbn [trace]. unfold onTick. rewrite Hc.
    destruct (negb (readInterval (mgr w))); apply app_nil_r.
  - rewrite (stop_stopped _ Hs). cbn [trace]. apply app_nil_r.
  - rewrite (stop_stopped _ Hs). cbn [trace]. apply app_nil_r.
Qed.

Lemma run_silent (es : list Event) :
  forall w : World,
    stopped (mgr w) ->
    trace (run w es) = trace w ++ flat_map setUpCloses es.
Proof.
  induction es as [|e es IH]; intros w Hs.
  - cbn. now rewrite app_nil_r.
  - cbn [run fold_left flat_map]. fold (run (step w e) es).
    rewrite (IH (step w e) (step_stopped w e Hs)), (step_silent w e Hs).
    now rewrite app_assoc.
Qed.

Lemma singleShot_new : singleShot (mgr newWorld).
Proof. now left. Qed.

Lemma run_app (w : World) (es more : list Event) :
  run w (es ++ more) = run (run w es) more.
Proof. apply fold_left_app. Qed.

(** X7.  Once [stop] has been called, the manager forwards nothing
    more: whatever happens afterwards, data from the device, ticks of
    the read loop, further calls, the trace grows by nothing but the
    closes of the handles of set-ups that fail.  Nothing is written to
    the interface or to the device connection, nothing is read,
    no event is emitted and no consumer is called. *)
Theorem stop_silences_manager (history more : list Event) :
  1 <= countStops history ->
  trace (run newWorld (history ++ more))
    = trace (run newWorld history) ++ flat_map setUpCloses more /\
  filter isTraffic (trace (run newWorld (history ++ more)))
    = filter isTraffic (trace (run newWorld history)).
Proof.
  intros Hn.
  assert (Htr : trace (run newWorld (history ++ more))
                = trace (run newWorld history) ++ flat_map setUpCloses more).
  { rewrite run_app. apply run_silent.
    pose proof (run_stopped history newWorld singleShot_new Hn) as Hl.
    unfold lifecycle in Hl. injection Hl as Hp _ Hc.
    split; [exact Hc | congruence]. }
  split; [exact Htr|].
  now rewrite Htr, filter_app, setUpCloses_no_traffic, app_nil_r.
Qed.

Lemma stop_silences_manager_witness :
  trace (run newWorld
           (sampleHistory ++
            [EvData udpDatagram; EvTick (Returns (VBuffer udpDatagram));
             EvSetupInterface Linux (Acquired 7 "tun2") (fun _ => false) sampleInfo]))
  = trace (run newWorld sampleHistory) ++ [TunClose] /\
  filter isTraffic
    (trace (run newWorld
              (sampleHistory ++
               [EvData udpDatagram; EvTick (Returns (VBuffer udpDatagram));
                EvSetupInterface Linux (Acquired 7 "tun2") (fun _ => false) sampleInfo])))
  = filter isTraffic (trace (run newWorld sampleHistory)).
Proof.
  apply (stop_silences_manager sampleHistory
           [EvData udpDatagram; EvTick (Returns (VBuffer udpDatagram));
            EvSetupInterface Linux (Acquired 7 "tun2") (fun _ => false) sampleInfo]).
  vm_compute. lia.
Defined.

Lemma Consumer_eqb_eq (a b : Consumer) : Consumer_eqb a b = true <-> a = b.
Proof.
  destruct a, b; cbn; rewrite ?Nat.eqb_eq; split; intros H;
    try discriminate; congruence.
Qed.

Lemma set_delete_out (c : Consumer) (l : list Consumer) : ~ In c (set_delete c l).
Proof.
  unfold set_delete. intros H. apply filter_In in H. destruct H as [_ H].
  assert (Hr : Consumer_eqb c c = true) by now apply Consumer_eqb_eq.
  rewrite Hr in H. discriminate.
Qed.

(** X8.  A packet stream whose generator is suspended, at its start or
    at a [yield], when the tunnel is stopped: its next [next()] ends
    the iteration, the records still in its queue are not yielded, and
    its consumer is no longer registered. *)
Theorem stream_finishes_after_stop (w : World) (sid : nat) (s : PacketStream) :
  cancelled (mgr w) = true ->
  nth_error (streams w) sid = Some s ->
  phase s = SuspendedStart \/ phase s = SuspendedYield ->
  exists s',
    nth_error (streams (step w (EvNext sid))) sid = Some s' /\
    phase s' = Completed /\
    yielded s' = yielded s /\
    queue s' = queue s /\
    ~ In (StreamConsumer sid) (packetConsumers (mgr (step w (EvNext sid)))).
Proof.
  intros Hc Hs Hp. cbn [step]. rewrite Hs. unfold next, runLoop.
  destruct Hp as [Hp | Hp]; rewrite Hp;
    cbn [addPacketConsumer with_packetConsumers cancelled]; rewrite Hc;
    cbn [streams mgr]; eexists;
    (split; [apply (update_nth_same _ _ sid s Hs)|]);
    cbn [phase yielded queue removePacketConsumer with_packetConsumers packetConsumers];
    repeat split; apply set_delete_out.
Qed.

Lemma stream_finishes_after_stop_witness :
  exists s',
    nth_error (streams (step stoppedWorld (EvNext 0))) 0 = Some s' /\
    phase s' = Completed /\
    yielded s' = yielded newPacketStream /\
    queue s' = queue newPacketStream /\
    ~ In (StreamConsumer 0) (packetConsumers (mgr (step stoppedWorld (EvNext 0)))).
Proof.
  apply (stream_finishes_after_stop stoppedWorld 0 newPacketStream).
  - reflexivity.
  - reflexivity.
  - now left.
Defined.

(** ** Packet streams *)

Lemma streamStep_invariant (sid : nat) (st : TunnelManager * PacketStream)
    (calls : nat) (handed : list PacketData) (op : StreamOp) :
  streamInvariant st calls handed ->
  streamInvariant (streamStep sid st op)
    (calls + nextCalls [op]) (handed ++ handedPackets [op]).
Proof.
  destruct st as [m s]. unfold streamInvariant. cbn [fst snd].
  intros (Hc & Hh & Hph). destruct op as [|p].
  - cbn [streamStep fst snd nextCalls handedPackets filter flat_map length app].
    rewrite app_nil_r. unfold next, runLoop.
    destruct (phase s) eqn:Hp; try contradiction;
      cbn [addPacketConsumer with_packetConsumers cancelled]; rewrite ?Hc.
    + destruct Hph as (Hr & Hn & Hl).
      destruct (queue s) as [|x q] eqn:Hq; cbn [fst snd yielded queue phase resolver pendingNext].
      * rewrite app_nil_r in *. repeat split; try assumption; lia.
      * rewrite <- app_assoc. repeat split; try assumption.
        rewrite length_app. cbn [length]. lia.
    + destruct Hph as (Hr & Hn & Hl).
      destruct (queue s) as [|x q] eqn:Hq; cbn [fst snd yielded queue phase resolver pendingNext].
      * rewrite app_nil_r in *. repeat split; try assumption; lia.
      * rewrite <- app_assoc. repeat split; try assumption.
        rewrite length_app. cbn [length]. lia.
    + destruct Hph as (Hr & Hq & Hl).
      cbn [fst snd yielded queue phase resolver pendingNext].
      repeat split; try assumption; lia.
  - cbn [streamStep fst snd nextCalls handedPackets filter flat_map length app].
    rewrite Nat.add_0_r. unfold stream_onPacket.
    destruct (phase s) eqn:Hp; try contradiction.
    + destruct Hph as (Hr & Hn & Hl). rewrite Hr.
      cbn [fst snd yielded queue phase resolver pendingNext]. rewrite ?Hp.
      rewrite app_assoc, Hh. repeat split; assumption.
    + destruct Hph as (Hr & Hn & Hl). rewrite Hr.
      cbn [fst snd yielded queue phase resolver pendingNext]. rewrite ?Hp.
      rewrite app_assoc, Hh. repeat split; assumption.
    + destruct Hph as (Hr & Hq & Hl). rewrite Hr.
      rewrite Hq, app_nil_r in Hh. rewrite Hh in Hl.
      destruct (pendingNext s) as [|n] eqn:Hn;
        cbn [fst snd yielded queue phase resolver pendingNext];
        rewrite Hq, app_nil_r, Hh; repeat split; try assumption;
        rewrite length_app; cbn [length]; lia.
Qed.

Lemma nextCalls_cons (op : StreamOp) (ops : list StreamOp) :
  nextCalls (op :: ops) = nextCalls [op] + nextCalls ops.
Proof. unfold nextCalls. cbn [filter]. destruct op; reflexivity. Qed.

Lemma handedPackets_cons (op : StreamOp) (ops : list StreamOp) :
  handedPackets (op :: ops) = handedPackets [op] ++ handedPackets ops.
Proof. unfold handedPackets. cbn [flat_map]. now rewrite app_nil_r. Qed.

Lemma streamSteps_invariant (sid : nat) (ops : list StreamOp) :
  forall (st : TunnelManager * PacketStream) (calls : nat) (handed : list PacketData),
    streamInvariant st calls handed ->
    streamInvariant (fold_left (streamStep sid) ops st)
      (calls + nextCalls ops) (handed ++ handedPackets ops).
Proof.
  induction ops as [|op ops IH]; intros st calls handed Hinv.
  - cbn. now rewrite Nat.add_0_r, app_nil_r.
  - cbn [fold_left]. rewrite nextCalls_cons, handedPackets_cons.
    rewrite Nat.add_assoc, app_assoc. apply IH. now apply streamStep_invariant.
Qed.

(** X9.  A packet stream of a manager that is not cancelled is a
    queue: after any sequence of calls of [next()] and of packets
    handed to its consumer, the records yielded followed by those
    still queued are the packets handed, in their order, and the
    number yielded is the smaller of the number of calls and the
    number of packets. *)
Theorem packet_stream_is_fifo (sid : nat) (m : TunnelManager) (ops : list StreamOp) :
  cancelled m = false ->
  yielded (snd (fold_left (streamStep sid) ops (m, newPacketStream))) ++
  queue (snd (fold_left (streamStep sid) ops (m, newPacketStream))) = handedPackets ops /\
  length (yielded (snd (fold_left (streamStep sid) ops (m, newPacketStream)))) =
  Nat.min (nextCalls ops) (length (handedPackets ops)).
Proof.
  intros Hc.
  assert (H0 : streamInvariant (m, newPacketStream) 0 []).
  { unfold streamInvariant. cbn. repeat split. exact Hc. }
  pose proof (streamSteps_invariant sid ops _ _ _ H0) as Hinv.
  cbn [Nat.add app] in Hinv. unfold streamInvariant in Hinv.
  destruct Hinv as (_ & Hh & Hph). split; [exact Hh|].
  rewrite <- Hh, length_app.
  destruct (phase _); try contradiction.
  - destruct Hph as (_ & _ & Hl). lia.
  - destruct Hph as (_ & _ & Hl). lia.
  - destruct Hph as (_ & Hq & Hl). rewrite Hq. cbn [length]. lia.
Qed.

Lemma packet_stream_is_fifo_witness :
  yielded (snd (fold_left (streamStep 0)
                  [CallNext; CallNext; HandPacket samplePacket; HandPacket samplePacket;
                   HandPacket samplePacket]
                  (forwardingManager, newPacketStream))) ++
  queue (snd (fold_left (streamStep 0)
                [CallNext; CallNext; HandPacket samplePacket; HandPacket samplePacket;
                 HandPacket samplePacket]
                (forwardingManager, newPacketStream)))
  = handedPackets [CallNext; CallNext; HandPacket samplePacket; HandPacket samplePacket;
                   HandPacket samplePacket] /\
  length (yielded (snd (fold_left (streamStep 0)
                          [CallNext; CallNext; HandPacket samplePacket; HandPacket samplePacket;
                           HandPacket samplePacket]
                          (forwardingManager, newPacketStream))))
  = Nat.min (nextCalls [CallNext; CallNext; HandPacket samplePacket; HandPacket samplePacket;
                        HandPacket samplePacket])
            (length (handedPackets [CallNext; CallNext; HandPacket samplePacket;
                                    HandPacket samplePacket; HandPacket samplePacket])).
Proof.
  apply (packet_stream_is_fifo 0 forwardingManager). reflexivity.
Defined.

(** ** The set of consumers *)

Lemma NoDup_snoc (c : Consumer) (l : list Consumer) :
  NoDup l -> ~ In c l -> NoDup (l ++ [c]).
Proof.
  induction 1 as [|x l Hx Hl IH]; intros Hc; cbn.
  - constructor; [intros [] | constructor].
  - constructor.
    + rewrite in_app_iff. intros [H | [H | []]]; [contradiction|].
      apply Hc. now left.
    + apply IH. intros H. apply Hc. now right.
Qed.

Lemma set_add_NoDup (c : Consumer) (l : list Consumer) :
  NoDup l -> NoDup (set_add c l).
Proof.
  intros Hl. unfold set_add. destruct (existsb (Consumer_eqb c) l) eqn:He; [exact Hl|].
  apply NoDup_snoc; [exact Hl|]. intros Hin.
  assert (Ht : existsb (Consumer_eqb c) l = true).
  { apply existsb_exists. exists c. split; [exact Hin | now apply Consumer_eqb_eq]. }
  congruence.
Qed.

Lemma set_delete_NoDup (c : Consumer) (l : list Consumer) :
  NoDup l -> NoDup (set_delete c l).
Proof. apply NoDup_filter. Qed.

Lemma next_NoDup (sid : nat) (m : TunnelManager) (s : PacketStream) :
  NoDup (packetConsumers m) -> NoDup (packetConsumers (fst (next sid m s))).
Proof.
  intros Hm. unfold next, runLoop.
  destruct (phase s); cbn [addPacketConsumer with_packetConsumers cancelled fst];
    try exact Hm; destruct (cancelled m); try (destruct (queue s));
    cbn [fst removePacketConsumer addPacketConsumer with_packetConsumers packetConsumers];
    auto using set_add_NoDup, set_delete_NoDup.
Qed.

Lemma setupInterface_consumers (p : Platform) (k : AcquireOutcome)
    (execOk : string -> bool) (info : TunnelInfo) (m : TunnelManager) :
  packetConsumers (fst (fst (setupInterface p k execOk info m))) = packetConsumers m.
Proof.
  unfold setupInterface.
  destruct (TunTap.open k (TunTap.create "")) as [t r].
  destruct r as [[b|n|[|]|e]|msg]; try reflexivity.
  destruct (TunTap.configure _ _ _ _ t) as [cmds1 [|e1]]; [|reflexivity].
  destruct (TunTap.addRoute _ _ _ t) as [cmds2 [|e2]]; reflexivity.
Qed.

Lemma onData_consumers (m : TunnelManager) (data : Buffer) :
  packetConsumers (fst (onData m data)) = packetConsumers m.
Proof.
  unfold onData. destruct (cancelled m); [reflexivity|].
  rewrite processBuffer_skipn. reflexivity.
Qed.

Lemma stop_NoDup (m : TunnelManager) :
  NoDup (packetConsumers m) -> NoDup (packetConsumers (fst (fst (stop m)))).
Proof.
  intros Hm. unfold stop. destruct (cleanupPromise m); [exact Hm|].
  unfold _performStop. destruct (deviceConn m) as [[[|]]|]; cbn; constructor.
Qed.

Lemma step_NoDup (w : World) (e : Event) :
  NoDup (packetConsumers (mgr w)) -> NoDup (packetConsumers (mgr (step w e))).
Proof.
  intros Hw. destruct e; cbn [step mgr]; try exact Hw.
  - now apply set_add_NoDup.
  - now apply set_delete_NoDup.
  - destruct (nth_error (streams w) sid) as [s|]; [|exact Hw].
    pose proof (next_NoDup sid (mgr w) s Hw) as Hn.
    destruct (next sid (mgr w) s) as [m' s']. exact Hn.
  - now rewrite setupInterface_consumers.
  - unfold startForwarding. destruct (tun (mgr w)); exact Hw.
  - pose proof (onData_consumers (mgr w) chunk) as Hd.
    destruct (onData (mgr w) chunk) as [m' effects]. cbn [fst mgr] in *. now rewrite Hd.
  - pose proof (stop_NoDup (mgr w) Hw) as Hs.
    destruct (stop (mgr w)) as [[m' pr] effects]. exact Hs.
  - pose proof (stop_NoDup (mgr w) Hw) as Hs.
    destruct (stop (mgr w)) as [[m' pr] effects]. exact Hs.
Qed.

Lemma filter_eqb_out (c : Consumer) (l : list Consumer) :
  ~ In c l -> filter (Consumer_eqb c) l = [].
Proof.
  induction l as [|x l IH]; intros Hc; [reflexivity|]. cbn.
  destruct (Consumer_eqb c x) eqn:He.
  - apply Consumer_eqb_eq in He. subst. exfalso. apply Hc. now left.
  - apply IH. intros H. apply Hc. now right.
Qed.

Lemma filter_eqb_NoDup (c : Consumer) (l : list Consumer) :
  NoDup l -> length (filter (Consumer_eqb c) l) <= 1.
Proof.
  induction 1 as [|x l Hx Hl IH]; cbn; [lia|].
  destruct (Consumer_eqb c x) eqn:He; [|exact IH].
  apply Consumer_eqb_eq in He. subst. now rewrite filter_eqb_out.
Qed.

Lemma callsOf_consumers (c : Consumer) (pd : PacketData) (l : list Consumer) :
  callsOf c (map (fun c' => OnPacket c' pd) l) = length (filter (Consumer_eqb c) l).
Proof.
  unfold callsOf. induction l as [|x l IH]; [reflexivity|]. cbn.
  destruct (Consumer_eqb c x); cbn; now rewrite IH.
Qed.

(** X10.  The consumers of a manager are a set: in every history,
    however often a consumer was added, removed and added again, no
    consumer is registered twice, and a record that is published is
    handed to a consumer at most once. *)
Theorem consumers_never_duplicated (history : list Event) (c : Consumer) (pd : PacketData) :
  NoDup (packetConsumers (mgr (run newWorld history))) /\
  callsOf c (publish (mgr (run newWorld history)) pd) <= 1.
Proof.
  assert (Hgen : forall es w, NoDup (packetConsumers (mgr w)) ->
                              NoDup (packetConsumers (mgr (run w es)))).
  { induction es as [|e es IH]; intros w Hw; [exact Hw|].
    apply IH. now apply step_NoDup. }
  assert (Hnd : NoDup (packetConsumers (mgr (run newWorld history))))
    by (apply Hgen; constructor).
  split; [exact Hnd|]. unfold publish.
  destruct (existsb _ _); [cbn; lia|].
  change (callsOf c (EmitData pd :: ?l)) with (callsOf c l).
  rewrite callsOf_consumers. now apply filter_eqb_NoDup.
Qed.

(** ** The cleanup *)

Lemma forallb_traffic_consumers (pd : PacketData) (l : list Consumer) :
  forallb isTraffic (map (fun c => OnPacket c pd) l) = true.
Proof. induction l; cbn; auto. Qed.

Lemma forwardPacket_traffic (m : TunnelManager) (t : TunTap.t) (packet : Buffer)
    (nextHeader : Z) (s d : string) :
  forallb isTraffic (forwardPacket m t packet nextHeader s d) = true.
Proof.
  unfold forwardPacket, publish. cbv zeta.
  repeat match goal with
         | |- context [if ?c then _ else _] => destruct c
         end; cbn [forallb isTraffic andb]; try reflexivity;
    apply forallb_traffic_consumers.
Qed.

Lemma processLoop_traffic (m : TunnelManager) (fuel : nat) :
  forall offset : nat, forallb isTraffic (snd (processLoop fuel m offset)) = true.
Proof.
  induction fuel as [|fuel IH]; intros offset; [reflexivity|].
  rewrite processLoop_S. cbv zeta.
  destruct (_ <=? _); [|reflexivity].
  destruct (negb _); [apply IH|].
  destruct (_ <? _); [reflexivity|].
  destruct (tun m) as [t|]; [|reflexivity].
  specialize (IH (offset + 40 +
    Z.to_nat (readUInt16BE (slice (buffer m) offset (offset + 40)) 4))).
  destruct (processLoop fuel m _) as [o later]. cbn [snd] in *.
  rewrite forallb_app, forwardPacket_traffic. exact IH.
Qed.

Lemma onData_traffic (m : TunnelManager) (data : Buffer) :
  forallb isTraffic (snd (onData m data)) = true.
Proof.
  unfold onData. destruct (cancelled m); [reflexivity|].
  rewrite processBuffer_skipn. apply processLoop_traffic.
Qed.

Lemma onTick_traffic (r : NapiResult) (m : TunnelManager) :
  forallb isTraffic (onTick r m) = true.
Proof.
  unfold onTick.
  destruct (negb (readInterval m)); [reflexivity|].
  destruct (cancelled m); [reflexivity|].
  destruct (tun m) as [t|]; [|reflexivity].
  destruct (negb (TunTap.isOpen t)); [reflexivity|].
  destruct r as [[b|n|b|e]|msg]; try reflexivity.
  destruct (0 <? length b); [|reflexivity].
  destruct (deviceConn m) as [[[|]]|]; reflexivity.
Qed.

Lemma occurrences_app (f : Effect -> bool) (a b : list Effect) :
  occurrences f (a ++ b) = occurrences f a + occurrences f b.
Proof. unfold occurrences. now rewrite filter_app, length_app. Qed.

Lemma occurrences_traffic (f : Effect -> bool) (tr : list Effect) :
  (forall e, f e = true -> isTraffic e = false) ->
  forallb isTraffic tr = true ->
  occurrences f tr = 0.
Proof.
  intros Hf. unfold occurrences. induction tr as [|e tr IH]; [reflexivity|].
  cbn. intros H. apply andb_true_iff in H. destruct H as [He Htr].
  destruct (f e) eqn:Hfe; [|now apply IH].
  apply Hf in Hfe. congruence.
Qed.

Lemma performStop_occurrences (m : TunnelManager) :
  occurrences isTunClose (snd (_performStop m)) <= 1 /\
  occurrences isSocketDestroy (snd (_performStop m)) <= 1.
Proof.
  unfold _performStop.
  destruct (readInterval m), (deviceConn m) as [[[|]]|], (tun m) as [[d [|]]|];
    cbn; split; lia.
Qed.

Lemma step_trace_traffic (w : World) (e : Event) :
  isStop e = false ->
  exists effects,
    trace (step w e) = trace w ++ setUpCloses e ++ effects /\
    forallb isTraffic effects = true.
Proof.
  destruct e; cbn [isStop step setUpCloses]; intros He; try discriminate;
    try (exists []; split; [now rewrite ?app_nil_r | reflexivity]).
  - destruct (nth_error (streams w) sid) as [s|].
    + destruct (next sid (mgr w) s) as [m' s'].
      exists []. split; [now rewrite app_nil_r | reflexivity].
    + exists []. split; [now rewrite app_nil_r | reflexivity].
  - pose proof (onData_traffic (mgr w) chunk) as Hd.
    destruct (onData (mgr w) chunk) as [m' effects]. exists effects. now split.
  - exists (onTick r (mgr w)). split; [reflexivity | apply onTick_traffic].
Qed.

Lemma setUpCloses_occurrences (e : Event) :
  occurrences isSocketDestroy (setUpCloses e) = 0 /\
  occurrences isClearInterval (setUpCloses e) = 0.
Proof.
  destruct (setUpCloses_cases e) as [-> | ->]; split; reflexivity.
Qed.

Lemma performStop_clears_once (m : TunnelManager) :
  occurrences isClearInterval (snd (_performStop m)) <= 1.
Proof.
  unfold _performStop.
  destruct (readInterval m), (deviceConn m) as [[[|]]|], (tun m) as [[d [|]]|];
    cbn; lia.
Qed.

(** A set-up that fails closes the handle it has opened, and the
    cleanup closes the interface that a later set-up has put in
    place: two closes, of two handles. *)
Lemma failed_setup_closes_its_handle :
  trace (run newWorld failedSetupHistory)
    = [TunClose; ClearInterval; SocketDestroy; TunClose] /\
  flat_map setUpCloses failedSetupHistory = [TunClose].
Proof. split; reflexivity. Qed.

(** X11.  The cleanup touches the device connection, the poller and
    the interface once: in the trace of every history there is at
    most one destroy of the device connection, at most one clearing
    of the poller, and at most one close of an interface besides the
    closes of the handles of set-ups that failed. *)
Theorem cleanup_effects_at_most_once (history : list Event) :
  occurrences isSocketDestroy (trace (run newWorld history)) <= 1 /\
  occurrences isClearInterval (trace (run newWorld history)) <= 1 /\
  occurrences isTunClose (trace (run newWorld history))
    <= occurrences isTunClose (flat_map setUpCloses history) + 1.
Proof.
  assert (Hgen : forall es w n,
             (cleanupPromise (mgr w) = None /\
              occurrences isSocketDestroy (trace w) = 0 /\
              occurrences isClearInterval (trace w) = 0 /\
              occurrences isTunClose (trace w) = n) \/
             (stopped (mgr w) /\
              occurrences isSocketDestroy (trace w) <= 1 /\
              occurrences isClearInterval (trace w) <= 1 /\
              occurrences isTunClose (trace w) <= n + 1) ->
             occurrences isSocketDestroy (trace (run w es)) <= 1 /\
             occurrences isClearInterval (trace (run w es)) <= 1 /\
             occurrences isTunClose (trace (run w es))
               <= n + occurrences isTunClose (flat_map setUpCloses es) + 1).
  { induction es as [|e es IH]; intros w n Hw.
    - cbn [run fold_left flat_map]. change (occurrences isTunClose []) with 0.
      destruct Hw as [(_ & H1 & H2 & H3) | (_ & H1 & H2 & H3)]; lia.
    - cbn [run fold_left flat_map]. fold (run (step w e) es).
      rewrite occurrences_app, Nat.add_assoc.
      apply (IH (step w e) (n + occurrences isTunClose (setUpCloses e))).
      destruct (setUpCloses_occurrences e) as [Hsd Hci].
      destruct Hw as [(Hp & H1 & H2 & H3) | (Hs & H1 & H2 & H3)].
      + destruct (isStop e) eqn:He.
        * right. split.
          { rewrite (step_stop_lifecycle w e He). unfold stop. rewrite Hp.
            unfold _performStop. destruct (deviceConn (mgr w)) as [[[|]]|];
              (split; [reflexivity | discriminate]). }
          assert (Htr : trace (step w e) = trace w ++ snd (_performStop (mgr w))).
          { destruct e; try discriminate He; cbn [step]; unfold stop; rewrite Hp;
              destruct (_performStop (mgr w)) as [m' effects]; reflexivity. }
          assert (Hnone : setUpCloses e = []) by (destruct e; try discriminate He; reflexivity).
          rewrite Htr, Hnone, !occurrences_app.
          change (occurrences isTunClose []) with 0.
          destruct (performStop_occurrences (mgr w)) as [Htc Hsd'].
          pose proof (performStop_clears_once (mgr w)) as Hci'.
          repeat split; lia.
        * left. split.
          { pose proof (step_lifecycle w e He) as Hl. unfold lifecycle in Hl.
            injection Hl as Hl _ _. congruence. }
          destruct (step_trace_traffic w e He) as (effects & -> & Heff).
          rewrite !occurrences_app.
          rewrite !(occurrences_traffic _ effects); try assumption;
            try (intros [] H; try discriminate H; reflexivity).
          repeat split; lia.
      + right. split; [now apply step_stopped|].
        rewrite (step_silent w e Hs), !occurrences_app.
        repeat split; lia. }
  destruct (Hgen history newWorld 0) as (H1 & H2 & H3);
    [left; repeat split; reflexivity|].
  repeat split; assumption.
Qed.

(** ** The set-up of the interface *)

(** The commands that were run are the commands up to the first one
    that failed, or all of them. *)
Lemma execAll_spec (execOk : string -> bool) (cmds : list string) :
  (snd (TunTap.execAll execOk cmds) = TunTap.Fulfilled /\
   fst (TunTap.execAll execOk cmds) = cmds /\
   forallb execOk cmds = true) \/
  (exists pre c post,
      cmds = pre ++ c :: post /\
      fst (TunTap.execAll execOk cmds) = pre ++ [c] /\
      forallb execOk pre = true /\ execOk c = false /\
      snd (TunTap.execAll execOk cmds) <> TunTap.Fulfilled).
Proof.
  induction cmds as [|c cmds IH]; [left; now repeat split|].
  cbn [TunTap.execAll]. destruct (execOk c) eqn:Hc.
  - destruct (TunTap.execAll execOk cmds) as [ran r]. cbn [fst snd] in *.
    destruct IH as [(Hr & Hran & Hall) | (pre & x & post & Hcmds & Hran & Hpre & Hx & Hr)].
    + left. subst. cbn. now rewrite Hc, Hall.
    + right. exists (c :: pre), x, post. subst. cbn. now rewrite Hc, Hpre.
  - right. exists [], c, cmds. cbn. repeat split; try assumption. discriminate.
Qed.

Lemma execAll_fulfilled (execOk : string -> bool) (cmds : list string) :
  snd (TunTap.execAll execOk cmds) = TunTap.Fulfilled <->
  length (fst (TunTap.execAll execOk cmds)) = length cmds /\
  forallb execOk (fst (TunTap.execAll execOk cmds)) = true.
Proof.
  destruct (execAll_spec execOk cmds)
    as [(Hr & Hran & Hall) | (pre & c & post & Hcmds & Hran & Hpre & Hc & Hr)].
  - rewrite Hr, Hran. tauto.
  - split; [contradiction|]. intros [_ Hall]. rewrite Hran, forallb_app in Hall.
    cbn in Hall. rewrite Hc, andb_false_r in Hall. discriminate.
Qed.

Lemma execAll_last_failure (execOk : string -> bool) (cmds : list string) :
  forall pre c post,
    fst (TunTap.execAll execOk cmds) = pre ++ c :: post ->
    execOk c = false -> post = [].
Proof.
  induction cmds as [|c0 cmds IH]; intros pre c post Heq Hc.
  - destruct pre; discriminate Heq.
  - cbn [TunTap.execAll] in Heq. destruct (execOk c0) eqn:H0.
    + destruct (TunTap.execAll execOk cmds) as [ran r]. cbn [fst] in *.
      destruct pre as [|x pre]; cbn in Heq; injection Heq as -> Hran.
      * congruence.
      * now apply (IH pre c post).
    + cbn [fst] in Heq. destruct pre as [|x pre]; cbn in Heq; injection Heq as _ Hran.
      * now symmetry.
      * destruct pre; discriminate Hran.
Qed.

(** X12.  [configure] runs its two commands in order and stops at the
    first that fails: its promise is fulfilled exactly when the handle
    is open, the platform is macOS or Linux and both commands ran and
    succeeded; a handle that is not open runs no command; and a
    command that failed is the last one that was run. *)
Theorem configure_stops_at_first_failure (p : Platform) (execOk : string -> bool)
    (address : string) (mtu : Z) (h : TunTap.t) :
  (snd (TunTap.configure p execOk address mtu h) = TunTap.Fulfilled <->
   TunTap.isOpen h = true /\ (p = Darwin \/ p = Linux) /\
   length (fst (TunTap.configure p execOk address mtu h)) = 2 /\
   forallb execOk (fst (TunTap.configure p execOk address mtu h)) = true) /\
  (TunTap.isOpen h = false -> fst (TunTap.configure p execOk address mtu h) = []) /\
  (forall pre c post,
      fst (TunTap.configure p execOk address mtu h) = pre ++ c :: post ->
      execOk c = false -> post = []).
Proof.
  unfold TunTap.configure.
  destruct (TunTap.isOpen h); cbn [negb].
  2:{ cbn [fst snd length forallb].
      split; [split; [discriminate | intros (H & _); discriminate H]|].
      split; [reflexivity|]. intros pre c post H. destruct pre; discriminate H. }
  destruct p as [| |pn].
  3:{ cbn [fst snd length forallb].
      split; [split; [discriminate | intros (_ & [H | H] & _); discriminate H]|].
      split; [discriminate|]. intros pre c post H. destruct pre; discriminate H. }
  all: match goal with
       | |- context [TunTap.execAll _ ?l] =>
           set (cmds := l); assert (Hlen : length cmds = 2) by reflexivity; clearbody cmds
       end;
    rewrite execAll_fulfilled, Hlen;
    (split; [split; [intros [H1 H2]; auto | intros (_ & _ & H1 & H2); auto]|]);
    (split; [discriminate | apply execAll_last_failure]).
Qed.

Lemma open_fresh_handle (k : AcquireOutcome) :
  TunTap.open k (TunTap.create "") =
  match k with
  | Acquired fd name =>
      (TunTap.mk (TunDevice.mk fd name true) true, Returns (VBoolean true))
  | AcquireFailed msg =>
      (TunTap.mk (TunDevice.mk (-1) "" false) false, Throws msg)
  end.
Proof. destruct k; reflexivity. Qed.

Lemma with_tun_back (m : TunnelManager) (t : option TunTap.t) :
  with_tun (with_tun m t) (tun m) = m.
Proof. destruct m. reflexivity. Qed.

Lemma setupInterface_cases (p : Platform) (k : AcquireOutcome)
    (execOk : string -> bool) (info : TunnelInfo) (m : TunnelManager) :
  (snd (setupInterface p k execOk info m) = TunTap.Fulfilled ->
   tun (fst (fst (setupInterface p k execOk info m)))
     = Some (setupInterfaceHandle p k execOk info) /\
   TunTap.isOpen (setupInterfaceHandle p k execOk info) = true /\
   TunDevice.is_open (TunTap.device (setupInterfaceHandle p k execOk info)) = true /\
   length (snd (fst (setupInterface p k execOk info m))) = 3 /\
   forallb execOk (snd (fst (setupInterface p k execOk info m))) = true) /\
  (snd (setupInterface p k execOk info m) <> TunTap.Fulfilled ->
   tun (fst (fst (setupInterface p k execOk info m))) = None /\
   TunTap.isOpen (setupInterfaceHandle p k execOk info) = false /\
   TunDevice.is_open (TunTap.device (setupInterfaceHandle p k execOk info)) = false /\
   TunDevice.fd (TunTap.device (setupInterfaceHandle p k execOk info)) = (-1)%Z) /\
  with_tun (fst (fst (setupInterface p k execOk info m))) (tun m) = m.
Proof.
  unfold setupInterface, setupInterfaceHandle. rewrite open_fresh_handle.
  destruct k as [fd name | msg].
  2:{ cbn. split; [discriminate|]. split; [auto|]. apply with_tun_back. }
  set (t := TunTap.mk (TunDevice.mk fd name true) true).
  pose proof (execAll_fulfilled execOk) as Hful.
  unfold TunTap.configure, TunTap.addRoute. cbn [TunTap.isOpen t negb].
  destruct p as [| |pn].
  3:{ cbn. split; [discriminate|]. split; [auto|]. apply with_tun_back. }
  all: match goal with
       | |- context [TunTap.execAll _ (?a :: ?b :: nil)] =>
           set (cmds1 := a :: b :: nil);
           assert (Hlen1 : length cmds1 = 2) by reflexivity; clearbody cmds1
       end;
    match goal with
    | |- context [TunTap.execAll _ (?a :: nil)] =>
        set (cmds2 := a :: nil);
        assert (Hlen2 : length cmds2 = 1) by reflexivity; clearbody cmds2
    end;
    pose proof (Hful cmds1) as H1; pose proof (Hful cmds2) as H2;
    destruct (TunTap.execAll execOk cmds1) as [ran1 [|e1]];
    [destruct (TunTap.execAll execOk cmds2) as [ran2 [|e2]]|];
    cbn [fst snd] in *;
    (split; [intros Hr; try discriminate Hr;
             destruct H1 as [H1 _]; destruct (H1 eq_refl) as [L1 A1];
             destruct H2 as [H2 _]; destruct (H2 eq_refl) as [L2 A2];
             rewrite length_app, forallb_app, L1, L2, A1, A2, Hlen1, Hlen2;
             repeat split
            | split; [intros Hr; try (exfalso; apply Hr; reflexivity); repeat split
                     | apply with_tun_back]]).
Qed.

(** X13.  [setupInterface] either succeeds, and then the manager
    holds an open interface and the three commands, address, MTU and
    route, all ran and succeeded; or it fails, and then the manager
    holds no interface and the handle that was created is closed
    again, its descriptor given back.  In both cases no other field of
    the manager changes. *)
Theorem setupInterface_outcome (p : Platform) (k : AcquireOutcome)
    (execOk : string -> bool) (info : TunnelInfo) (m : TunnelManager) :
  (snd (setupInterface p k execOk info m) = TunTap.Fulfilled ->
   tun (fst (fst (setupInterface p k execOk info m)))
     = Some (setupInterfaceHandle p k execOk info) /\
   TunTap.isOpen (setupInterfaceHandle p k execOk info) = true /\
   TunDevice.is_open (TunTap.device (setupInterfaceHandle p k execOk info)) = true /\
   length (snd (fst (setupInterface p k execOk info m))) = 3 /\
   forallb execOk (snd (fst (setupInterface p k execOk info m))) = true) /\
  (snd (setupInterface p k execOk info m) <> TunTap.Fulfilled ->
   tun (fst (fst (setupInterface p k execOk info m))) = None /\
   TunTap.isOpen (setupInterfaceHandle p k execOk info) = false /\
   TunDevice.is_open (TunTap.device (setupInterfaceHandle p k execOk info)) = false /\
   TunDevice.fd (TunTap.device (setupInterfaceHandle p k execOk info)) = (-1)%Z) /\
  with_tun (fst (fst (setupInterface p k execOk info m))) (tun m) = m.
Proof. apply setupInterface_cases. Qed.

(** ** Handles *)

Lemma applyHandleOp_consistent (h : TunTap.t) (op : HandleOp) :
  handleConsistent h -> handleConsistent (applyHandleOp h op).
Proof.
  destruct h as [[fd name dev_open] is_open]. unfold handleConsistent.
  cbn [TunTap.isOpen TunTap.device TunDevice.is_open TunDevice.fd].
  intros [Hagree Hfd]. subst dev_open.
  destruct op as [[fd' name' | msg]|]; destruct is_open; cbn; split; auto; discriminate.
Qed.

(** X14.  The flag of a handle and the flag of its native device never
    disagree: after any sequence of calls of [open] and [close] on a
    new handle, whatever the system answers, the handle is open
    exactly when its device is, a handle that is not open holds the
    descriptor -1, and a write throws exactly when the handle is not
    open. *)
Theorem wrapper_and_device_agree (name : string) (ops : list HandleOp) :
  TunTap.isOpen (fold_left applyHandleOp ops (TunTap.create name))
    = TunDevice.is_open (TunTap.device (fold_left applyHandleOp ops (TunTap.create name))) /\
  (TunTap.isOpen (fold_left applyHandleOp ops (TunTap.create name)) = false ->
   TunDevice.fd (TunTap.device (fold_left applyHandleOp ops (TunTap.create name))) = (-1)%Z) /\
  TunTap.writeThrows (fold_left applyHandleOp ops (TunTap.create name))
    = negb (TunTap.isOpen (fold_left applyHandleOp ops (TunTap.create name))).
Proof.
  assert (Hgen : forall ops h, handleConsistent h ->
                               handleConsistent (fold_left applyHandleOp ops h)).
  { clear. induction ops as [|op ops IH]; intros h Hh; [exact Hh|].
    apply IH. now apply applyHandleOp_consistent. }
  assert (H0 : handleConsistent (TunTap.create name)) by (split; reflexivity).
  destruct (Hgen ops _ H0) as [Hagree Hfd].
  split; [exact Hagree|]. split; [exact Hfd|].
  unfold TunTap.writeThrows. rewrite <- Hagree.
  now destruct (TunTap.isOpen _).
Qed.

(** X15.  What [Write] puts on the wire, [Read] gives back: on either
    platform, a read that returns the bytes that a write of [data]
    handed to the system yields [data], with the protocol family
    header of macOS added by the one and taken off by the other. *)
Theorem device_framing_roundtrip (p : Platform) (EAGAIN EWOULDBLOCK errno : Z)
    (data : Buffer) (d : TunDevice.t) :
  TunDevice.is_open d = true ->
  TunDevice.Read p EAGAIN EWOULDBLOCK
    (mkKernelRead (Z.of_nat (length (TunDevice.write_frame p data)))
       (TunDevice.write_frame p data) errno) d
  = Returns (VBuffer data).
Proof.
  intros Ho. unfold TunDevice.Read. rewrite Ho. cbn [negb bytes_read tmp_buffer read_errno].
  assert (Hplain : forall b : Buffer,
             (if (Z.of_nat (length b) <? 0)%Z
              then if (errno =? EAGAIN)%Z || (errno =? EWOULDBLOCK)%Z
                   then Returns (VBuffer [])
                   else Returns (VError errno)
              else Returns (VBuffer (firstn (Z.to_nat (Z.of_nat (length b))) b)))
             = Returns (VBuffer b)).
  { intros b. destruct (Z.ltb_spec (Z.of_nat (length b)) 0); [lia|].
    now rewrite Nat2Z.id, firstn_all. }
  destruct p as [| |pn]; [|apply Hplain|apply Hplain].
  unfold TunDevice.write_frame. rewrite length_app.
  change (length (TunDevice.htonl TunDevice.AF_INET6)) with 4.
  destruct (Z.leb_spec (Z.of_nat (4 + length data)) 0); [lia|].
  change (skipn 4 (TunDevice.htonl TunDevice.AF_INET6 ++ data)) with data.
  destruct (Z.ltb_spec 4 (Z.of_nat (4 + length data))) as [Hmore|Hnone].
  - replace (Z.to_nat (Z.of_nat (4 + length data) - 4)) with (length data) by lia.
    now rewrite firstn_all.
  - destruct data; [reflexivity | cbn [length] in Hnone; lia].
Qed.

Lemma device_framing_roundtrip_witness :
  TunDevice.Read Darwin 35 35
    (mkKernelRead (Z.of_nat (length (TunDevice.write_frame Darwin udpDatagram)))
       (TunDevice.write_frame Darwin udpDatagram) 0) darwinDevice
  = Returns (VBuffer udpDatagram).
Proof.
  apply (device_framing_roundtrip Darwin 35 35 0 udpDatagram darwinDevice). reflexivity.
Defined.

(** ** The later revision of the handle *)

Lemma applyRevisedOp_consistent (h : TunTapRevised.t) (op : HandleOp) :
  revisedConsistent h -> revisedConsistent (applyRevisedOp h op).
Proof.
  destruct h as [[fd name dev_open] is_open is_closed]. unfold revisedConsistent.
  cbn [TunTapRevised.isOpen TunTapRevised.isClosed TunTapRevised.device TunDevice.is_open].
  intros [Hagree Hclosed]. subst dev_open.
  destruct op as [[fd' name' | msg]|]; destruct is_open, is_closed; cbn; split; auto;
    try discriminate; intros _; now apply Hclosed.
Qed.

Lemma applyRevisedOp_closed (h : TunTapRevised.t) (op : HandleOp) :
  TunTapRevised.isClosed h = true ->
  TunTapRevised.isClosed (applyRevisedOp h op) = true.
Proof.
  intros Hc. destruct op as [k|]; cbn [applyRevisedOp].
  - unfold TunTapRevised.open. now rewrite Hc.
  - unfold TunTapRevised.close. now rewrite Hc.
Qed.

(** X16.  In the later revision of the handle a close is final: after
    any sequence of calls of [open] and [close] that holds a [close],
    whatever the system answers, the handle is closed and not open,
    its device is not open, and [open] throws. *)
Theorem revised_close_is_final (name : string) (before after : list HandleOp)
    (k : AcquireOutcome) :
  let h := fold_left applyRevisedOp (before ++ OpClose :: after) (TunTapRevised.create name) in
  TunTapRevised.isClosed h = true /\
  TunTapRevised.isOpen h = false /\
  TunDevice.is_open (TunTapRevised.device h) = false /\
  TunTapRevised.open k h = (h, Throws "Device has been closed and cannot be reopened").
Proof.
  assert (Hcons : forall ops h, revisedConsistent h ->
                                revisedConsistent (fold_left applyRevisedOp ops h)).
  { clear. induction ops as [|op ops IH]; intros h Hh; [exact Hh|].
    apply IH. now apply applyRevisedOp_consistent. }
  assert (Hclosed : forall ops h, TunTapRevised.isClosed h = true ->
                                  TunTapRevised.isClosed (fold_left applyRevisedOp ops h) = true).
  { clear. induction ops as [|op ops IH]; intros h Hh; [exact Hh|].
    apply IH. now apply applyRevisedOp_closed. }
  intros h.
  assert (H0 : revisedConsistent (TunTapRevised.create name)) by (split; [reflexivity | discriminate]).
  destruct (Hcons (before ++ OpClose :: after) _ H0) as [Hagree Himp]. fold h in Hagree, Himp.
  assert (Hc : TunTapRevised.isClosed h = true).
  { unfold h. rewrite fold_left_app. cbn [fold_left]. apply Hclosed.
    cbn [applyRevisedOp]. unfold TunTapRevised.close.
    destruct (TunTapRevised.isClosed (fold_left applyRevisedOp before _)) eqn:He;
      [exact He | reflexivity]. }
  split; [exact Hc|]. split; [now apply Himp|].
  split; [rewrite <- Hagree; now apply Himp|].
  unfold TunTapRevised.open. now rewrite Hc.
Qed.

(** ** The outcome of the handshake *)

Section HandshakeOutcomes.

Context {J : Type} {lib : Handshake.JSON J}.

Lemma handles_detached (evs : list Handshake.SocketEvent) :
  forall st : Handshake.State J,
    detachedOnceSettled st -> detachedOnceSettled (fold_left Handshake.handle evs st).
Proof.
  induction evs as [|ev evs IH]; intros st Hst; [exact Hst|].
  cbn [fold_left]. apply IH. now apply handle_detached.
Qed.

Lemma settled_ignores (st : Handshake.State J) :
  detachedOnceSettled st ->
  Handshake.completion st <> Handshake.Pending ->
  (forall ev, Handshake.handle st ev = st) /\ Handshake.fireTimer st = st.
Proof.
  intros [Hp | (Hd & He & Hn & Ht)] Hs; [contradiction|]. split.
  - intros [chunk | e |]; cbn [Handshake.handle]; now rewrite ?Hd, ?He, ?Hn.
  - unfold Handshake.fireTimer. now rewrite Ht.
Qed.

(** X17.  The first outcome of the handshake is the only one: once
    the promise is settled, by a response, an error, the end of the
    connection or a wrong packet, no later event of the socket and no
    timer changes anything. *)
Theorem handshake_settles_once (evs more : list Handshake.SocketEvent) :
  Handshake.completion (fold_left Handshake.handle evs (Handshake.start (J := J)))
    <> Handshake.Pending ->
  fold_left Handshake.handle more (fold_left Handshake.handle evs Handshake.start)
    = fold_left Handshake.handle evs Handshake.start /\
  Handshake.fireTimer (fold_left Handshake.handle evs Handshake.start)
    = fold_left Handshake.handle evs (Handshake.start (J := J)).
Proof.
  intros Hs.
  assert (Hd : detachedOnceSettled (fold_left Handshake.handle evs (Handshake.start (J := J)))).
  { apply handles_detached. now left. }
  destruct (settled_ignores _ Hd Hs) as [Hev Htimer]. split; [|exact Htimer].
  induction more as [|ev more IH]; [reflexivity|].
  cbn [fold_left]. now rewrite Hev.
Qed.

Lemma frame_payload (body extra : Buffer) :
  slice (frameOf body ++ extra) 10 (8 + 2 + length body) = body.
Proof.
  rewrite slice_app_l by (rewrite frameOf_length; lia).
  unfold frameOf, slice.
  replace (8 + 2 + length body - 10) with (length body) by lia.
  change 10 with (length (Handshake.magic ++
    [byte_of_Z (Z.of_nat (length body) / 256);
     byte_of_Z (Z.of_nat (length body) mod 256)])).
  rewrite app_assoc, skipn_app_exact. apply firstn_all.
Qed.

(** The chunk that completes the frame resolves the promise, whatever
    it holds behind the frame. *)
Lemma handleData_complete_extra (body data extra : Buffer) (st : Handshake.State J) (j : J) :
  (Z.of_nat (length body) <= 65535)%Z ->
  Handshake.buffer st ++ data = frameOf body ++ extra ->
  Handshake.parse body = Some j ->
  Handshake.completion st = Handshake.Pending ->
  Handshake.completion (Handshake.handleData data st) = Handshake.Resolved j /\
  Handshake.dataListener (Handshake.handleData data st) = false.
Proof.
  intros Hlen Hframe Hparse Hpending. unfold Handshake.handleData. cbv zeta.
  cbn [Handshake.with_buffer Handshake.buffer]. rewrite Hframe.
  pose proof (frameOf_length body) as Hl.
  destruct (Nat.ltb_spec (length (frameOf body ++ extra)) 10) as [Hshort|_];
    [rewrite length_app in Hshort; lia|].
  assert (Hself : frameOf body ++ [] = frameOf body) by apply app_nil_r.
  destruct (frame_prefix body (frameOf body) [] Hlen Hself ltac:(lia)) as [Hmagic Hfield].
  assert (Hmagic' : slice (frameOf body ++ extra) 0 8 = Handshake.magic).
  { rewrite slice_app_l by lia. exact Hmagic. }
  assert (Hfield' : readUInt16BE (frameOf body ++ extra) 8 = Z.of_nat (length body)).
  { rewrite readUInt16BE_app_l by lia. exact Hfield. }
  rewrite (magicDiffers_false _ Hmagic'), Hfield', Nat2Z.id.
  destruct (Nat.leb_spec (8 + 2 + length body) (length (frameOf body ++ extra)))
    as [_|Hshort]; [|rewrite length_app in Hshort; lia].
  rewrite frame_payload, Hparse.
  unfold Handshake.settle, Handshake.cleanup. cbn. rewrite Hpending.
  split; reflexivity.
Qed.

Lemma prefix_or_whole (a x f e : Buffer) :
  a ++ x = f ++ e ->
  (length a < length f /\ exists rest, a ++ rest = f /\ rest <> []) \/
  (length f <= length a /\ exists e1, a = f ++ e1).
Proof.
  intros H. destruct (Nat.lt_ge_cases (length a) (length f)) as [Hlt | Hge].
  - left. split; [exact Hlt|]. exists (skipn (length a) f). split.
    + assert (Ha : a = firstn (length a) f).
      { assert (Hf : firstn (length a) (a ++ x) = firstn (length a) (f ++ e))
          by now rewrite H.
        rewrite firstn_app_exact, firstn_app in Hf.
        replace (length a - length f) with 0 in Hf by lia.
        now rewrite firstn_O, app_nil_r in Hf. }
      rewrite Ha at 1. apply firstn_skipn.
    + intros Hnil. apply (f_equal (@length byte)) in Hnil.
      rewrite length_skipn in Hnil. cbn in Hnil. lia.
  - right. split; [exact Hge|]. exists (skipn (length f) a).
    assert (Hf : f = firstn (length f) a).
    { assert (Hf : firstn (length f) (a ++ x) = firstn (length f) (f ++ e))
        by now rewrite H.
      rewrite firstn_app_exact, firstn_app in Hf.
      replace (length f - length a) with 0 in Hf by lia.
      now rewrite firstn_O, app_nil_r in Hf. }
    rewrite Hf at 1. symmetry. apply firstn_skipn.
Qed.

Lemma receive_frame_extra (body extra : Buffer) (j : J) (chunks : list Buffer) :
  (Z.of_nat (length body) <= 65535)%Z ->
  Handshake.parse body = Some j ->
  forall st : Handshake.State J,
    Handshake.dataListener st = true ->
    Handshake.completion st = Handshake.Pending ->
    Handshake.buffer st ++ concat chunks = frameOf body ++ extra ->
    length (Handshake.buffer st) < length (frameOf body) ->
    Handshake.completion (Handshake.receive st chunks) = Handshake.Resolved j.
Proof.
  intros Hlen Hparse.
  induction chunks as [|c chunks IH]; intros st Hd Hp Hframe Hshort.
  - cbn [concat] in Hframe. rewrite app_nil_r in Hframe.
    rewrite Hframe, length_app in Hshort. lia.
  - cbn [concat] in Hframe. rewrite app_assoc in Hframe.
    rewrite receive_cons. cbn [Handshake.handle]. rewrite Hd.
    destruct (prefix_or_whole _ _ _ _ Hframe)
      as [(Hlt & rest & Hrest & Hne) | (Hge & e1 & Hwhole)].
    + rewrite (handleData_incomplete body c rest st Hlen Hrest Hne).
      apply IH; try assumption.
    + destruct (handleData_complete_extra body c e1 st j Hlen Hwhole Hparse Hp)
        as [Hres Hoff].
      now rewrite receive_detached.
Qed.

(** X18.  The handshake reads one frame and no more: when the chunks
    received hold the response frame followed by other bytes, cut at
    any places, the promise resolves with the response, and the bytes
    behind the frame are not looked at. *)
Theorem handshake_ignores_trailing_bytes (j : J) (chunks : list Buffer) (extra : Buffer) :
  Handshake.parse (Handshake.stringify j) = Some j ->
  (Z.of_nat (length (Handshake.stringify j)) <= 65535)%Z ->
  concat chunks = frameOf (Handshake.stringify j) ++ extra ->
  Handshake.completion (Handshake.receive Handshake.start chunks) = Handshake.Resolved j.
Proof.
  intros Hparse Hlen Hframe.
  apply (receive_frame_extra (Handshake.stringify j) extra j chunks Hlen Hparse);
    try reflexivity; [exact Hframe|].
  rewrite frameOf_length. cbn. lia.
Qed.

Lemma receive_incomplete (body rest : Buffer) (chunks : list Buffer) :
  (Z.of_nat (length body) <= 65535)%Z ->
  rest <> [] ->
  forall st : Handshake.State J,
    Handshake.dataListener st = true ->
    (Handshake.buffer st ++ concat chunks) ++ rest = frameOf body ->
    Handshake.receive st chunks =
    Handshake.with_buffer st (Handshake.buffer st ++ concat chunks).
Proof.
  intros Hlen Hne.
  induction chunks as [|c chunks IH]; intros st Hd Hframe.
  - cbn. rewrite app_nil_r. symmetry. apply handshake_with_buffer_eta.
  - cbn [concat] in *. rewrite receive_cons. cbn [Handshake.handle]. rewrite Hd.
    assert (Hc : (Handshake.buffer st ++ c) ++ concat chunks ++ rest = frameOf body).
    { rewrite <- Hframe, <- !app_assoc. reflexivity. }
    rewrite (handleData_incomplete body c (concat chunks ++ rest) st Hlen Hc).
    2:{ intros Hnil. apply app_eq_nil in Hnil. tauto. }
    rewrite IH.
    + cbn [Handshake.with_buffer Handshake.buffer Handshake.dataListener
           Handshake.errorListener Handshake.endListener Handshake.timeoutHandle
           Handshake.completion Handshake.sent].
      now rewrite <- app_assoc.
    + exact Hd.
    + cbn [Handshake.with_buffer Handshake.buffer]. rewrite <- Hc, <- !app_assoc. reflexivity.
Qed.

(** X19.  The handshake waits for the whole frame: as long as the
    chunks received are a beginning of the response frame that is not
    all of it, the promise is pending, the bytes are kept, and the
    listener and the timer are in place. *)
Theorem handshake_waits_for_whole_frame (body rest : Buffer) (chunks : list Buffer) :
  (Z.of_nat (length body) <= 65535)%Z ->
  concat chunks ++ rest = frameOf body ->
  rest <> [] ->
  Handshake.completion (Handshake.receive (Handshake.start (J := J)) chunks)
    = Handshake.Pending /\
  Handshake.buffer (Handshake.receive (Handshake.start (J := J)) chunks) = concat chunks /\
  Handshake.dataListener (Handshake.receive (Handshake.start (J := J)) chunks) = true /\
  Handshake.timeoutHandle (Handshake.receive (Handshake.start (J := J)) chunks) = true.
Proof.
  intros Hlen Hframe Hne.
  rewrite (receive_incomplete body rest chunks Hlen Hne Handshake.start eq_refl Hframe).
  repeat split.
Qed.

End HandshakeOutcomes.

Lemma handshake_settles_once_witness :
  fold_left (Handshake.handle (lib := numberJSON))
    [Handshake.Data (bytes_of_string "CDTunnel" ++ [x00; x01; x31]); Handshake.End]
    (fold_left (Handshake.handle (lib := numberJSON))
       [Handshake.Data badMagicChunk] Handshake.start)
  = fold_left (Handshake.handle (lib := numberJSON))
      [Handshake.Data badMagicChunk] Handshake.start.
Proof.
  apply (handshake_settles_once (lib := numberJSON) [Handshake.Data badMagicChunk]
           [Handshake.Data (bytes_of_string "CDTunnel" ++ [x00; x01; x31]); Handshake.End]).
  intros H. vm_compute in H. discriminate H.
Defined.

Lemma handshake_ignores_trailing_bytes_witness :
  Handshake.completion
    (Handshake.receive (lib := numberJSON) Handshake.start
       (sampleFrameChunks ++ [udpDatagram]))
  = Handshake.Resolved 1500.
Proof.
  apply (handshake_ignores_trailing_bytes (lib := numberJSON) 1500
           (sampleFrameChunks ++ [udpDatagram]) udpDatagram).
  - reflexivity.
  - vm_compute. discriminate.
  - reflexivity.
Defined.

Lemma handshake_waits_for_whole_frame_witness :
  Handshake.completion
    (Handshake.receive (lib := numberJSON) Handshake.start [bytes_of_string "CDTunnel"; [x00]])
  = Handshake.Pending.
Proof.
  apply (handshake_waits_for_whole_frame (lib := numberJSON)
           (bytes_of_string "1500") [x04; x31; x35; x30; x30]
           [bytes_of_string "CDTunnel"; [x00]]).
  - vm_compute. discriminate.
  - reflexivity.
  - discriminate.
Defined.

(** ** The utun unit *)

Lemma scanUnits_found (EBUSY : Z) (connect : Z -> ConnectResult) (fuel : nat) :
  forall unit u : Z,
    scanUnits fuel EBUSY connect unit = UnitFound u <->
    (unit <= u < 255)%Z /\ (u < unit + Z.of_nat fuel)%Z /\
    connect u = ConnectOk /\
    forall v, (unit <= v < u)%Z -> connect v = ConnectErrno EBUSY.
Proof.
  induction fuel as [|fuel IH]; intros unit u.
  - cbn [scanUnits]. split; [discriminate|]. intros (H1 & H2 & _). lia.
  - cbn [scanUnits]. destruct (Z.ltb_spec unit 255) as [Hin|Hout].
    2:{ split; [discriminate|]. intros (H1 & _). lia. }
    destruct (connect unit) as [|e] eqn:Hc.
    + split.
      * intros H. injection H as <-. repeat split; try assumption; try lia.
      * intros (H1 & H2 & H3 & H4). destruct (Z.eq_dec u unit) as [-> | Hne];
          [reflexivity|].
        rewrite (H4 unit) in Hc by lia. discriminate.
    + destruct (Z.eqb_spec e EBUSY) as [-> | Hne]; cbn [negb].
      * rewrite IH. split.
        -- intros (H1 & H2 & H3 & H4). repeat split; try assumption; try lia.
           intros v Hv. destruct (Z.eq_dec v unit) as [-> | Hv']; [exact Hc|].
           apply H4. lia.
        -- intros (H1 & H2 & H3 & H4).
           assert (Hu : u <> unit) by (intros ->; congruence).
           repeat split; try assumption; try lia.
           intros v Hv. apply H4. lia.
      * split; [discriminate|]. intros (H1 & H2 & H3 & H4).
        destruct (Z.eq_dec u unit) as [-> | Hu]; [congruence|].
        rewrite (H4 unit) in Hc by lia. congruence.
Qed.

Lemma int32_small (z : Z) :
  (-2147483648 <= z <= 2147483647)%Z -> int32 z = z.
Proof.
  intros Hz. unfold int32. rewrite Z.mod_small by lia. lia.
Qed.

(** X20.  The utun unit that [Open] connects to on macOS.  With a name
    that asks for a unit, that unit is tried and no other.  Otherwise
    the units are tried from 1 on: the unit found is the first one
    below 255 that connects, and it is found exactly when every unit
    before it is busy.  A name [utunN] asks for unit [N + 1] as long
    as that is an [int]; for the largest [int] the sum wraps around,
    the unit is negative and the units are tried from 1 on. *)
Theorem utun_unit_choice (stoi : string -> option Z) (EBUSY : Z)
    (connect : Z -> ConnectResult) (name : string) (u : Z) :
  ((0 < utunUnit stoi name)%Z ->
   (chooseUnit stoi EBUSY connect name = UnitFound u <->
    u = utunUnit stoi name /\ connect u = ConnectOk)) /\
  ((utunUnit stoi name <= 0)%Z ->
   (chooseUnit stoi EBUSY connect name = UnitFound u <->
    (1 <= u < 255)%Z /\ connect u = ConnectOk /\
    forall v, (1 <= v < u)%Z -> connect v = ConnectErrno EBUSY)) /\
  (forall n : Z,
      negb (String.eqb name "") && String.prefix "utun" name = true ->
      stoi (String.substring 4 (String.length name - 4) name) = Some n ->
      ((-2147483648 <= n < INT_MAX)%Z -> utunUnit stoi name = (n + 1)%Z) /\
      (n = INT_MAX -> (utunUnit stoi name < 0)%Z)).
Proof.
  split; [|split].
  - unfold chooseUnit. cbv zeta. intros Hunit.
    destruct (Z.ltb_spec 0 (utunUnit stoi name)) as [_|Hle]; [|lia].
    destruct (connect (utunUnit stoi name)) eqn:Hc; split.
    + intros Hf. injection Hf as <-. now split.
    + intros [-> _]. reflexivity.
    + discriminate.
    + intros [-> Hf]. congruence.
  - unfold chooseUnit. cbv zeta. intros Hunit.
    destruct (Z.ltb_spec 0 (utunUnit stoi name)) as [Hlt|_]; [lia|].
    rewrite scanUnits_found. split.
    + intros (H1 & _ & H3 & H4). now repeat split.
    + intros (H1 & H3 & H4). repeat split; try assumption; lia.
  - intros n Hname Hn. unfold utunUnit. rewrite Hname, Hn. unfold INT_MAX. split.
    + intros Hr. apply int32_small. lia.
    + intros ->. reflexivity.
Qed.

(** ** The connection *)

Lemma with_tun_inv (m m' : TunnelManager) :
  with_tun m' (tun m) = m -> m' = with_tun m (tun m').
Proof. destruct m, m'. cbn. intros H. injection H as <- <- <- <- <- <- <- <- <- <-. reflexivity. Qed.

(** X21.  [connectToTunnelLockdown] settles when the handshake does.
    It returns a connection exactly when the handshake resolved and
    the set-up of the interface went through, and then the manager
    holds the open interface and the socket and is forwarding.  In
    every other case it throws, with a manager that is stopped and
    holds no interface; the socket was never handed to the manager, so
    the stop does not touch it, and [end()] is called on it unless it
    is destroyed. *)
Theorem connectToTunnelLockdown_outcome (p : Platform) (k : AcquireOutcome)
    (execOk : string -> bool) (handshake : Handshake.Completion TunnelInfo)
    (secureServiceSocket : Socket) :
  match connectToTunnelLockdown p k execOk handshake secureServiceSocket with
  | None => handshake = Handshake.Pending
  | Some (TunnelConnected Address RsdPort manager, effects) =>
      exists tunnelInfo,
        handshake = Handshake.Resolved tunnelInfo /\
        snd (setupInterface p k execOk tunnelInfo newTunnelManager) = TunTap.Fulfilled /\
        Address = serverAddress tunnelInfo /\ RsdPort = serverRSDPort tunnelInfo /\
        effects = [] /\
        tun manager = Some (setupInterfaceHandle p k execOk tunnelInfo) /\
        TunTap.isOpen (setupInterfaceHandle p k execOk tunnelInfo) = true /\
        deviceConn manager = Some secureServiceSocket /\
        readInterval manager = true /\ cancelled manager = false
  | Some (ConnectRejected message manager socketEnded, effects) =>
      (forall tunnelInfo,
          handshake = Handshake.Resolved tunnelInfo ->
          snd (setupInterface p k execOk tunnelInfo newTunnelManager) <> TunTap.Fulfilled) /\
      handshake <> Handshake.Pending /\
      stopped manager /\ tun manager = None /\ performStopRuns manager = 1 /\
      effects = [] /\
      socketEnded = negb (destroyed secureServiceSocket)
  end.
Proof.
  unfold connectToTunnelLockdown. cbv zeta.
  destruct handshake as [|tunnelInfo|f]; [reflexivity| |].
  - destruct (setupInterface_cases p k execOk tunnelInfo newTunnelManager)
      as (Hok & Hfail & Hrest).
    destruct (setupInterface p k execOk tunnelInfo newTunnelManager)
      as [[m1 cmds] [|e]] eqn:Hsetup; cbn [fst snd] in *.
    + destruct (Hok eq_refl) as (Ht & Ho & _). exists tunnelInfo.
      unfold startForwarding. rewrite Ht, Hsetup. cbn.
      apply with_tun_inv in Hrest. rewrite Hrest. cbn. repeat split; assumption.
    + destruct (Hfail ltac:(discriminate)) as (Ht & _).
      apply with_tun_inv in Hrest. rewrite Ht in Hrest. subst m1. cbn.
      repeat split; try discriminate.
      intros info H. injection H as <-. rewrite Hsetup. discriminate.
  - cbn. repeat split; try discriminate.
Qed.

(** X22.  The [closer] of a connection never calls [end()] on the
    socket: the manager holds the socket as its device connection, so
    the [stop] before the test destroys it, or finds it destroyed.
    Afterwards the manager is stopped and holds no interface. *)
Theorem closer_never_ends_socket (m : TunnelManager) (secureServiceSocket : Socket) :
  deviceConn m = Some secureServiceSocket ->
  cleanupPromise m = None ->
  snd (fst (closer m secureServiceSocket)) = false /\
  destroyed (snd (fst (fst (closer m secureServiceSocket)))) = true /\
  stopped (fst (fst (fst (closer m secureServiceSocket)))) /\
  tun (fst (fst (fst (closer m secureServiceSocket)))) = None.
Proof.
  intros Hconn Hp. unfold closer, stop. rewrite Hp. unfold _performStop. rewrite Hconn.
  destruct secureServiceSocket as [[|]];
    destruct (readInterval m), (tun m) as [[d [|]]|]; cbn;
    repeat split; discriminate.
Qed.

Lemma closer_never_ends_socket_witness :
  snd (fst (closer forwardingManager (mkSocket false))) = false /\
  destroyed (snd (fst (fst (closer forwardingManager (mkSocket false))))) = true /\
  stopped (fst (fst (fst (closer forwardingManager (mkSocket false))))) /\
  tun (fst (fst (fst (closer forwardingManager (mkSocket false))))) = None.
Proof.
  apply (closer_never_ends_socket forwardingManager (mkSocket false)); reflexivity.
Defined.

(** ** From the device to a packet stream *)

Lemma update_nth_nth_error {A} (f : A -> A) (l : list A) :
  forall i : nat, nth_error (update_nth i f l) i = option_map f (nth_error l i).
Proof.
  induction l as [|x l IH]; intros i; destruct i; cbn; auto.
Qed.

Lemma next_held (sid : nat) (m : TunnelManager) (s : PacketStream) (pd : PacketData) :
  In pd (held (snd (next sid m s))) -> In pd (held s).
Proof.
  unfold next, runLoop, held.
  destruct (phase s); cbn [addPacketConsumer with_packetConsumers cancelled];
    try (destruct (cancelled m)); try (destruct (queue s) as [|x q] eqn:Hq);
    cbn [snd yielded queue]; rewrite ?Hq, <- ?app_assoc; auto.
Qed.

Lemma stream_onPacket_held (s : PacketStream) (p pd : PacketData) :
  In pd (held (stream_onPacket s p)) -> In pd (held s) \/ pd = p.
Proof.
  unfold stream_onPacket, held.
  destruct (resolver s); [destruct (pendingNext s)|]; cbn [yielded queue];
    rewrite !in_app_iff; cbn [In]; intuition auto.
Qed.

Lemma deliver_held (effects : list Effect) :
  forall (ss : list PacketStream) (sid : nat) (s' : PacketStream) (pd : PacketData),
    nth_error (deliver effects ss) sid = Some s' ->
    In pd (held s') ->
    (exists s, nth_error ss sid = Some s /\ In pd (held s)) \/
    In (OnPacket (StreamConsumer sid) pd) effects.
Proof.
  induction effects as [|e effects IH]; intros ss sid s' pd Hs Hpd.
  - left. exists s'. now split.
  - destruct e as [b| | |r|c r|b| | |msg];
      try (destruct (IH ss sid s' pd Hs Hpd) as [H | H]; [now left | right; now right]).
    destruct c as [id|sid0];
      [destruct (IH ss sid s' pd Hs Hpd) as [H | H]; [now left | right; now right]|].
    cbn [deliver] in Hs.
    destruct (IH _ sid s' pd Hs Hpd) as [(s1 & Hs1 & Hin) | H]; [|right; now right].
    destruct (Nat.eq_dec sid0 sid) as [-> | Hne].
    + rewrite update_nth_nth_error in Hs1.
      destruct (nth_error ss sid) as [s0|] eqn:Hs0; [|discriminate].
      cbn in Hs1. injection Hs1 as <-.
      destruct (stream_onPacket_held s0 r pd Hin) as [H | ->].
      * left. exists s0. now split.
      * right. now left.
    + rewrite update_nth_other in Hs1 by assumption. left. exists s1. now split.
Qed.

Lemma step_held (w : World) (e : Event) :
  (forall sid s pd,
      nth_error (streams w) sid = Some s -> In pd (held s) ->
      In (OnPacket (StreamConsumer sid) pd) (trace w)) ->
  forall sid s pd,
    nth_error (streams (step w e)) sid = Some s -> In pd (held s) ->
    In (OnPacket (StreamConsumer sid) pd) (trace (step w e)).
Proof.
  intros Hw sid s pd. destruct e; cbn [step]; try (apply Hw).
  - cbn [streams trace]. intros Hs Hpd.
    destruct (Nat.lt_ge_cases sid (length (streams w))) as [Hlt | Hge].
    + rewrite nth_error_app1 in Hs by assumption. now apply (Hw sid s).
    + rewrite nth_error_app2 in Hs by assumption.
      destruct (sid - length (streams w)) as [|n]; cbn in Hs.
      * injection Hs as <-. destruct Hpd.
      * destruct n; discriminate Hs.
  - destruct (nth_error (streams w) sid0) as [s0|] eqn:Hs0; [|apply Hw].
    pose proof (next_held sid0 (mgr w) s0 pd) as Hn.
    destruct (next sid0 (mgr w) s0) as [m' s1]. cbn [snd streams trace] in *.
    intros Hs Hpd. destruct (Nat.eq_dec sid0 sid) as [-> | Hne].
    + rewrite update_nth_nth_error, Hs0 in Hs. cbn in Hs. injection Hs as <-.
      apply (Hw sid s0); [exact Hs0 | now apply Hn].
    + rewrite update_nth_other in Hs by assumption. now apply (Hw sid s).
  - cbn [streams trace]. intros Hs Hpd. apply in_or_app. left. now apply (Hw sid s).
  - destruct (onData (mgr w) chunk) as [m' effects]. cbn [streams trace].
    intros Hs Hpd. apply in_or_app.
    destruct (deliver_held effects _ sid s pd Hs Hpd) as [(s0 & Hs0 & Hin) | H];
      [left; now apply (Hw sid s0) | now right].
  - cbn [streams trace]. intros Hs Hpd. apply in_or_app. left. now apply (Hw sid s).
  - destruct (stop (mgr w)) as [[m' pr] effects]. cbn [streams trace].
    intros Hs Hpd. apply in_or_app. left. now apply (Hw sid s).
  - destruct (stop (mgr w)) as [[m' pr] effects]. cbn [streams trace].
    intros Hs Hpd. apply in_or_app. left. now apply (Hw sid s).
Qed.

(** X23.  A packet stream makes up no record: in every history, each
    record that a stream has yielded or holds in its queue was handed
    to the consumer of that stream by the manager, so it is a record
    of a packet that came from the device. *)
Theorem streams_hold_published_records (history : list Event)
    (sid : nat) (s : PacketStream) (pd : PacketData) :
  nth_error (streams (run newWorld history)) sid = Some s ->
  In pd (yielded s ++ queue s) ->
  In (OnPacket (StreamConsumer sid) pd) (trace (run newWorld history)) /\
  In pd (recordsOf (trace (run newWorld history))).
Proof.
  assert (Hgen : forall es w,
             (forall sid s pd,
                 nth_error (streams w) sid = Some s -> In pd (held s) ->
                 In (OnPacket (StreamConsumer sid) pd) (trace w)) ->
             forall sid s pd,
               nth_error (streams (run w es)) sid = Some s -> In pd (held s) ->
               In (OnPacket (StreamConsumer sid) pd) (trace (run w es))).
  { induction es as [|e es IH]; intros w Hw; [exact Hw|].
    cbn [run fold_left]. fold (run (step w e) es). apply IH. now apply step_held. }
  intros Hs Hpd.
  assert (Hin : In (OnPacket (StreamConsumer sid) pd) (trace (run newWorld history))).
  { apply (Hgen history newWorld) with (s := s); try assumption.
    intros j x y Hx. destruct j; discriminate Hx. }
  split; [exact Hin|].
  unfold recordsOf. apply in_flat_map. eexists. split; [exact Hin | now left].
Qed.

Lemma streams_hold_published_records_witness :
  In (OnPacket (StreamConsumer 0) (mkPacketData UDP "fd00:0:0:0:0:0:0:2" "fd00:0:0:0:0:0:0:1" 1234 5678 []))
     (trace (run newWorld streamingHistory)) /\
  In (mkPacketData UDP "fd00:0:0:0:0:0:0:2" "fd00:0:0:0:0:0:0:1" 1234 5678 [])
     (recordsOf (trace (run newWorld streamingHistory))).
Proof.
  apply (streams_hold_published_records streamingHistory 0
           (mkPacketStream [] false SuspendedYield 0
              [mkPacketData UDP "fd00:0:0:0:0:0:0:2" "fd00:0:0:0:0:0:0:1" 1234 5678 []])).
  - vm_compute. reflexivity.
  - now left.
Defined.

(** ** The count that a write returns *)

(** X24.  The number that [Write] returns is never negative, and, as
    long as the system reports no more bytes than it was given, never
    more than the length of the payload: on macOS the four bytes of
    the header are taken off the count, and a count that does not
    reach beyond the header gives zero. *)
Theorem write_count_within_payload (p : Platform) (k : KernelWrite)
    (data : Buffer) (d : TunDevice.t) (n : Z) :
  (bytes_written k <= Z.of_nat (length (TunDevice.write_frame p data)))%Z ->
  TunDevice.Write p k data d = Returns (VNumber n) ->
  (0 <= n <= Z.of_nat (length data))%Z /\ (n <= bytes_written k \/ n = 0)%Z.
Proof.
  unfold TunDevice.Write, TunDevice.write_frame.
  destruct (negb (TunDevice.is_open d)); [discriminate|].
  destruct p as [| |pn]; intros Hk;
    destruct (Z.ltb_spec (bytes_written k) 0) as [Hneg|Hpos]; try discriminate;
    intros Hn; injection Hn as <-.
  - rewrite length_app in Hk.
    change (length (TunDevice.htonl TunDevice.AF_INET6)) with 4 in Hk.
    destruct (Z.ltb_spec 4 (bytes_written k)) as [Hmore|Hless]; lia.
  - lia.
  - lia.
Qed.

Lemma write_count_within_payload_witness :
  (0 <= 0 <= Z.of_nat (length udpDatagram))%Z /\ (0 <= bytes_written (mkKernelWrite 3 0) \/ 0 = 0)%Z.
Proof.
  apply (write_count_within_payload Darwin (mkKernelWrite 3 0) udpDatagram darwinDevice 0).
  - vm_compute. discriminate.
  - reflexivity.
Defined.
